(** * PollManager: poll registry, pending answers, reconciliation and replay

    A shallow embedding of [td/telegram/PollManager.cpp].  The manager is an
    actor: every public method runs to completion before the next one starts,
    so each method is a function from the manager's state to an outcome
    (a new state, or a crash when a [CHECK] or [LOG(FATAL)] fires).  Calls
    into collaborators (promises, binlog, key-value store, network queries,
    message notifications) are recorded, in program order, in a trace. *)

From Stdlib Require Import ZArith Lia Bool.
From stdpp Require Import gmap strings list fin_maps pretty.

Local Open Scope Z_scope.

(** ** Machine integers *)

(** Fixed-width integers are values of [Z]; where the code computes with
    them the wrap-around is written out ([uint64], [int32]; the overflow of
    a signed addition, undefined in C++, is taken to wrap). *)

Definition uint64 (z : Z) : Z := z mod 2 ^ 64.
Definition int32 (z : Z) : Z := (z + 2 ^ 31) mod 2 ^ 32 - 2 ^ 31.
Definition INT32_MIN : Z := - 2 ^ 31.

(** [static_cast<size_t>(x)] of a signed integer on a 64-bit target. *)
Definition to_size_t (z : Z) : Z := z mod 2 ^ 64.

(** The values of an [int32]. *)
Definition is_int32 (z : Z) : Prop := - 2 ^ 31 <= z < 2 ^ 31.

(** [static_cast<int32>(b)] of a [bool]. *)
Definition bool_to_int32 (b : bool) : Z := if b then 1 else 0.

(** ** Outcomes: a method either returns or terminates the process *)

Inductive Failure :=
| CHECK_failed (line : nat)
| LOG_FATAL (line : nat).

Inductive Outcome (A : Type) :=
| Done (a : A)
| Crashed (f : Failure).
Arguments Done {A} a.
Arguments Crashed {A} f.

#[global] Instance Outcome_ret : MRet Outcome := fun A a => Done a.
#[global] Instance Outcome_bind : MBind Outcome := fun A B k m =>
  match m with
  | Done a => k a
  | Crashed f => Crashed f
  end.

(** [CHECK(cond)] at a given source line. *)
Definition CHECK (cond : bool) (line : nat) : Outcome unit :=
  if cond then Done tt else Crashed (CHECK_failed line).

(** ** Data model *)

Abbreviation PollId := Z (only parsing).
Abbreviation DialogId := Z (only parsing).
Abbreviation MessageId := Z (only parsing).
Abbreviation FullMessageId := (DialogId * MessageId)%type (only parsing).

Definition get_dialog_id (full_message_id : FullMessageId) : DialogId :=
  fst full_message_id.

Record PollOption := mkPollOption {
  text : string;
  data : string;
  voter_count : Z;
  is_chosen : bool
}.

Record Poll := mkPoll {
  question : string;
  options : list PollOption;
  total_voter_count : Z;
  is_closed : bool
}.

(** A default-constructed [PollOption] / [Poll] (as [make_unique<Poll>()]). *)
Definition PollOption_new : PollOption := mkPollOption "" "" 0 false.
Definition Poll_new : Poll := mkPoll "" [] 0 false.

(** [Status::Error(code, message)]. *)
Record Status := mkStatus { code : Z; message : string }.

(** [Result<Unit>]. *)
Inductive ResultUnit :=
| ROk
| RError (status : Status).

Definition is_error (r : ResultUnit) : bool :=
  match r with ROk => false | RError _ => true end.
Definition is_ok (r : ResultUnit) : bool := negb (is_error r).

(** A [Promise<Unit>]: either the empty promise produced by [Auto()] or a
    caller's completion, identified by a number. *)
Inductive Promise :=
| Auto
| Callback (id : Z).

(** A [NetQueryRef]; [None] is the empty reference [NetQueryRef()]. *)
Abbreviation NetQueryRef := (option Z) (only parsing).

(** Modelled from the spec: the per-poll pending answer (declared in
    PollManager.h, which is not among the sources).  The spec gives its
    fields; the zero defaults of [generation_] and [logevent_id_] are what
    [do_set_poll_answer] tests on a freshly created entry. *)
Record PendingPollAnswer := mkPending {
  options_ : list string;
  promises_ : list Promise;
  generation_ : Z;
  logevent_id_ : Z;
  query_ref_ : NetQueryRef
}.

Definition PendingPollAnswer_new : PendingPollAnswer := mkPending [] [] 0 0 None.

Record SetPollAnswerLogEvent := mkLogEvent {
  le_poll_id_ : PollId;
  le_full_message_id_ : FullMessageId;
  le_options_ : list string
}.

(** [LogEvent::HandlerType], as far as this file distinguishes it. *)
Inductive HandlerType :=
| SetPollAnswer
| OtherHandler (type : Z).

Record BinlogEvent := mkBinlogEvent {
  id_ : Z;
  type_ : HandlerType;
  data_ : string
}.

(** The server's objects ([telegram_api::poll], [pollAnswer],
    [pollResults], [pollAnswerVoters]). *)
Record telegram_api_pollAnswer := mkPollAnswer {
  text_ : string;
  option_ : string
}.

Record telegram_api_poll := mkServerPoll {
  poll_id_ : Z;
  poll_flags_ : Z;
  question_ : string;
  answers_ : list telegram_api_pollAnswer
}.

Record telegram_api_pollAnswerVoters := mkVoters {
  voters_flags_ : Z;
  voters_option_ : string;
  voters_ : Z
}.

Record telegram_api_pollResults := mkPollResults {
  results_flags_ : Z;
  results_ : list telegram_api_pollAnswerVoters;
  total_voters_ : Z
}.

(** The client-visible objects ([td_api::pollOption], [td_api::poll]). *)
Record td_api_pollOption := mkApiOption {
  api_text : string;
  api_voter_count : Z;
  api_is_chosen : bool
}.

Record td_api_poll := mkApiPoll {
  api_question : string;
  api_options : list td_api_pollOption;
  api_total_voter_count : Z;
  api_is_closed : bool
}.

#[global] Instance PollOption_eq_dec : EqDecision PollOption.
Proof. solve_decision. Defined.
#[global] Instance Poll_eq_dec : EqDecision Poll.
Proof. solve_decision. Defined.

(** ** Collaborators *)

(** Constants and codecs that the file uses but does not define: the flag
    masks of the generated [telegram_api] classes, [PollId]'s validity test
    and default value, and the log-event (de)serialisers. *)
Class Extern := {
  CLOSED_MASK : Z;
  MIN_MASK : Z;
  TOTAL_VOTERS_MASK : Z;
  CHOSEN_MASK : Z;
  PollId_is_valid : PollId -> bool;
  PollId_empty : PollId;
  log_event_store : Poll -> string;
  log_event_parse : string -> option Poll;
  log_event_parse_answer : string -> option SetPollAnswerLogEvent
}.

(** [G()]: the process-wide parameters and flags read by the manager. *)
Record Global := mkGlobal {
  use_message_db : bool;
  close_flag : bool
}.

(** Modelled from the spec: the write-ahead log (BinlogHelper.h is not among
    the sources).  [append] returns a fresh entry id, [rewrite] replaces the
    payload of an entry and preserves its id, [erase] removes an entry. *)
Record Binlog := mkBinlog {
  entries : gmap Z SetPollAnswerLogEvent;
  next_id : Z
}.

Definition binlog_add (b : Binlog) (e : SetPollAnswerLogEvent) : Z * Binlog :=
  (next_id b, mkBinlog (<[next_id b := e]> (entries b)) (next_id b + 1)).

Definition binlog_rewrite (b : Binlog) (id : Z) (e : SetPollAnswerLogEvent) : Binlog :=
  mkBinlog (<[id := e]> (entries b)) (next_id b).

Definition binlog_erase (b : Binlog) (id : Z) : Binlog :=
  mkBinlog (delete id (entries b)) (next_id b).

(** Calls into collaborators, in program order. *)
Inductive Event :=
| EvSetValue (promise : Promise)
| EvSetError (promise : Promise) (status : Status)
| EvBinlogAdd (id : Z) (e : SetPollAnswerLogEvent)
| EvBinlogRewrite (id : Z) (e : SetPollAnswerLogEvent)
| EvBinlogErase (id : Z)
| EvCancelQuery (query_ref : NetQueryRef)
| EvUpdateMessageContent (full_message_id : FullMessageId)
| EvSendVote (poll_id : PollId) (generation : Z)
             (full_message_id : FullMessageId) (sent_options : list string)
| EvPmcSet (key : string) (value : string)
| EvDispatchQuery (query : Z) (full_message_id : FullMessageId) (options : list string)
| EvGetDialogError (dialog_id : DialogId) (status : Status)
| EvQueryResult (poll_id : PollId) (generation : Z) (result : ResultUnit).

(** ** The manager's state *)

Record State := mkState {
  polls_ : gmap Z Poll;
  poll_messages_ : gmap Z (gset FullMessageId);
  pending_answers_ : gmap Z PendingPollAnswer;
  loaded_from_database_polls_ : gset Z;
  current_local_poll_id_ : Z;
  current_generation_ : Z;
  sqlite_pmc : gmap string string;
  binlog : Binlog;
  trace : list Event
}.

Definition initial_state (db : gmap string string) (log : Binlog) : State :=
  mkState ∅ ∅ ∅ ∅ 0 0 db log [].

Definition set_polls (st : State) (v : gmap Z Poll) : State :=
  mkState v (poll_messages_ st) (pending_answers_ st) (loaded_from_database_polls_ st)
          (current_local_poll_id_ st) (current_generation_ st) (sqlite_pmc st)
          (binlog st) (trace st).

Definition set_poll_messages (st : State) (v : gmap Z (gset FullMessageId)) : State :=
  mkState (polls_ st) v (pending_answers_ st) (loaded_from_database_polls_ st)
          (current_local_poll_id_ st) (current_generation_ st) (sqlite_pmc st)
          (binlog st) (trace st).

Definition set_pending_answers (st : State) (v : gmap Z PendingPollAnswer) : State :=
  mkState (polls_ st) (poll_messages_ st) v (loaded_from_database_polls_ st)
          (current_local_poll_id_ st) (current_generation_ st) (sqlite_pmc st)
          (binlog st) (trace st).

Definition set_loaded (st : State) (v : gset Z) : State :=
  mkState (polls_ st) (poll_messages_ st) (pending_answers_ st) v
          (current_local_poll_id_ st) (current_generation_ st) (sqlite_pmc st)
          (binlog st) (trace st).

Definition set_current_local_poll_id (st : State) (v : Z) : State :=
  mkState (polls_ st) (poll_messages_ st) (pending_answers_ st)
          (loaded_from_database_polls_ st) v (current_generation_ st) (sqlite_pmc st)
          (binlog st) (trace st).

Definition set_current_generation (st : State) (v : Z) : State :=
  mkState (polls_ st) (poll_messages_ st) (pending_answers_ st)
          (loaded_from_database_polls_ st) (current_local_poll_id_ st) v (sqlite_pmc st)
          (binlog st) (trace st).

Definition set_sqlite_pmc (st : State) (v : gmap string string) : State :=
  mkState (polls_ st) (poll_messages_ st) (pending_answers_ st)
          (loaded_from_database_polls_ st) (current_local_poll_id_ st)
          (current_generation_ st) v (binlog st) (trace st).

Definition set_binlog (st : State) (v : Binlog) : State :=
  mkState (polls_ st) (poll_messages_ st) (pending_answers_ st)
          (loaded_from_database_polls_ st) (current_local_poll_id_ st)
          (current_generation_ st) (sqlite_pmc st) v (trace st).

(** Record a sequence of collaborator calls. *)
Definition emit (st : State) (evs : list Event) : State :=
  mkState (polls_ st) (poll_messages_ st) (pending_answers_ st)
          (loaded_from_database_polls_ st) (current_local_poll_id_ st)
          (current_generation_ st) (sqlite_pmc st) (binlog st) (trace st ++ evs).

(** ** The methods of [PollManager] *)

Section PollManager.
Context `{Extern}.

Definition is_local_poll_id (poll_id : PollId) : bool :=
  (poll_id <? 0) && (INT32_MIN <? poll_id).

Definition get_poll (st : State) (poll_id : PollId) : option Poll :=
  polls_ st !! poll_id.

Definition get_poll_editable (st : State) (poll_id : PollId) : option Poll :=
  polls_ st !! poll_id.

Definition have_poll (st : State) (poll_id : PollId) : bool :=
  match get_poll st poll_id with Some _ => true | None => false end.

(** The registered messages are kept in an unordered set; they are visited
    in the order of [elements]. *)
Definition notify_on_poll_update (st : State) (poll_id : PollId) : State :=
  match poll_messages_ st !! poll_id with
  | None => st
  | Some ids => emit st (EvUpdateMessageContent <$> elements ids)
  end.

Definition get_poll_database_key (poll_id : PollId) : string :=
  "poll" +:+ pretty poll_id.

Definition save_poll (G : Global) (st : State) (poll : Poll) (poll_id : PollId)
  : Outcome State :=
  CHECK (negb (is_local_poll_id poll_id)) 129;;
  if negb (use_message_db G) then Done st
  else
    let key := get_poll_database_key poll_id in
    let value := log_event_store poll in
    Done (emit (set_sqlite_pmc st (<[key := value]> (sqlite_pmc st)))
               [EvPmcSet key value]).

Definition on_load_poll_from_database (st : State) (poll_id : PollId) (value : string)
  : Outcome State :=
  let st := set_loaded st ({[poll_id]} ∪ loaded_from_database_polls_ st) in
  CHECK (negb (have_poll st poll_id)) 147;;
  if negb (bool_decide (value = ""))
  then match log_event_parse value with
       | None => Crashed (LOG_FATAL 152)
       | Some result => Done (set_polls st (<[poll_id := result]> (polls_ st)))
       end
  else Done st.

(** A missing key reads as the empty string. *)
Definition get_poll_force (G : Global) (st : State) (poll_id : PollId)
  : Outcome (option Poll * State) :=
  match get_poll_editable st poll_id with
  | Some poll => Done (Some poll, st)
  | None =>
    if negb (use_message_db G) then Done (None, st)
    else if bool_decide (poll_id ∈ loaded_from_database_polls_ st) then Done (None, st)
    else
      st ← on_load_poll_from_database st poll_id
             (default "" (sqlite_pmc st !! get_poll_database_key poll_id));
      Done (get_poll_editable st poll_id, st)
  end.

Definition have_poll_force (G : Global) (st : State) (poll_id : PollId)
  : Outcome (bool * State) :=
  '(poll, st) ← get_poll_force G st poll_id;
  Done (match poll with Some _ => true | None => false end, st).

Definition get_poll_option_object (poll_option : PollOption) : td_api_pollOption :=
  mkApiOption (text poll_option) (voter_count poll_option) (is_chosen poll_option).

(** The loop of [get_poll_object] over [poll->options] when a pending answer
    exists; [voter_count_diff] is threaded through the iterations. *)
Fixpoint get_poll_object_loop (chosen_options : list string) (poll_options : list PollOption)
    (voter_count_diff : Z) : list td_api_pollOption * Z :=
  match poll_options with
  | [] => ([], voter_count_diff)
  | poll_option :: rest =>
    let is_chosen' := bool_decide (data poll_option ∈ chosen_options) in
    let voter_count_diff := if is_chosen poll_option then -1 else voter_count_diff in
    let object :=
      mkApiOption (text poll_option)
        (int32 (int32 (voter_count poll_option - bool_to_int32 (is_chosen poll_option))
                + bool_to_int32 is_chosen'))
        is_chosen' in
    let '(objects, voter_count_diff) :=
      get_poll_object_loop chosen_options rest voter_count_diff in
    (object :: objects, voter_count_diff)
  end.

Definition get_poll_object (st : State) (poll_id : PollId) : Outcome td_api_poll :=
  match get_poll st poll_id with
  | None => Crashed (CHECK_failed 185)
  | Some poll =>
    let '(poll_options, voter_count_diff) :=
      match pending_answers_ st !! poll_id with
      | None => (get_poll_option_object <$> options poll, 0)
      | Some pending_answer =>
        let chosen_options := options_ pending_answer in
        let '(poll_options, voter_count_diff) :=
          get_poll_object_loop chosen_options (options poll) 0 in
        (poll_options,
         if negb (bool_decide (chosen_options = []))
         then voter_count_diff + 1 else voter_count_diff)
      end in
    Done (mkApiPoll (question poll) poll_options
            (int32 (total_voter_count poll + voter_count_diff)) (is_closed poll))
  end.

Definition create_poll (st : State) (question : string) (option_texts : list string)
  : Outcome (PollId * State) :=
  let poll_options :=
    imap (fun pos option_text =>
            mkPollOption option_text (pretty (Z.of_nat pos)) 0 false) option_texts in
  let poll := mkPoll question poll_options 0 false in
  let st := set_current_local_poll_id st (current_local_poll_id_ st - 1) in
  let poll_id := current_local_poll_id_ st in
  CHECK (is_local_poll_id poll_id) 228;;
  let is_inserted := bool_decide (polls_ st !! poll_id = None) in
  CHECK is_inserted 230;;
  Done (poll_id, set_polls st (<[poll_id := poll]> (polls_ st))).

Definition register_poll (st : State) (poll_id : PollId) (full_message_id : FullMessageId)
  : Outcome State :=
  CHECK (have_poll st poll_id) 235;;
  Done (set_poll_messages st
          (<[poll_id := {[full_message_id]} ∪ default ∅ (poll_messages_ st !! poll_id)]>
             (poll_messages_ st))).

Definition unregister_poll (st : State) (poll_id : PollId) (full_message_id : FullMessageId)
  : Outcome State :=
  CHECK (have_poll st poll_id) 240;;
  Done (set_poll_messages st
          (<[poll_id := default ∅ (poll_messages_ st !! poll_id) ∖ {[full_message_id]}]>
             (poll_messages_ st))).

(** The loop of [set_poll_answer] that maps option indices to option keys;
    [None] when an index is out of range. *)
Fixpoint set_poll_answer_loop (poll_options : list PollOption) (option_ids : list Z)
    (options : list string) : option (list string) :=
  match option_ids with
  | [] => Some options
  | option_id :: rest =>
    let index := to_size_t option_id in
    if Z.of_nat (length poll_options) <=? index then None
    else
      match poll_options !! Z.to_nat index with
      | None => None
      | Some poll_option => set_poll_answer_loop poll_options rest (options ++ [data poll_option])
      end
  end.

Definition do_set_poll_answer (G : Global) (st : State) (poll_id : PollId)
    (full_message_id : FullMessageId) (options : list string) (logevent_id : Z)
    (promise : Promise) : Outcome State :=
  (* auto &pending_answer = pending_answers_[poll_id]; *)
  let pending_answer := default PendingPollAnswer_new (pending_answers_ st !! poll_id) in
  if negb (bool_decide (promises_ pending_answer = []))
     && bool_decide (options_ pending_answer = options)
  then
    Done (set_pending_answers st
            (<[poll_id := mkPending (options_ pending_answer)
                            (promises_ pending_answer ++ [promise])
                            (generation_ pending_answer)
                            (logevent_id_ pending_answer)
                            (query_ref_ pending_answer)]> (pending_answers_ st)))
  else
    CHECK ((logevent_id_ pending_answer =? 0) || (logevent_id =? 0)) 299;;
    '(logevent_id, st) ←
      (if (logevent_id =? 0) && use_message_db G then
         let logevent := mkLogEvent poll_id full_message_id options in
         if generation_ pending_answer =? 0 then
           CHECK (logevent_id_ pending_answer =? 0) 307;;
           let '(logevent_id, b) := binlog_add (binlog st) logevent in
           Done (logevent_id, emit (set_binlog st b) [EvBinlogAdd logevent_id logevent])
         else
           CHECK (negb (logevent_id_ pending_answer =? 0)) 311;;
           let logevent_id := logevent_id_ pending_answer in
           Done (logevent_id,
                 emit (set_binlog st (binlog_rewrite (binlog st) logevent_id logevent))
                      [EvBinlogRewrite logevent_id logevent])
       else Done (logevent_id, st));
    '(pending_answer, st) ←
      (if negb (bool_decide (promises_ pending_answer = [])) then
         CHECK (negb (bool_decide (query_ref_ pending_answer = None))) 320;;
         let st := emit st [EvCancelQuery (query_ref_ pending_answer)] in
         let promises := promises_ pending_answer in
         let pending_answer :=
           mkPending (options_ pending_answer) [] (generation_ pending_answer)
                     (logevent_id_ pending_answer) None in
         Done (pending_answer, emit st (EvSetValue <$> promises))
       else Done (pending_answer, st));
    let sent_options := options in
    let generation := uint64 (current_generation_ st + 1) in
    let st := set_current_generation st generation in
    let pending_answer :=
      mkPending options (promises_ pending_answer ++ [promise]) generation logevent_id
                (query_ref_ pending_answer) in
    let st := set_pending_answers st (<[poll_id := pending_answer]> (pending_answers_ st)) in
    let st := notify_on_poll_update st poll_id in
    Done (emit st [EvSendVote poll_id generation full_message_id sent_options]).

Definition set_poll_answer (G : Global) (st : State) (poll_id : PollId)
    (full_message_id : FullMessageId) (option_ids : list Z) (promise : Promise)
  : Outcome State :=
  if (1 <? length option_ids)%nat then
    Done (emit st [EvSetError promise (mkStatus 400 "Can't choose more than 1 option")])
  else if is_local_poll_id poll_id then
    Done (emit st [EvSetError promise (mkStatus 5 "Poll can't be answered")])
  else
    match get_poll st poll_id with
    | None => Crashed (CHECK_failed 254)
    | Some poll =>
      if is_closed poll then
        Done (emit st [EvSetError promise (mkStatus 400 "Can't answer closed poll")])
      else
        match set_poll_answer_loop (options poll) option_ids [] with
        | None =>
          Done (emit st [EvSetError promise (mkStatus 400 "Invalid option id specified")])
        | Some options =>
          do_set_poll_answer G st poll_id full_message_id options 0 promise
        end
    end.

(** [SetPollAnswerQuery::send], run by the net actor that
    [do_set_poll_answer] creates.  [query_ref] points at the [query_ref_] of
    the pending answer of [poll_id]; [input_peer] tells whether the chat is
    readable and [query] is the weak reference of the created query. *)
Definition SetPollAnswerQuery_send (st : State) (poll_id : PollId)
    (full_message_id : FullMessageId) (options : list string) (generation : Z)
    (input_peer : bool) (query : Z) : State :=
  if negb input_peer then
    let status := mkStatus 400 "Can't access the chat" in
    emit st [EvGetDialogError (get_dialog_id full_message_id) status;
             EvQueryResult poll_id generation (RError status)]
  else
    let st :=
      match pending_answers_ st !! poll_id with
      | None => st
      | Some pending_answer =>
        set_pending_answers st
          (<[poll_id := mkPending (options_ pending_answer) (promises_ pending_answer)
                          (generation_ pending_answer) (logevent_id_ pending_answer)
                          (Some query)]> (pending_answers_ st))
      end in
    emit st [EvDispatchQuery query full_message_id options].

(** The body of the loop of [on_set_poll_answer] over the waiting promises. *)
Definition resolve_promise (result : ResultUnit) (promise : Promise) : Event :=
  match result with
  | ROk => EvSetValue promise
  | RError status => EvSetError promise status
  end.

Definition on_set_poll_answer (G : Global) (st : State) (poll_id : PollId)
    (generation : Z) (result : ResultUnit) : Outcome State :=
  if close_flag G && is_error result then Done st
  else
    match pending_answers_ st !! poll_id with
    | None => Done st
    | Some pending_answer =>
      CHECK (negb (bool_decide (promises_ pending_answer = []))) 365;;
      if negb (generation_ pending_answer =? generation) then Done st
      else
        let st :=
          if negb (logevent_id_ pending_answer =? 0) then
            emit (set_binlog st (binlog_erase (binlog st) (logevent_id_ pending_answer)))
                 [EvBinlogErase (logevent_id_ pending_answer)]
          else st in
        let promises := promises_ pending_answer in
        let st := emit st (resolve_promise result <$> promises) in
        Done (set_pending_answers st (delete poll_id (pending_answers_ st)))
    end.

Definition close_poll (G : Global) (st : State) (poll_id : PollId) : Outcome State :=
  match get_poll_editable st poll_id with
  | None => Crashed (CHECK_failed 389)
  | Some poll =>
    if is_closed poll then Done st
    else
      let poll :=
        mkPoll (question poll) (options poll) (total_voter_count poll) true in
      let st := set_polls st (<[poll_id := poll]> (polls_ st)) in
      let st := notify_on_poll_update st poll_id in
      if negb (is_local_poll_id poll_id) then save_poll G st poll poll_id
      else Done st
  end.

Definition get_poll_options (poll_options : list telegram_api_pollAnswer) : list PollOption :=
  (fun poll_option => mkPollOption (text_ poll_option) (option_ poll_option) 0 false)
    <$> poll_options.

(** Lines 458-467 of [on_get_poll]: one iteration of the position-wise
    merge of the server's answers. *)
Definition on_get_poll_merge_answer (poll_option : PollOption)
    (answer : telegram_api_pollAnswer) (is_changed : bool) : PollOption * bool :=
  let '(poll_option, is_changed) :=
    if negb (bool_decide (text poll_option = text_ answer))
    then (mkPollOption (text_ answer) (data poll_option) (voter_count poll_option)
                       (is_chosen poll_option), true)
    else (poll_option, is_changed) in
  if negb (bool_decide (data poll_option = option_ answer))
  then (mkPollOption (text poll_option) (option_ answer) 0 false, true)
  else (poll_option, is_changed).

(** Lines 457-468: the loop over the positions; it runs only when both
    lists have the same length. *)
Fixpoint on_get_poll_merge_answers (poll_options : list PollOption)
    (answers : list telegram_api_pollAnswer) (is_changed : bool)
  : list PollOption * bool :=
  match poll_options, answers with
  | poll_option :: poll_options', answer :: answers' =>
    let '(poll_option, is_changed) :=
      on_get_poll_merge_answer poll_option answer is_changed in
    let '(rest, is_changed) := on_get_poll_merge_answers poll_options' answers' is_changed in
    (poll_option :: rest, is_changed)
  | _, _ => (poll_options, is_changed)
  end.

(** Lines 448-475 of [on_get_poll]: merging a server poll into [poll]. *)
Definition on_get_poll_merge_poll (poll : Poll) (poll_server : telegram_api_poll)
    (is_changed : bool) : Poll * bool :=
  let '(question', is_changed) :=
    if negb (bool_decide (question poll = question_ poll_server))
    then (question_ poll_server, true) else (question poll, is_changed) in
  let '(options', is_changed) :=
    if negb (length (options poll) =? length (answers_ poll_server))%nat
    then (get_poll_options (answers_ poll_server), true)
    else on_get_poll_merge_answers (options poll) (answers_ poll_server) is_changed in
  let is_closed' := negb (Z.land (poll_flags_ poll_server) CLOSED_MASK =? 0) in
  let '(is_closed'', is_changed) :=
    if negb (Bool.eqb is_closed' (is_closed poll))
    then (is_closed', true) else (is_closed poll, is_changed) in
  (mkPoll question' options' (total_voter_count poll) is_closed'', is_changed).

(** Lines 487-500: one server tally entry applied to one option. *)
Definition on_get_poll_update_option (is_min : bool)
    (poll_result : telegram_api_pollAnswerVoters) (option : PollOption) (is_changed : bool)
  : PollOption * bool :=
  if negb (bool_decide (data option = voters_option_ poll_result))
  then (option, is_changed)
  else
    let '(option, is_changed) :=
      if negb is_min then
        let is_chosen' := negb (Z.land (voters_flags_ poll_result) CHOSEN_MASK =? 0) in
        if negb (Bool.eqb is_chosen' (is_chosen option))
        then (mkPollOption (text option) (data option) (voter_count option) is_chosen',
              true)
        else (option, is_changed)
      else (option, is_changed) in
    if negb (voters_ poll_result =? voter_count option)
    then (mkPollOption (text option) (data option) (voters_ poll_result)
                       (is_chosen option), true)
    else (option, is_changed).

(** Lines 486-501: one server tally entry applied to every option. *)
Fixpoint on_get_poll_apply_result (is_min : bool) (poll_result : telegram_api_pollAnswerVoters)
    (poll_options : list PollOption) (is_changed : bool) : list PollOption * bool :=
  match poll_options with
  | [] => ([], is_changed)
  | option :: rest =>
    let '(option, is_changed) :=
      on_get_poll_update_option is_min poll_result option is_changed in
    let '(rest, is_changed) := on_get_poll_apply_result is_min poll_result rest is_changed in
    (option :: rest, is_changed)
  end.

(** Lines 484-502: the loop over the server's tally entries. *)
Fixpoint on_get_poll_apply_results (is_min : bool)
    (results : list telegram_api_pollAnswerVoters) (poll_options : list PollOption)
    (is_changed : bool) : list PollOption * bool :=
  match results with
  | [] => (poll_options, is_changed)
  | poll_result :: rest =>
    let '(poll_options, is_changed) :=
      on_get_poll_apply_result is_min poll_result poll_options is_changed in
    on_get_poll_apply_results is_min rest poll_options is_changed
  end.

(** Lines 478-502 of [on_get_poll]: merging the server's results into [poll]. *)
Definition on_get_poll_merge_results (poll : Poll) (poll_results : telegram_api_pollResults)
    (is_changed : bool) : Poll * bool :=
  let is_min := negb (Z.land (results_flags_ poll_results) MIN_MASK =? 0) in
  let '(total', is_changed) :=
    if negb (Z.land (results_flags_ poll_results) TOTAL_VOTERS_MASK =? 0)
       && negb (total_voters_ poll_results =? total_voter_count poll)
    then (total_voters_ poll_results, true) else (total_voter_count poll, is_changed) in
  let '(options', is_changed) :=
    on_get_poll_apply_results is_min (results_ poll_results) (options poll) is_changed in
  (mkPoll (question poll) options' total' (is_closed poll), is_changed).

(** The merged poll and the changed-flag computed by lines 448-502. *)
Definition merged (poll : Poll) (poll_server : option telegram_api_poll)
    (results : telegram_api_pollResults) : Poll * bool :=
  let '(poll, is_changed) :=
    match poll_server with
    | Some server => on_get_poll_merge_poll poll server false
    | None => (poll, false)
    end in
  on_get_poll_merge_results poll results is_changed.

(** Lines 446-508 of [on_get_poll], with [poll] the registry entry of
    [poll_id] (found, loaded or just created) and [is_changed] still false. *)
Definition on_get_poll_merge (G : Global) (st : State) (poll_id : PollId) (poll : Poll)
    (poll_server : option telegram_api_poll) (poll_results : option telegram_api_pollResults)
  : Outcome (PollId * State) :=
  let is_changed := false in
  let '(poll, is_changed) :=
    match poll_server with
    | Some server => on_get_poll_merge_poll poll server is_changed
    | None => (poll, is_changed)
    end in
  match poll_results with
  | None => Crashed (CHECK_failed 477)
  | Some results =>
    let '(poll, is_changed) := on_get_poll_merge_results poll results is_changed in
    let st := set_polls st (<[poll_id := poll]> (polls_ st)) in
    if is_changed then
      let st := notify_on_poll_update st poll_id in
      st ← save_poll G st poll poll_id;
      Done (poll_id, st)
    else Done (poll_id, st)
  end.

(** The poll id the update is about: the given one, or the server poll's
    when the given one is not valid (lines 421-423). *)
Definition on_get_poll_id (poll_id : PollId) (poll_server : option telegram_api_poll)
  : PollId :=
  match poll_server with
  | Some server => if negb (PollId_is_valid poll_id) then poll_id_ server else poll_id
  | None => poll_id
  end.

Definition on_get_poll (G : Global) (st : State) (poll_id : PollId)
    (poll_server : option telegram_api_poll) (poll_results : option telegram_api_pollResults)
  : Outcome (PollId * State) :=
  let poll_id := on_get_poll_id poll_id poll_server in
  if negb (PollId_is_valid poll_id) || is_local_poll_id poll_id then Done (PollId_empty, st)
  else if match poll_server with
          | Some server => negb (poll_id_ server =? poll_id)
          | None => false
          end
  then Done (PollId_empty, st)
  else
    '(poll, st) ← get_poll_force G st poll_id;
    match poll with
    | Some poll => on_get_poll_merge G st poll_id poll poll_server poll_results
    | None =>
      match poll_server with
      | None => Done (PollId_empty, st)
      | Some _ =>
        let is_inserted := bool_decide (polls_ st !! poll_id = None) in
        CHECK is_inserted 444;;
        on_get_poll_merge G (set_polls st (<[poll_id := Poll_new]> (polls_ st)))
                          poll_id Poll_new poll_server poll_results
      end
    end.

(** Resolving the dialog's dependencies (lines 523-527) is done by the
    messages manager and touches nothing of this manager. *)
Fixpoint on_binlog_events (G : Global) (st : State) (events : list BinlogEvent)
  : Outcome State :=
  match events with
  | [] => Done st
  | event :: rest =>
    st ←
      match type_ event with
      | SetPollAnswer =>
        if negb (use_message_db G) then
          Done (emit (set_binlog st (binlog_erase (binlog st) (id_ event)))
                     [EvBinlogErase (id_ event)])
        else
          match log_event_parse_answer (data_ event) with
          | None => Crashed (LOG_FATAL 521)
          | Some log_event =>
            do_set_poll_answer G st (le_poll_id_ log_event) (le_full_message_id_ log_event)
                               (le_options_ log_event) (id_ event) Auto
          end
      | OtherHandler _ => Crashed (LOG_FATAL 534)
      end;
    on_binlog_events G st rest
  end.

(** The [CHOSEN] flag of a tally entry (line 491). *)
Definition chosen_flag (poll_result : telegram_api_pollAnswerVoters) : bool :=
  negb (Z.land (voters_flags_ poll_result) CHOSEN_MASK =? 0).

(** What lines 487-500 leave in one option for one tally entry. *)
Definition updated_option (is_min : bool) (poll_result : telegram_api_pollAnswerVoters)
    (option : PollOption) : PollOption :=
  if bool_decide (data option = voters_option_ poll_result)
  then mkPollOption (text option) (data option) (voters_ poll_result)
                    (if is_min then is_chosen option else chosen_flag poll_result)
  else option.

(** The decoded payloads of a list of binlog events. *)
Definition replayed (events : list BinlogEvent) : list SetPollAnswerLogEvent :=
  omap (fun event => log_event_parse_answer (data_ event)) events.

(** ** The manager as a state machine *)

(** The calls the manager receives, one per actor message. *)
Inductive Op :=
| OpCreatePoll (question : string) (option_texts : list string)
| OpRegisterPoll (poll_id : PollId) (full_message_id : FullMessageId)
| OpUnregisterPoll (poll_id : PollId) (full_message_id : FullMessageId)
| OpHavePollForce (poll_id : PollId)
| OpSetPollAnswer (poll_id : PollId) (full_message_id : FullMessageId)
                  (option_ids : list Z) (promise : Promise)
| OpQuerySend (poll_id : PollId) (full_message_id : FullMessageId) (options : list string)
              (generation : Z) (input_peer : bool) (query : Z)
| OpOnSetPollAnswer (poll_id : PollId) (generation : Z) (result : ResultUnit)
| OpClosePoll (poll_id : PollId)
| OpOnGetPoll (poll_id : PollId) (poll_server : option telegram_api_poll)
              (poll_results : option telegram_api_pollResults)
| OpOnBinlogEvents (events : list BinlogEvent).

Definition run (G : Global) (st : State) (op : Op) : Outcome State :=
  match op with
  | OpCreatePoll question option_texts =>
    '(_, st) ← create_poll st question option_texts; Done st
  | OpRegisterPoll poll_id full_message_id => register_poll st poll_id full_message_id
  | OpUnregisterPoll poll_id full_message_id => unregister_poll st poll_id full_message_id
  | OpHavePollForce poll_id => '(_, st) ← have_poll_force G st poll_id; Done st
  | OpSetPollAnswer poll_id full_message_id option_ids promise =>
    set_poll_answer G st poll_id full_message_id option_ids promise
  | OpQuerySend poll_id full_message_id options generation input_peer query =>
    Done (SetPollAnswerQuery_send st poll_id full_message_id options generation
                                  input_peer query)
  | OpOnSetPollAnswer poll_id generation result =>
    on_set_poll_answer G st poll_id generation result
  | OpClosePoll poll_id => close_poll G st poll_id
  | OpOnGetPoll poll_id poll_server poll_results =>
    '(_, st) ← on_get_poll G st poll_id poll_server poll_results; Done st
  | OpOnBinlogEvents events => on_binlog_events G st events
  end.

(** A sequence of calls, each with the [close_flag] it sees. *)
Fixpoint run_calls (use_db : bool) (st : State) (calls : list (bool * Op)) : Outcome State :=
  match calls with
  | [] => Done st
  | (close, op) :: rest =>
    st ← run (mkGlobal use_db close) st op;
    run_calls use_db st rest
  end.

(** The one call that can take [is_closed] back: a server poll for this
    very poll id that does not carry the [CLOSED] flag. *)
Definition clears_closed (poll_id : PollId) (op : Op) : Prop :=
  match op with
  | OpOnGetPoll _ (Some server) _ =>
    poll_id_ server = poll_id /\ Z.land (poll_flags_ server) CLOSED_MASK = 0
  | _ => False
  end.

(** The states the manager can be in between two calls: it starts empty
    over some database and binlog (whose ids are positive);
    [use_message_db] is fixed for the run, [close_flag] may differ from
    call to call. *)
Inductive reachable (use_db : bool) : State -> Prop :=
| reachable_initial db log :
    0 < next_id log -> reachable use_db (initial_state db log)
| reachable_run st close op st' :
    reachable use_db st ->
    run (mkGlobal use_db close) st op = Done st' ->
    reachable use_db st'.

End PollManager.

(** ** Ghost views of the trace and state invariants *)

(** The generations handed to vote queries so far. *)
Definition issued_generations (tr : list Event) : list Z :=
  omap (fun e => match e with
                 | EvSendVote _ generation _ _ => Some generation
                 | _ => None
                 end) tr.

(** The tally the server sent for an option key: that of the last entry
    with this key, if any. *)
Definition incoming_voters (results : list telegram_api_pollAnswerVoters) (key : string)
  : option Z :=
  voters_ <$> last (filter (fun poll_result => voters_option_ poll_result = key) results).

(** The options agree with the server's answers in text and key, position
    by position. *)
Definition agrees (poll_options : list PollOption) (answers : list telegram_api_pollAnswer)
  : Prop :=
  Forall2 (fun option answer => text option = text_ answer /\ data option = option_ answer)
          poll_options answers.

(** The vote queries sent so far: poll, message and option keys. *)
Definition sent_votes (tr : list Event) : list (PollId * FullMessageId * list string) :=
  omap (fun e => match e with
                 | EvSendVote poll_id _ full_message_id sent_options =>
                   Some (poll_id, full_message_id, sent_options)
                 | _ => None
                 end) tr.

(** The calls to the binlog. *)
Definition is_binlog_call (e : Event) : bool :=
  match e with
  | EvBinlogAdd _ _ | EvBinlogRewrite _ _ | EvBinlogErase _ => true
  | _ => false
  end.

Definition binlog_calls (tr : list Event) : list Event :=
  List.filter is_binlog_call tr.

Definition pending_wf (use_db : bool) (current_generation : Z)
    (pending_answer : PendingPollAnswer) : Prop :=
  promises_ pending_answer <> [] /\
  0 < generation_ pending_answer <= current_generation /\
  (use_db = true -> logevent_id_ pending_answer <> 0).

(** Every pending answer has a waiter. *)
Definition waiters_nonempty (st : State) : Prop :=
  forall poll_id pending_answer,
    pending_answers_ st !! poll_id = Some pending_answer ->
    promises_ pending_answer <> [].

(** The number of vote queries sent so far. *)
Definition sends (st : State) : Z :=
  Z.of_nat (length (issued_generations (trace st))).

(** What holds of the pending answers and the generation counter as long as
    the 64-bit counter has not wrapped around. *)
Definition wf (use_db : bool) (st : State) : Prop :=
  0 <= current_generation_ st /\
  0 < next_id (binlog st) /\
  (forall poll_id pending_answer,
     pending_answers_ st !! poll_id = Some pending_answer ->
     pending_wf use_db (current_generation_ st) pending_answer) /\
  Forall (fun generation => 0 < generation <= current_generation_ st)
         (issued_generations (trace st)).


(** What holds between any two calls: every pending answer has a waiter,
    the generation counter is the number of queries sent (modulo 2^64), the
    binlog's ids are positive, and [wf] holds until 2^64 queries were sent. *)
Definition invariant (use_db : bool) (st : State) : Prop :=
  waiters_nonempty st /\
  current_generation_ st = uint64 (sends st) /\
  0 < next_id (binlog st) /\
  (sends st < 2 ^ 64 -> wf use_db st).

(** Calls that leave the answer coordinator alone. *)
Definition quiet (st st' : State) : Prop :=
  pending_answers_ st' = pending_answers_ st /\
  current_generation_ st' = current_generation_ st /\
  next_id (binlog st') = next_id (binlog st) /\
  issued_generations (trace st') = issued_generations (trace st).

(** * TlsReaderByteFlow: unwrapping emulated TLS records

    A shallow embedding of [td/mtproto/TlsReaderByteFlow.cpp].  A byte is a
    [Z] in [0, 256). *)

Definition is_byte (z : Z) : Prop := 0 <= z < 256.

(** The state of the flow as far as [loop] touches it (its base class is
    not among the sources): the bytes not yet consumed from [input_], the
    bytes appended to [output_] so far, the size last asked for with
    [set_need_size], and the status given to [close_input], if it was
    called. *)
Record TlsReaderByteFlow := mkFlow {
  input_ : list Z;
  output_ : list Z;
  need_size_ : Z;
  close_status_ : option string
}.

Definition set_need_size (flow : TlsReaderByteFlow) (size : Z) : TlsReaderByteFlow :=
  mkFlow (input_ flow) (output_ flow) size (close_status_ flow).

Definition close_input (flow : TlsReaderByteFlow) (status : string) : TlsReaderByteFlow :=
  mkFlow (input_ flow) (output_ flow) (need_size_ flow) (Some status).

(** The length field of a record header: [(buf[3] << 8) | buf[4]]. *)
Definition packet_length (buf : list Z) : Z :=
  Z.lor (Z.shiftl (nth 3 buf 0) 8) (nth 4 buf 0).

(** [TlsReaderByteFlow::loop], with the number of iterations of
    [while (true)] bounded by [fuel]; [None] when the bound is hit. *)
Fixpoint loop_fuel (fuel : nat) (flow : TlsReaderByteFlow) : option TlsReaderByteFlow :=
  match fuel with
  | O => None
  | S fuel =>
    if (length (input_ flow) <? 5)%nat then Some (set_need_size flow 5)
    else
      (* auto it = input_->clone(); it.advance(5, MutableSlice(buf, 5)); *)
      let buf := take 5 (input_ flow) in
      let it := drop 5 (input_ flow) in
      if negb (bool_decide (take 3 buf = [23; 3; 3])) then
        Some (close_input flow "Invalid bytes at the beginning of a packet (emulated tls)")
      else
        let len := packet_length buf in
        if 2 ^ 14 <? len then
          Some (close_input flow "Packet lenght is too big (emulated tls)")
        else if Z.of_nat (length it) <? len then Some (set_need_size flow (5 + len))
        else
          (* output_.append(it.cut_head(len)); *input_ = std::move(it); *)
          loop_fuel fuel
            (mkFlow (drop (Z.to_nat len) it) (output_ flow ++ take (Z.to_nat len) it)
                    (need_size_ flow) (close_status_ flow))
  end.

(** Every iteration that goes on consumes at least five bytes, so one more
    iteration than there are bytes is enough. *)
Definition loop (flow : TlsReaderByteFlow) : option TlsReaderByteFlow :=
  loop_fuel (S (length (input_ flow))) flow.

(** One record as it travels: the three fixed bytes, the length of the
    payload in two bytes (most significant first), and the payload. *)
Definition tls_record (payload : list Z) : list Z :=
  [23; 3; 3; Z.of_nat (length payload) / 256; Z.of_nat (length payload) mod 256] ++ payload.

(** What a caller observes of a flow apart from the size it asks for. *)
Definition flow_view (flow : TlsReaderByteFlow) : list Z * list Z * option string :=
  (input_ flow, output_ flow, close_status_ flow).

(** * Further definitions for the properties below *)

(** The state after a call of the coalescing core for a poll without
    pending answer on behalf of a caller (no binlog entry yet). *)
Definition first_vote_state (G : Global) (st : State) (poll_id : PollId)
    (full_message_id : FullMessageId) (keys : list string) (promise : Promise) : State :=
  let generation := uint64 (current_generation_ st + 1) in
  let logevent := mkLogEvent poll_id full_message_id keys in
  mkState (polls_ st) (poll_messages_ st)
    (<[poll_id := mkPending keys [promise] generation
                    (if use_message_db G then next_id (binlog st) else 0) None]>
       (pending_answers_ st))
    (loaded_from_database_polls_ st) (current_local_poll_id_ st) generation
    (sqlite_pmc st)
    (if use_message_db G then snd (binlog_add (binlog st) logevent) else binlog st)
    (trace st
     ++ (if use_message_db G then [EvBinlogAdd (next_id (binlog st)) logevent] else [])
     ++ (EvUpdateMessageContent <$> elements (default ∅ (poll_messages_ st !! poll_id)))
     ++ [EvSendVote poll_id generation full_message_id keys]).


Section MoreDefinitions.
Context `{Extern}.

(** Between two states the key-value store changed only under keys of
    polls whose id is not local. *)
Definition store_step (st st' : State) : Prop :=
  forall key,
    sqlite_pmc st' !! key <> sqlite_pmc st !! key ->
    exists poll_id, is_local_poll_id poll_id = false /\ key = get_poll_database_key poll_id.

End MoreDefinitions.

(** One option of a poll as [get_poll_object] shows it while an answer with
    the keys [chosen_options] is pending. *)
Definition pending_option_object (chosen_options : list string) (poll_option : PollOption)
  : td_api_pollOption :=
  let is_chosen' := bool_decide (data poll_option ∈ chosen_options) in
  mkApiOption (text poll_option)
    (int32 (int32 (voter_count poll_option - bool_to_int32 (is_chosen poll_option))
            + bool_to_int32 is_chosen'))
    is_chosen'.
(** * Concrete states used by the examples *)

(** A registry with one poll whose first option carries the user's confirmed
    vote, and a pending answer that moves the vote to the second option. *)
Definition voted_poll : Poll :=
  mkPoll "Q" [mkPollOption "A" "0" 5 true; mkPollOption "B" "1" 0 false] 5 false.

Definition voted_state : State :=
  mkState {[ 1 := voted_poll ]} ∅
          {[ 1 := mkPending ["1"%string] [Callback 1] 1 0 (Some 7) ]}
          ∅ 0 1 ∅ (mkBinlog ∅ 1) [].


(** Stand-ins for the collaborators: the flag bits of the TL schema, the
    validity test of a poll id, and toy codecs (a poll is stored as its
    question; a binlog payload is the single option key of a vote on poll 1
    shown in message (10, 20)). *)
Definition example_extern : Extern :=
  {| CLOSED_MASK := 1;
     MIN_MASK := 1;
     TOTAL_VOTERS_MASK := 4;
     CHOSEN_MASK := 1;
     PollId_is_valid := fun poll_id => negb (poll_id =? 0);
     PollId_empty := 0;
     log_event_store := fun poll => question poll;
     log_event_parse := fun value => Some (mkPoll value [] 0 false);
     log_event_parse_answer := fun payload => Some (mkLogEvent 1 (10, 20) [payload]) |}.

(** The message database is used and the process is not closing. *)
Definition example_global : Global := mkGlobal true false.

(** A server poll with two answers, and an empty tally for it. *)
Definition example_server_poll : telegram_api_poll :=
  mkServerPoll 1 0 "Q" [mkPollAnswer "A" "0"; mkPollAnswer "B" "1"].

Definition example_results : telegram_api_pollResults := mkPollResults 0 [] 0.

(** The manager after it learnt poll 1 from the server, message (10, 20)
    was registered for it, the user voted for the first option with promise
    1, and the vote query (reference 77) was dispatched. *)
Definition example_poll : Poll :=
  mkPoll "Q" [mkPollOption "A" "0" 0 false; mkPollOption "B" "1" 0 false] 0 false.

Definition example_pending : PendingPollAnswer :=
  mkPending ["0"%string] [Callback 1] 1 1 (Some 77).

Definition example_calls : list (bool * Op) :=
  [(false, OpOnGetPoll 1 (Some example_server_poll) (Some example_results));
   (false, OpRegisterPoll 1 (10, 20));
   (false, OpSetPollAnswer 1 (10, 20) [0] (Callback 1));
   (false, OpQuerySend 1 (10, 20) ["0"%string] 1 true 77)].

Definition voting_state : State :=
  mkState {[ 1 := example_poll ]}
          {[ 1 := {[ (10, 20) ]} ]}
          {[ 1 := example_pending ]}
          {[ 1 ]} 0 1
          {[ "poll1"%string := "Q"%string ]}
          (mkBinlog {[ 1 := mkLogEvent 1 (10, 20) ["0"%string] ]} 2)
          [EvPmcSet "poll1" "Q";
           EvBinlogAdd 1 (mkLogEvent 1 (10, 20) ["0"%string]);
           EvUpdateMessageContent (10, 20);
           EvSendVote 1 1 (10, 20) ["0"%string];
           EvDispatchQuery 77 (10, 20) ["0"%string]].

(** The same registry with no vote under way. *)
Definition registered_state : State :=
  mkState {[ 1 := example_poll ]}
          {[ 1 := {[ (10, 20) ]} ]}
          ∅ {[ 1 ]} 0 0
          {[ "poll1"%string := "Q"%string ]}
          (mkBinlog ∅ 1)
          [EvPmcSet "poll1" "Q"].

(** A tally with two entries for the same option key. *)
Definition duplicate_results : telegram_api_pollResults :=
  mkPollResults 0 [mkVoters 0 "0" 5; mkVoters 0 "0" 6] 0.

(** The poll of the spec's scenario: a confirmed vote on the first option,
    and a minimal tally that raises its count. *)
Definition confirmed_poll : Poll :=
  mkPoll "Q" [mkPollOption "A" "0" 5 true; mkPollOption "B" "1" 0 false] 5 false.

Definition confirmed_state : State :=
  mkState {[ 1 := confirmed_poll ]}
          {[ 1 := {[ (10, 20) ]} ]}
          ∅ {[ 1 ]} 0 0 ∅ (mkBinlog ∅ 1) [].

Definition minimal_results : telegram_api_pollResults :=
  mkPollResults 1 [mkVoters 0 "0" 6] 0.

(** A binlog with one pending vote, as found at startup. *)
Definition startup_binlog : Binlog :=
  mkBinlog {[ 7 := mkLogEvent 1 (10, 20) ["0"%string] ]} 8.

Definition startup_events : list BinlogEvent :=
  [mkBinlogEvent 7 SetPollAnswer "0"].

(** The registry after the poll was closed locally, a server poll that
    carries the [CLOSED] flag, and a sequence of calls on the closed poll:
    a vote (rejected), a minimal tally, and the closed poll from the server. *)
Definition closed_state : State :=
  mkState {[ 1 := mkPoll "Q" [mkPollOption "A" "0" 0 false; mkPollOption "B" "1" 0 false]
                         0 true ]}
          {[ 1 := {[ (10, 20) ]} ]}
          ∅ {[ 1 ]} 0 0
          {[ "poll1"%string := "Q"%string ]}
          (mkBinlog ∅ 1)
          [EvPmcSet "poll1" "Q"; EvUpdateMessageContent (10, 20); EvPmcSet "poll1" "Q"].

Definition closed_server_poll : telegram_api_poll :=
  mkServerPoll 1 1 "Q" [mkPollAnswer "A" "0"; mkPollAnswer "B" "1"].

Definition closed_calls : list (bool * Op) :=
  [(false, OpSetPollAnswer 1 (10, 20) [0] (Callback 1));
   (false, OpOnGetPoll 1 None (Some minimal_results));
   (true, OpOnGetPoll 0 (Some closed_server_poll) (Some example_results))].

(** A poll without options (the toy codec of [example_extern] keeps the
    question only), and a manager that knows it under the server id 2. *)
Definition bare_poll : Poll := mkPoll "Q" [] 0 false.

Definition bare_state : State :=
  mkState {[ 2 := bare_poll ]} ∅ ∅ ∅ 0 0 ∅ (mkBinlog ∅ 1) [].

(** A server poll that renames the first option of poll 1 and closes it. *)
Definition renamed_server_poll : telegram_api_poll :=
  mkServerPoll 1 1 "Q2" [mkPollAnswer "A2" "0"; mkPollAnswer "B" "1"].

(** A local poll, a vote on it and a reconciliation, from the start. *)
Definition local_calls : list (bool * Op) :=
  [(false, OpCreatePoll "Q" ["A"%string; "B"%string]);
   (false, OpSetPollAnswer (-1) (10, 20) [0] (Callback 1));
   (false, OpOnGetPoll 1 (Some example_server_poll) (Some example_results));
   (false, OpClosePoll (-1));
   (false, OpClosePoll 1)].

(** Two records as they arrive: payloads 1 2 3 and 255. *)
Definition example_payloads : list (list Z) := [[1; 2; 3]; [255]].

Definition local_final : State :=
  match @run_calls example_extern true (initial_state ∅ (mkBinlog ∅ 1)) local_calls with
  | Done st => st
  | Crashed _ => initial_state ∅ (mkBinlog ∅ 1)
  end.

(** The manager of [registered_state] after the server renamed and closed
    poll 1. *)
Definition renamed_state : State :=
  match @on_get_poll example_extern example_global registered_state 1
          (Some renamed_server_poll) (Some example_results) with
  | Done (_, st) => st
  | Crashed _ => registered_state
  end.

(** [bare_state] after its poll was saved, and the manager that starts
    from the store left behind. *)
Definition saved_state : State :=
  mkState {[ 2 := bare_poll ]} ∅ ∅ ∅ 0 0 {[ "poll2"%string := "Q"%string ]} (mkBinlog ∅ 1)
          [EvPmcSet "poll2" "Q"].

Definition restarted_state : State :=
  initial_state {[ "poll2"%string := "Q"%string ]} (mkBinlog ∅ 1).

(** A flow that has received one record and the first four bytes of the
    next; a flow that has received a header and one of three payload bytes,
    before and after [loop] ran over it. *)
Definition partial_flow : TlsReaderByteFlow :=
  mkFlow ([23; 3; 3; 0; 2; 7; 8] ++ [23; 3; 3; 0]) [] 0 None.

Definition waiting_flow : TlsReaderByteFlow :=
  mkFlow [23; 3; 3; 0; 3; 9] [] 0 None.

Definition waiting_flow' : TlsReaderByteFlow :=
  mkFlow [23; 3; 3; 0; 3; 9] [] 8 None.



(** A server poll with id 5. *)
Definition other_server_poll : telegram_api_poll :=
  mkServerPoll 5 0 "Q5" [mkPollAnswer "A" "0"].
(** * Properties *)

Section Properties.
Context `{Extern}.

(** ** The view projector *)

Lemma get_poll_object_loop_diff chosen_options poll_options voter_count_diff :
  snd (get_poll_object_loop chosen_options poll_options voter_count_diff)
  = if existsb is_chosen poll_options then -1 else voter_count_diff.
Proof.
  revert voter_count_diff.
  induction poll_options as [|o rest IH]; intros d; simpl; [done|].
  specialize (IH (if is_chosen o then -1 else d)).
  destruct (get_poll_object_loop chosen_options rest _) as [objs d'] eqn:E.
  simpl in *. subst d'.
  destruct (is_chosen o); simpl; [|done].
  by destruct (existsb is_chosen rest).
Qed.

Lemma get_poll_object_loop_length chosen_options poll_options voter_count_diff :
  length (fst (get_poll_object_loop chosen_options poll_options voter_count_diff))
  = length poll_options.
Proof.
  revert voter_count_diff.
  induction poll_options as [|o rest IH]; intros d; simpl; [done|].
  specialize (IH (if is_chosen o then -1 else d)).
  destruct (get_poll_object_loop chosen_options rest _) as [objs d'] eqn:E.
  simpl in *. by rewrite IH.
Qed.

(** C7 (amended): for a poll with a pending answer, the rendered
    [total_voter_count] is the confirmed one, minus 1 when some confirmed
    option is chosen, plus 1 when the pending chosen-key list is non-empty
    (in 32-bit arithmetic). *)
Theorem get_poll_object_total_voter_count st poll_id poll pending_answer :
  get_poll st poll_id = Some poll ->
  pending_answers_ st !! poll_id = Some pending_answer ->
  exists object,
    get_poll_object st poll_id = Done object /\
    api_total_voter_count object
    = int32 (total_voter_count poll
             - (if existsb is_chosen (options poll) then 1 else 0)
             + (if bool_decide (options_ pending_answer = []) then 0 else 1)).
Proof.
  intros Hpoll Hpending. unfold get_poll_object. rewrite Hpoll, Hpending.
  pose proof (get_poll_object_loop_diff (options_ pending_answer) (options poll) 0) as Hd.
  destruct (get_poll_object_loop _ _ _) as [objs d]. simpl in Hd. subst d.
  eexists. split; [reflexivity|]. simpl. f_equal.
  destruct (existsb is_chosen (options poll)), (bool_decide (options_ pending_answer = []));
    simpl; lia.
Qed.


(** ** Validation of a vote submission *)

Lemma set_poll_answer_loop_invalid poll_options option_ids options option_id :
  Forall is_int32 option_ids ->
  Z.of_nat (length poll_options) < 2 ^ 63 ->
  option_id ∈ option_ids ->
  option_id < 0 \/ Z.of_nat (length poll_options) <= option_id ->
  set_poll_answer_loop poll_options option_ids options = None.
Proof.
  intros Hrange Hlen. revert options.
  induction option_ids as [|i rest IH]; intros opts Hin Hbad.
  - by apply elem_of_nil in Hin.
  - apply Forall_cons in Hrange as [Hi Hrest]. unfold is_int32 in Hi.
    simpl. unfold to_size_t.
    destruct (Z.leb_spec (Z.of_nat (length poll_options)) (i mod 2 ^ 64)) as [|Hlt]; [done|].
    assert (0 <= i) as Hpos.
    { destruct (Z.lt_ge_cases i 0) as [Hneg|]; [|done].
      exfalso.
      assert (i mod 2 ^ 64 = i + 2 ^ 64) as Hwrap
        by (symmetry; apply (Z.mod_unique_pos _ _ (-1)); lia).
      lia. }
    rewrite Z.mod_small in Hlt |- * by lia.
    destruct (poll_options !! Z.to_nat i) as [o|] eqn:Hlook; [|done].
    apply elem_of_cons in Hin as [->|Hin]; [lia|].
    by apply IH.
Qed.

(** C8: a submission that selects more than one option, targets a local
    poll, targets a closed poll, or carries an index outside the poll's
    option list resolves the caller's promise with an error and changes
    nothing else: the returned state is the old one with that single
    [set_error] call appended to the trace (so the registry, the pending
    answers, the binlog and the message index are the same, and no vote
    query is sent). *)
Theorem set_poll_answer_rejects G st poll_id full_message_id option_ids promise :
  Forall is_int32 option_ids ->
  (forall poll, get_poll st poll_id = Some poll ->
                Z.of_nat (length (options poll)) < 2 ^ 63) ->
  (1 < length option_ids)%nat \/
  is_local_poll_id poll_id = true \/
  (exists poll, get_poll st poll_id = Some poll /\
     (is_closed poll = true \/
      exists option_id, option_id ∈ option_ids /\
        (option_id < 0 \/ Z.of_nat (length (options poll)) <= option_id))) ->
  exists status,
    set_poll_answer G st poll_id full_message_id option_ids promise
    = Done (emit st [EvSetError promise status]) /\
    polls_ (emit st [EvSetError promise status]) = polls_ st /\
    pending_answers_ (emit st [EvSetError promise status]) = pending_answers_ st /\
    binlog (emit st [EvSetError promise status]) = binlog st /\
    poll_messages_ (emit st [EvSetError promise status]) = poll_messages_ st /\
    sqlite_pmc (emit st [EvSetError promise status]) = sqlite_pmc st /\
    current_generation_ (emit st [EvSetError promise status]) = current_generation_ st.
Proof.
  intros Hrange Hlen Hcase. unfold set_poll_answer.
  destruct (1 <? length option_ids)%nat eqn:Hmany; [by eexists|].
  destruct (is_local_poll_id poll_id) eqn:Hlocal; [by eexists|].
  destruct Hcase as [Hc|[Hc|(poll & Hpoll & Hc)]].
  - apply Nat.ltb_lt in Hc. congruence.
  - congruence.
  - rewrite Hpoll. destruct (is_closed poll) eqn:Hclosed; [by eexists|].
    destruct Hc as [Hc|(option_id & Hin & Hbad)]; [congruence|].
    rewrite (set_poll_answer_loop_invalid _ _ _ option_id); eauto.
    by eexists.
Qed.

(** ** The answer coordinator *)


Lemma issued_generations_app tr1 tr2 :
  issued_generations (tr1 ++ tr2) = issued_generations tr1 ++ issued_generations tr2.
Proof. apply omap_app. Qed.

Lemma issued_generations_set_value promises :
  issued_generations (EvSetValue <$> promises) = [].
Proof. by induction promises. Qed.

Lemma issued_generations_resolve result promises :
  issued_generations (resolve_promise result <$> promises) = [].
Proof. induction promises; [done|]. by destruct result. Qed.

Lemma issued_generations_notify (ids : list FullMessageId) :
  issued_generations (EvUpdateMessageContent <$> ids) = [].
Proof. by induction ids. Qed.

Lemma trace_notify_on_poll_update st poll_id :
  trace (notify_on_poll_update st poll_id)
  = trace st ++ (EvUpdateMessageContent <$> elements (default ∅ (poll_messages_ st !! poll_id))).
Proof.
  unfold notify_on_poll_update. destruct (poll_messages_ st !! poll_id); simpl; [done|].
  by rewrite elements_empty, app_nil_r.
Qed.

Lemma pending_answers_notify_on_poll_update st poll_id :
  pending_answers_ (notify_on_poll_update st poll_id) = pending_answers_ st.
Proof. unfold notify_on_poll_update. by destruct (poll_messages_ st !! poll_id). Qed.

(** C3: a completion for a poll without pending answer, or with a
    generation other than the pending answer's, leaves the manager exactly
    as it was: nothing is erased from the binlog, no promise is resolved,
    and the pending answer (if any) stays. *)
Theorem on_set_poll_answer_stale G st poll_id generation result :
  pending_answers_ st !! poll_id = None \/
  (exists pending_answer,
     pending_answers_ st !! poll_id = Some pending_answer /\
     promises_ pending_answer <> [] /\
     generation_ pending_answer <> generation) ->
  on_set_poll_answer G st poll_id generation result = Done st.
Proof.
  intros Hstale. unfold on_set_poll_answer.
  destruct (close_flag G && is_error result); [done|].
  destruct Hstale as [->|(pa & -> & Hwaiters & Hgen)]; [done|].
  rewrite bool_decide_eq_false_2 by done. simpl.
  destruct (Z.eqb_spec (generation_ pa) generation); [congruence|done].
Qed.

(** Every waiter gets the outcome of the query: success, or the query's
    error. *)
Lemma resolve_promise_outcome result (promises : list Promise) :
  resolve_promise result <$> promises
  = match result with
    | ROk => EvSetValue <$> promises
    | RError status => (fun waiter => EvSetError waiter status) <$> promises
    end.
Proof. by destruct result. Qed.

(** What a completion at the matching generation does. *)
Lemma on_set_poll_answer_current G st poll_id pending_answer result :
  pending_answers_ st !! poll_id = Some pending_answer ->
  promises_ pending_answer <> [] ->
  close_flag G && is_error result = false ->
  exists st',
    on_set_poll_answer G st poll_id (generation_ pending_answer) result = Done st' /\
    trace st' = trace st
                ++ (if logevent_id_ pending_answer =? 0 then []
                    else [EvBinlogErase (logevent_id_ pending_answer)])
                ++ (resolve_promise result <$> promises_ pending_answer) /\
    pending_answers_ st' = delete poll_id (pending_answers_ st).
Proof.
  intros Hpending Hwaiters Hopen. unfold on_set_poll_answer.
  rewrite Hopen, Hpending, bool_decide_eq_false_2 by done. simpl.
  rewrite Z.eqb_refl. simpl.
  eexists. split; [reflexivity|].
  destruct (logevent_id_ pending_answer =? 0); simpl; [done|].
  by rewrite <- app_assoc.
Qed.

(** C2 (amended): a submission whose keys equal those of a pending answer
    with waiters only appends its promise to the waiter list: the trace
    (hence the binlog traffic, the cancellations and the vote queries), the
    binlog and the generation counter are untouched.  The completion of the
    one query in flight then resolves all waiters, the new one included,
    with the query's outcome: [set_value] for each of them when it
    succeeded, [set_error] with the query's error for each of them when it
    failed.  The one exception is an error that arrives while the process
    is closing: that completion is dropped and no waiter is resolved. *)
Theorem do_set_poll_answer_coalesces G G' st poll_id full_message_id options logevent_id
    promise pending_answer result :
  pending_answers_ st !! poll_id = Some pending_answer ->
  promises_ pending_answer <> [] ->
  options_ pending_answer = options ->
  let joined :=
    mkPending (options_ pending_answer) (promises_ pending_answer ++ [promise])
              (generation_ pending_answer) (logevent_id_ pending_answer)
              (query_ref_ pending_answer) in
  let st' := set_pending_answers st (<[poll_id := joined]> (pending_answers_ st)) in
  do_set_poll_answer G st poll_id full_message_id options logevent_id promise = Done st' /\
  trace st' = trace st /\
  binlog st' = binlog st /\
  current_generation_ st' = current_generation_ st /\
  (close_flag G' && is_error result = true ->
   on_set_poll_answer G' st' poll_id (generation_ pending_answer) result = Done st') /\
  (close_flag G' && is_error result = false ->
   exists st'',
     on_set_poll_answer G' st' poll_id (generation_ pending_answer) result = Done st'' /\
     trace st'' = trace st
                  ++ (if logevent_id_ pending_answer =? 0 then []
                      else [EvBinlogErase (logevent_id_ pending_answer)])
                  ++ match result with
                     | ROk => EvSetValue <$> (promises_ pending_answer ++ [promise])
                     | RError status =>
                       (fun waiter => EvSetError waiter status)
                         <$> (promises_ pending_answer ++ [promise])
                     end /\
     pending_answers_ st'' !! poll_id = None).
Proof.
  intros Hpending Hwaiters Hsame joined st'.
  split; [|split; [done|split; [done|split; [done|split]]]].
  - unfold do_set_poll_answer. rewrite Hpending. simpl.
    rewrite bool_decide_eq_false_2, bool_decide_eq_true_2 by done. done.
  - intros Hclosing. unfold on_set_poll_answer. by rewrite Hclosing.
  - intros Hopen.
    destruct (on_set_poll_answer_current G' st' poll_id joined result) as (st'' & Hrun & Htr & Hpa).
    + subst st'. simpl. apply lookup_insert_eq.
    + subst joined. simpl. by destruct (promises_ pending_answer).
    + done.
    + exists st''. split; [done|]. split; [by rewrite Htr, resolve_promise_outcome|].
      rewrite Hpa. apply lookup_delete_eq.
Qed.


(** ** Replay of the binlog *)

Lemma sent_votes_app tr1 tr2 : sent_votes (tr1 ++ tr2) = sent_votes tr1 ++ sent_votes tr2.
Proof. apply omap_app. Qed.

Lemma binlog_calls_app tr1 tr2 : binlog_calls (tr1 ++ tr2) = binlog_calls tr1 ++ binlog_calls tr2.
Proof. apply List.filter_app. Qed.

Lemma sent_votes_notify (ids : list FullMessageId) :
  sent_votes (EvUpdateMessageContent <$> ids) = [].
Proof. by induction ids. Qed.

Lemma binlog_calls_notify (ids : list FullMessageId) :
  binlog_calls (EvUpdateMessageContent <$> ids) = [].
Proof. by induction ids. Qed.

(** A call of the coalescing core for a poll without pending answer, with
    the id of an existing binlog entry. *)
Lemma do_set_poll_answer_replayed G st poll_id full_message_id options logevent_id promise :
  pending_answers_ st !! poll_id = None ->
  logevent_id <> 0 ->
  exists st',
    do_set_poll_answer G st poll_id full_message_id options logevent_id promise = Done st' /\
    binlog st' = binlog st /\
    trace st' = trace st
      ++ (EvUpdateMessageContent <$> elements (default ∅ (poll_messages_ st !! poll_id)))
      ++ [EvSendVote poll_id (uint64 (current_generation_ st + 1)) full_message_id options] /\
    pending_answers_ st'
    = <[poll_id := mkPending options [promise] (uint64 (current_generation_ st + 1))
                     logevent_id None]> (pending_answers_ st).
Proof.
  intros Hnone Hid. unfold do_set_poll_answer. rewrite Hnone. simpl.
  destruct (Z.eqb_spec logevent_id 0) as [|_]; [done|]. simpl.
  eexists. split; [reflexivity|].
  cbn [trace emit pending_answers_ binlog].
  rewrite trace_notify_on_poll_update, pending_answers_notify_on_poll_update. simpl.
  split; [|split; [by rewrite <- app_assoc|done]].
  unfold notify_on_poll_update. simpl. by destruct (poll_messages_ st !! poll_id).
Qed.

(** C4 (amended): replaying, with the message database in use, binlog
    entries of the vote kind for polls that have no pending answer (one
    entry per poll, as at startup) passes each entry's id to the coalescing
    core, which keeps it as the pending answer's [logevent_id_]; the binlog
    is not touched at all (nothing is appended, rewritten or erased),
    exactly one vote query is sent per entry, and the only waiter of each
    pending answer is the empty promise. *)
Theorem on_binlog_events_replay G st events :
  use_message_db G = true ->
  Forall (fun event => type_ event = SetPollAnswer /\ id_ event <> 0 /\
                       is_Some (log_event_parse_answer (data_ event))) events ->
  NoDup (le_poll_id_ <$> replayed events) ->
  (forall log_event, log_event ∈ replayed events ->
                     pending_answers_ st !! le_poll_id_ log_event = None) ->
  exists st',
    on_binlog_events G st events = Done st' /\
    binlog st' = binlog st /\
    binlog_calls (trace st') = binlog_calls (trace st) /\
    sent_votes (trace st')
    = sent_votes (trace st)
      ++ ((fun log_event => (le_poll_id_ log_event, le_full_message_id_ log_event,
                             le_options_ log_event)) <$> replayed events) /\
    (forall event log_event,
       event ∈ events -> log_event_parse_answer (data_ event) = Some log_event ->
       exists pending_answer,
         pending_answers_ st' !! le_poll_id_ log_event = Some pending_answer /\
         logevent_id_ pending_answer = id_ event /\
         promises_ pending_answer = [Auto] /\
         options_ pending_answer = le_options_ log_event) /\
    (forall poll_id, poll_id ∉ (le_poll_id_ <$> replayed events) ->
                     pending_answers_ st' !! poll_id = pending_answers_ st !! poll_id).
Proof.
  intros Hdb Hevents. revert st.
  induction Hevents as [|event rest (Htype & Hid & [log_event Hparse]) Hrest IH];
    intros st Hnodup Hfresh.
  - exists st. simpl. rewrite app_nil_r. repeat split; try done.
    intros event log_event Hin. by apply elem_of_nil in Hin.
  - assert (replayed (event :: rest) = log_event :: replayed rest) as Hreplayed
      by (unfold replayed; simpl; by rewrite Hparse).
    rewrite Hreplayed in *. rewrite fmap_cons in Hnodup.
    apply NoDup_cons in Hnodup as [Hnotin Hnodup].
    destruct (do_set_poll_answer_replayed G st (le_poll_id_ log_event)
                (le_full_message_id_ log_event) (le_options_ log_event) (id_ event) Auto)
      as (st1 & Hrun1 & Hlog1 & Htrace1 & Hpending1);
      [apply Hfresh; by left|done|].
    destruct (IH st1 Hnodup) as (st' & Hrun & Hlog & Hcalls & Hsent & Hkept & Hothers).
    { intros le Hle. rewrite Hpending1. rewrite lookup_insert_ne.
      - apply Hfresh. by right.
      - intros Heq. apply Hnotin. rewrite Heq. by apply list_elem_of_fmap_2. }
    exists st'. simpl. rewrite Htype, Hdb, Hparse. simpl. rewrite Hrun1. simpl.
    split; [done|]. split; [congruence|]. split; [|split; [|split]].
    + rewrite Hcalls, Htrace1, !binlog_calls_app, binlog_calls_notify. simpl.
      by rewrite app_nil_r.
    + rewrite Hsent, Htrace1, !sent_votes_app, sent_votes_notify. simpl.
      by rewrite <- app_assoc.
    + intros event' le' Hin Hparse'. apply elem_of_cons in Hin as [->|Hin].
      * assert (le' = log_event) as -> by congruence.
        rewrite Hothers by done. rewrite Hpending1, lookup_insert_eq.
        eexists. split; [reflexivity|]. done.
      * by apply Hkept.
    + intros poll_id Hnot. apply not_elem_of_cons in Hnot as [Hne Hnot].
      rewrite Hothers by done. rewrite Hpending1. by rewrite lookup_insert_ne.
Qed.

(** ** Reconciliation with the server *)

Lemma on_get_poll_update_option_fst is_min poll_result o is_changed :
  fst (on_get_poll_update_option is_min poll_result o is_changed)
  = updated_option is_min poll_result o.
Proof.
  unfold on_get_poll_update_option, updated_option, chosen_flag.
  destruct o as [t d v ch]. simpl.
  case_bool_decide; simpl; [|done].
  destruct is_min; simpl.
  - destruct (Z.eqb_spec (voters_ poll_result) v); simpl; [by subst|done].
  - destruct (Bool.eqb _ ch) eqn:Hch; simpl.
    + apply Bool.eqb_prop in Hch. rewrite Hch.
      destruct (Z.eqb_spec (voters_ poll_result) v); simpl; [by subst|done].
    + destruct (Z.eqb_spec (voters_ poll_result) v); simpl; [by subst|done].
Qed.

(** The changed-flag is raised only when the option really changes. *)
Lemma on_get_poll_update_option_unchanged is_min poll_result o is_changed :
  updated_option is_min poll_result o = o ->
  on_get_poll_update_option is_min poll_result o is_changed = (o, is_changed).
Proof.
  unfold on_get_poll_update_option, updated_option, chosen_flag.
  destruct o as [t d v ch]. simpl.
  case_bool_decide; simpl; [|done].
  intros [= Hv Hch]. rewrite Hv.
  destruct is_min; simpl.
  - by rewrite Z.eqb_refl.
  - rewrite Hch, Bool.eqb_reflx. simpl. by rewrite Z.eqb_refl.
Qed.

Lemma on_get_poll_apply_result_options is_min poll_result poll_options is_changed :
  fst (on_get_poll_apply_result is_min poll_result poll_options is_changed)
  = updated_option is_min poll_result <$> poll_options.
Proof.
  revert is_changed. induction poll_options as [|o rest IH]; intros c; [done|].
  cbn [on_get_poll_apply_result fmap list_fmap].
  pose proof (on_get_poll_update_option_fst is_min poll_result o c) as Ho.
  destruct (on_get_poll_update_option is_min poll_result o c) as [o' c'].
  specialize (IH c').
  destruct (on_get_poll_apply_result is_min poll_result rest c') as [rest' c''].
  simpl in *. by subst.
Qed.

Lemma on_get_poll_apply_result_unchanged is_min poll_result poll_options is_changed :
  Forall (fun o => updated_option is_min poll_result o = o) poll_options ->
  on_get_poll_apply_result is_min poll_result poll_options is_changed
  = (poll_options, is_changed).
Proof.
  induction 1 as [|o rest Ho Hrest IH]; [done|].
  cbn [on_get_poll_apply_result].
  by rewrite on_get_poll_update_option_unchanged, IH.
Qed.

Lemma on_get_poll_apply_results_options is_min results poll_options is_changed :
  fst (on_get_poll_apply_results is_min results poll_options is_changed)
  = (fun o => fold_left (fun o r => updated_option is_min r o) results o) <$> poll_options.
Proof.
  revert poll_options is_changed.
  induction results as [|r rest IH]; intros opts c; simpl.
  - by rewrite list_fmap_id.
  - pose proof (on_get_poll_apply_result_options is_min r opts c) as Hstep.
    destruct (on_get_poll_apply_result is_min r opts c) as [opts' c']. simpl in Hstep.
    rewrite IH, Hstep, <- list_fmap_compose. done.
Qed.

Lemma on_get_poll_apply_results_unchanged is_min results poll_options is_changed :
  Forall (fun r => Forall (fun o => updated_option is_min r o = o) poll_options) results ->
  on_get_poll_apply_results is_min results poll_options is_changed
  = (poll_options, is_changed).
Proof.
  induction 1 as [|r rest Hr Hrest IH]; [done|].
  simpl. by rewrite on_get_poll_apply_result_unchanged.
Qed.

Lemma updated_option_data is_min r o : data (updated_option is_min r o) = data o.
Proof. unfold updated_option. by case_bool_decide. Qed.

Lemma updated_option_text is_min r o : text (updated_option is_min r o) = text o.
Proof. unfold updated_option. by case_bool_decide. Qed.

Lemma updated_options_data is_min results o :
  data (fold_left (fun o r => updated_option is_min r o) results o) = data o.
Proof.
  revert o. induction results as [|r rest IH]; intros o; simpl; [done|].
  by rewrite IH, updated_option_data.
Qed.

Lemma updated_options_text is_min results o :
  text (fold_left (fun o r => updated_option is_min r o) results o) = text o.
Proof.
  revert o. induction results as [|r rest IH]; intros o; simpl; [done|].
  by rewrite IH, updated_option_text.
Qed.

Lemma updated_options_min_is_chosen results o :
  is_chosen (fold_left (fun o r => updated_option true r o) results o) = is_chosen o.
Proof.
  revert o. induction results as [|r rest IH]; intros o; simpl; [done|].
  rewrite IH. unfold updated_option. by case_bool_decide.
Qed.

Lemma incoming_voters_cons r results key :
  incoming_voters (r :: results) key
  = if bool_decide (voters_option_ r = key)
    then Some (default (voters_ r) (incoming_voters results key))
    else incoming_voters results key.
Proof.
  unfold incoming_voters. rewrite filter_cons.
  case_bool_decide as Hkey.
  - rewrite decide_True by done. rewrite last_cons.
    by destruct (last (filter _ results)).
  - by rewrite decide_False by done.
Qed.

Lemma updated_options_voter_count is_min results o :
  voter_count (fold_left (fun o r => updated_option is_min r o) results o)
  = default (voter_count o) (incoming_voters results (data o)).
Proof.
  revert o. induction results as [|r rest IH]; intros o; simpl; [done|].
  rewrite IH, updated_option_data, incoming_voters_cons.
  unfold updated_option.
  case_bool_decide as Hkey.
  - rewrite bool_decide_eq_true_2 by done. simpl.
    by destruct (incoming_voters rest (data o)).
  - rewrite bool_decide_eq_false_2 by congruence. done.
Qed.

Lemma set_polls_id st : set_polls st (polls_ st) = st.
Proof. by destruct st. Qed.

Lemma save_poll_done G st poll poll_id :
  is_local_poll_id poll_id = false ->
  exists st',
    save_poll G st poll poll_id = Done st' /\
    polls_ st' = polls_ st /\
    pending_answers_ st' = pending_answers_ st /\
    current_generation_ st' = current_generation_ st /\
    binlog st' = binlog st /\
    issued_generations (trace st') = issued_generations (trace st).
Proof.
  intros Hlocal. unfold save_poll. rewrite Hlocal. simpl.
  destruct (use_message_db G); simpl; eexists; (split; [reflexivity|]); simpl;
    repeat split; try done.
  rewrite issued_generations_app. simpl. by rewrite app_nil_r.
Qed.

Lemma on_get_poll_merge_done G st poll_id poll poll_server results :
  is_local_poll_id poll_id = false ->
  exists st',
    on_get_poll_merge G st poll_id poll poll_server (Some results) = Done (poll_id, st') /\
    polls_ st' = <[poll_id := fst (merged poll poll_server results)]> (polls_ st) /\
    pending_answers_ st' = pending_answers_ st /\
    (snd (merged poll poll_server results) = false ->
     st' = set_polls st (<[poll_id := fst (merged poll poll_server results)]> (polls_ st))).
Proof.
  intros Hlocal. unfold on_get_poll_merge, merged.
  destruct (match poll_server with
            | Some server => on_get_poll_merge_poll poll server false
            | None => (poll, false)
            end) as [poll1 c1].
  destruct (on_get_poll_merge_results poll1 results c1) as [poll2 c2]. simpl.
  destruct c2.
  - match goal with |- context [save_poll G ?s poll2 poll_id] =>
      destruct (save_poll_done G s poll2 poll_id Hlocal) as (st' & -> & Hpolls & Hpend & _)
    end.
    exists st'. simpl. split; [done|]. split; [|split; [|done]].
    + rewrite Hpolls. unfold notify_on_poll_update. simpl.
      by destruct (poll_messages_ st !! poll_id).
    + rewrite Hpend. by rewrite pending_answers_notify_on_poll_update.
  - eexists. split; [reflexivity|]. done.
Qed.

Lemma get_poll_force_present G st poll_id poll :
  get_poll st poll_id = Some poll -> get_poll_force G st poll_id = Done (Some poll, st).
Proof. unfold get_poll_force, get_poll_editable, get_poll. by intros ->. Qed.

Lemma on_get_poll_id_valid poll_id poll_server :
  PollId_is_valid poll_id = true -> on_get_poll_id poll_id poll_server = poll_id.
Proof. unfold on_get_poll_id. intros ->. by destruct poll_server. Qed.

Lemma on_get_poll_present G st poll_id poll poll_server poll_results :
  get_poll st poll_id = Some poll ->
  PollId_is_valid poll_id = true ->
  is_local_poll_id poll_id = false ->
  match poll_server with Some server => poll_id_ server = poll_id | None => True end ->
  on_get_poll G st poll_id poll_server poll_results
  = on_get_poll_merge G st poll_id poll poll_server poll_results.
Proof.
  intros Hpoll Hvalid Hlocal Hsame. unfold on_get_poll.
  rewrite on_get_poll_id_valid, Hvalid, Hlocal by done. simpl.
  rewrite (get_poll_force_present _ _ _ _ Hpoll). simpl.
  destruct poll_server as [server|]; [|done].
  by rewrite Hsame, Z.eqb_refl.
Qed.

Lemma updated_options_min results o :
  fold_left (fun o r => updated_option true r o) results o
  = mkPollOption (text o) (data o)
                 (default (voter_count o) (incoming_voters results (data o)))
                 (is_chosen o).
Proof.
  rewrite <- (updated_options_text true results o), <- (updated_options_data true results o),
    <- (updated_options_voter_count true results o), <- (updated_options_min_is_chosen results o)
    at 1.
  by destruct (fold_left _ results o).
Qed.

Lemma on_get_poll_merge_results_minimal poll results is_changed :
  Z.land (results_flags_ results) MIN_MASK <> 0 ->
  options (fst (on_get_poll_merge_results poll results is_changed))
  = (fun o => mkPollOption (text o) (data o)
                (default (voter_count o) (incoming_voters (results_ results) (data o)))
                (is_chosen o)) <$> options poll.
Proof.
  intros Hmin. unfold on_get_poll_merge_results.
  destruct (Z.eqb_spec (Z.land (results_flags_ results) MIN_MASK) 0) as [|_]; [done|].
  simpl negb.
  destruct (if _ && _ then _ else _) as [total c2].
  pose proof (on_get_poll_apply_results_options true (results_ results) (options poll) c2)
    as Hloop.
  destruct (on_get_poll_apply_results true (results_ results) (options poll) c2)
    as [opts c3].
  simpl in *. rewrite Hloop. apply list_fmap_ext. intros i o _.
  apply updated_options_min.
Qed.

(** C9: when the results are flagged minimal, applying them leaves every
    option's [is_chosen] (and text and key) as it was and sets the
    [voter_count] of each option whose key occurs among the tally entries to
    the value of the (last) entry with that key; options whose key does not
    occur keep their count, and a tally entry whose key matches no option
    changes nothing.  This holds of the merge of the results into any poll
    (first conjunct) and so of [on_get_poll] on a poll of the registry,
    where the options "before" are those of the stored poll after the
    server's poll object, if one came along, has been merged. *)
Theorem on_get_poll_minimal_results G st poll_id poll poll_server results poll_result
    is_changed :
  get_poll st poll_id = Some poll ->
  PollId_is_valid poll_id = true ->
  is_local_poll_id poll_id = false ->
  match poll_server with Some server => poll_id_ server = poll_id | None => True end ->
  Z.land (results_flags_ results) MIN_MASK <> 0 ->
  let before :=
    match poll_server with
    | Some server => fst (on_get_poll_merge_poll poll server false)
    | None => poll
    end in
  (forall any_poll any_changed,
     options (fst (on_get_poll_merge_results any_poll results any_changed))
     = (fun o => mkPollOption (text o) (data o)
                   (default (voter_count o) (incoming_voters (results_ results) (data o)))
                   (is_chosen o)) <$> options any_poll) /\
  exists st' poll',
    on_get_poll G st poll_id poll_server (Some results) = Done (poll_id, st') /\
    get_poll st' poll_id = Some poll' /\
    options poll'
    = (fun o => mkPollOption (text o) (data o)
                  (default (voter_count o) (incoming_voters (results_ results) (data o)))
                  (is_chosen o)) <$> options before /\
    is_chosen <$> options poll' = is_chosen <$> options before /\
    (Forall (fun o => data o <> voters_option_ poll_result) (options before) ->
     on_get_poll_apply_result true poll_result (options before) is_changed
     = (options before, is_changed)).
Proof.
  intros Hpoll Hvalid Hlocal Hsame Hmin before.
  split; [intros; by apply on_get_poll_merge_results_minimal|].
  rewrite (on_get_poll_present _ _ _ _ _ _ Hpoll Hvalid Hlocal Hsame).
  destruct (on_get_poll_merge_done G st poll_id poll poll_server results Hlocal)
    as (st' & -> & Hpolls & _).
  assert (options (fst (merged poll poll_server results))
          = (fun o => mkPollOption (text o) (data o)
                  (default (voter_count o) (incoming_voters (results_ results) (data o)))
                  (is_chosen o)) <$> options before) as Hoptions.
  { unfold merged, before.
    destruct (match poll_server with
              | Some server => on_get_poll_merge_poll poll server false
              | None => (poll, false)
              end) as [poll1 c1] eqn:Hmerge.
    assert (match poll_server with
            | Some server => fst (on_get_poll_merge_poll poll server false)
            | None => poll
            end = poll1) as ->
      by (destruct poll_server; simpl in *; [by rewrite Hmerge|by inversion Hmerge]).
    by apply on_get_poll_merge_results_minimal. }
  exists st', (fst (merged poll poll_server results)).
  split; [done|]. split; [|split; [done|split]].
  - unfold get_poll. by rewrite Hpolls, lookup_insert_eq.
  - rewrite Hoptions, <- list_fmap_compose. done.
  - intros Hnone. apply on_get_poll_apply_result_unchanged.
    eapply Forall_impl; [exact Hnone|]. simpl. intros o Ho.
    unfold updated_option. by rewrite bool_decide_eq_false_2.
Qed.

(** *** Merging twice *)

Lemma on_get_poll_merge_answer_agrees o answer is_changed :
  text (fst (on_get_poll_merge_answer o answer is_changed)) = text_ answer /\
  data (fst (on_get_poll_merge_answer o answer is_changed)) = option_ answer.
Proof.
  unfold on_get_poll_merge_answer. destruct o as [t d v ch]. simpl.
  repeat (case_bool_decide; simpl); done.
Qed.

Lemma on_get_poll_merge_answer_unchanged o answer is_changed :
  text o = text_ answer -> data o = option_ answer ->
  on_get_poll_merge_answer o answer is_changed = (o, is_changed).
Proof.
  intros Ht Hd. unfold on_get_poll_merge_answer.
  rewrite (bool_decide_eq_true_2 _ Ht). simpl. by rewrite (bool_decide_eq_true_2 _ Hd).
Qed.

Lemma on_get_poll_merge_answers_agrees poll_options answers is_changed :
  length poll_options = length answers ->
  agrees (fst (on_get_poll_merge_answers poll_options answers is_changed)) answers.
Proof.
  revert answers is_changed.
  induction poll_options as [|o rest IH]; intros [|answer answers] c Hlen;
    simpl in Hlen; try discriminate; [constructor|].
  cbn [on_get_poll_merge_answers].
  pose proof (on_get_poll_merge_answer_agrees o answer c) as Ho.
  destruct (on_get_poll_merge_answer o answer c) as [o' c'].
  specialize (IH answers c' ltac:(congruence)).
  destruct (on_get_poll_merge_answers rest answers c') as [rest' c''].
  simpl in *. by constructor.
Qed.

Lemma on_get_poll_merge_answers_unchanged poll_options answers is_changed :
  agrees poll_options answers ->
  on_get_poll_merge_answers poll_options answers is_changed = (poll_options, is_changed).
Proof.
  induction 1 as [|o answer rest answers [Ht Hd] Hrest IH]; [done|].
  cbn [on_get_poll_merge_answers].
  by rewrite on_get_poll_merge_answer_unchanged, IH.
Qed.

Lemma get_poll_options_agrees answers : agrees (get_poll_options answers) answers.
Proof. induction answers; constructor; done. Qed.

Lemma agrees_length poll_options answers :
  agrees poll_options answers -> length poll_options = length answers.
Proof. apply Forall2_length. Qed.

Lemma agrees_updated is_min results poll_options answers :
  agrees poll_options answers ->
  agrees ((fun o => fold_left (fun o r => updated_option is_min r o) results o)
            <$> poll_options) answers.
Proof.
  induction 1 as [|o answer rest answers [Ht Hd] Hrest IH]; constructor; [|done].
  by rewrite updated_options_text, updated_options_data.
Qed.

(** What the merge of a server poll establishes. *)
Lemma on_get_poll_merge_poll_post poll server is_changed :
  let poll' := fst (on_get_poll_merge_poll poll server is_changed) in
  question poll' = question_ server /\
  agrees (options poll') (answers_ server) /\
  is_closed poll' = negb (Z.land (poll_flags_ server) CLOSED_MASK =? 0) /\
  total_voter_count poll' = total_voter_count poll.
Proof.
  unfold on_get_poll_merge_poll.
  destruct (if negb (bool_decide (question poll = question_ server)) then _ else _)
    as [q c1] eqn:Hq.
  destruct (if negb (length (options poll) =? length (answers_ server))%nat then _ else _)
    as [opts c2] eqn:Hopts.
  destruct (if negb (Bool.eqb _ (is_closed poll)) then _ else _) as [cl c3] eqn:Hcl.
  simpl. split; [|split; [|split; [|done]]].
  - case_bool_decide; simpl in Hq; congruence.
  - destruct (Nat.eqb_spec (length (options poll)) (length (answers_ server))) as [Hlen|_];
      simpl in Hopts.
    + pose proof (on_get_poll_merge_answers_agrees (options poll) (answers_ server) c1 Hlen).
      by rewrite Hopts in *.
    + inversion Hopts. apply get_poll_options_agrees.
  - destruct (Bool.eqb _ (is_closed poll)) eqn:Heq; simpl in Hcl.
    + apply Bool.eqb_prop in Heq. congruence.
    + congruence.
Qed.

(** ... and a poll that already has all of that is left alone. *)
Lemma on_get_poll_merge_poll_unchanged poll server is_changed :
  question poll = question_ server ->
  agrees (options poll) (answers_ server) ->
  is_closed poll = negb (Z.land (poll_flags_ server) CLOSED_MASK =? 0) ->
  on_get_poll_merge_poll poll server is_changed = (poll, is_changed).
Proof.
  intros Hq Hopts Hcl. unfold on_get_poll_merge_poll.
  rewrite (bool_decide_eq_true_2 _ Hq). simpl.
  rewrite (agrees_length _ _ Hopts), Nat.eqb_refl. simpl.
  rewrite on_get_poll_merge_answers_unchanged by done.
  rewrite <- Hcl, Bool.eqb_reflx. simpl. by destruct poll.
Qed.

Lemma updated_option_idempotent is_min r o :
  updated_option is_min r (updated_option is_min r o) = updated_option is_min r o.
Proof.
  unfold updated_option. destruct (bool_decide (data o = voters_option_ r)) eqn:Hkey; simpl.
  - apply bool_decide_eq_true_1 in Hkey. rewrite bool_decide_eq_true_2 by done.
    by destruct is_min.
  - by rewrite Hkey.
Qed.

Lemma updated_options_no_match is_min results o :
  Forall (fun r => voters_option_ r <> data o) results ->
  fold_left (fun o r => updated_option is_min r o) results o = o.
Proof.
  induction 1 as [|r rest Hr Hrest IH]; simpl; [done|].
  unfold updated_option at 2. rewrite bool_decide_eq_false_2 by congruence. done.
Qed.

(** With pairwise distinct keys among the tally entries, applying any of
    them again to the outcome of the whole loop changes nothing. *)
Lemma updated_options_fixed is_min results o r :
  NoDup (voters_option_ <$> results) ->
  r ∈ results ->
  updated_option is_min r (fold_left (fun o r => updated_option is_min r o) results o)
  = fold_left (fun o r => updated_option is_min r o) results o.
Proof.
  revert o. induction results as [|r' rest IH]; intros o Hnodup Hin.
  - by apply elem_of_nil in Hin.
  - rewrite fmap_cons in Hnodup. apply NoDup_cons in Hnodup as [Hfresh Hnodup].
    simpl. apply elem_of_cons in Hin as [->|Hin]; [|by apply IH].
    destruct (decide (data o = voters_option_ r')) as [Hkey|Hkey].
    + rewrite updated_options_no_match.
      * apply updated_option_idempotent.
      * rewrite updated_option_data, Hkey. apply Forall_forall. intros r'' Hr'' Heq.
        apply Hfresh. rewrite <- Heq. by apply list_elem_of_fmap_2.
    + unfold updated_option at 1.
      rewrite bool_decide_eq_false_2; [done|].
      by rewrite updated_options_data, updated_option_data.
Qed.

Lemma on_get_poll_merge_results_post poll results is_changed :
  let poll' := fst (on_get_poll_merge_results poll results is_changed) in
  let is_min := negb (Z.land (results_flags_ results) MIN_MASK =? 0) in
  question poll' = question poll /\
  is_closed poll' = is_closed poll /\
  options poll'
  = (fun o => fold_left (fun o r => updated_option is_min r o) (results_ results) o)
      <$> options poll /\
  (negb (Z.land (results_flags_ results) TOTAL_VOTERS_MASK =? 0) = true ->
   total_voter_count poll' = total_voters_ results).
Proof.
  unfold on_get_poll_merge_results.
  destruct (if _ && _ then _ else _) as [total c1] eqn:Htotal.
  match goal with |- context [on_get_poll_apply_results ?m ?rs ?os ?c] =>
    pose proof (on_get_poll_apply_results_options m rs os c) as Hloop;
    destruct (on_get_poll_apply_results m rs os c) as [opts c2]
  end.
  simpl in *. repeat split; try done.
  intros Hflag. rewrite Hflag in Htotal. simpl in Htotal.
  destruct (Z.eqb_spec (total_voters_ results) (total_voter_count poll));
    simpl in Htotal; congruence.
Qed.

Lemma on_get_poll_merge_results_unchanged poll results is_changed :
  let is_min := negb (Z.land (results_flags_ results) MIN_MASK =? 0) in
  (negb (Z.land (results_flags_ results) TOTAL_VOTERS_MASK =? 0) = true ->
   total_voter_count poll = total_voters_ results) ->
  Forall (fun r => Forall (fun o => updated_option is_min r o = o) (options poll))
         (results_ results) ->
  on_get_poll_merge_results poll results is_changed = (poll, is_changed).
Proof.
  intros is_min Htotal Hfixed. unfold on_get_poll_merge_results. fold is_min.
  destruct (negb (Z.land (results_flags_ results) TOTAL_VOTERS_MASK =? 0)); simpl.
  - rewrite <- Htotal, Z.eqb_refl by done. simpl.
    rewrite on_get_poll_apply_results_unchanged by done. by destruct poll.
  - rewrite on_get_poll_apply_results_unchanged by done. by destruct poll.
Qed.

(** The merge is idempotent when the tally entries have distinct keys. *)
Lemma merged_idempotent poll poll_server results :
  NoDup (voters_option_ <$> results_ results) ->
  merged (fst (merged poll poll_server results)) poll_server results
  = (fst (merged poll poll_server results), false).
Proof.
  intros Hnodup. unfold merged at 2 3.
  destruct (match poll_server with
            | Some server => on_get_poll_merge_poll poll server false
            | None => (poll, false)
            end) as [poll1 c1] eqn:Hmerge.
  pose proof (on_get_poll_merge_results_post poll1 results c1) as (Hq & Hcl & Hopts & Htot).
  set (poll2 := fst (on_get_poll_merge_results poll1 results c1)) in *.
  assert (on_get_poll_merge_results poll2 results false = (poll2, false)) as Hagain.
  { apply on_get_poll_merge_results_unchanged; [done|].
    apply Forall_forall. intros r Hr. rewrite Hopts. apply Forall_fmap, Forall_forall.
    intros o _. simpl. by apply updated_options_fixed. }
  unfold merged. destruct poll_server as [server|]; [|done].
  pose proof (on_get_poll_merge_poll_post poll server false) as (Hq1 & Hopts1 & Hcl1 & _).
  rewrite Hmerge in Hq1, Hopts1, Hcl1. simpl in Hq1, Hopts1, Hcl1.
  rewrite on_get_poll_merge_poll_unchanged; [done|congruence| |congruence].
  rewrite Hopts. by apply agrees_updated.
Qed.

Lemma get_poll_force_spec G st poll_id poll st' :
  get_poll_force G st poll_id = Done (poll, st') ->
  get_poll_editable st' poll_id = poll /\
  pending_answers_ st' = pending_answers_ st /\
  trace st' = trace st /\
  current_generation_ st' = current_generation_ st /\
  binlog st' = binlog st /\
  (forall other, is_Some (polls_ st !! other) -> polls_ st' !! other = polls_ st !! other) /\
  get_poll_force G st' poll_id = Done (poll, st').
Proof.
  unfold get_poll_force.
  destruct (get_poll_editable st poll_id) as [p|] eqn:Hmem.
  { intros [= <- <-]. by rewrite Hmem. }
  destruct (use_message_db G) eqn:Hdb; simpl.
  2: { intros [= <- <-]. by rewrite Hmem. }
  case_bool_decide as Hloaded.
  { intros [= <- <-]. rewrite Hmem, bool_decide_eq_true_2 by done. done. }
  unfold on_load_poll_from_database, have_poll, get_poll. simpl.
  unfold get_poll_editable in Hmem. rewrite Hmem. simpl.
  case_bool_decide as Hvalue; simpl.
  - intros [= <- <-]. unfold get_poll_editable. simpl. rewrite Hmem.
    rewrite bool_decide_eq_true_2 by set_solver. done.
  - destruct (log_event_parse _) as [result|]; simpl; [|done].
    intros [= <- <-]. unfold get_poll_editable. simpl.
    rewrite lookup_insert_eq. repeat split; try done.
    intros other [x Hx]. rewrite lookup_insert_ne; [done|]. congruence.
Qed.

Lemma on_get_poll_merge_again G st poll_id poll poll_server results :
  is_local_poll_id poll_id = false ->
  polls_ st !! poll_id = Some poll ->
  merged poll poll_server results = (poll, false) ->
  on_get_poll_merge G st poll_id poll poll_server (Some results) = Done (poll_id, st).
Proof.
  intros Hlocal Hpoll Hmerged.
  destruct (on_get_poll_merge_done G st poll_id poll poll_server results Hlocal)
    as (st' & -> & _ & _ & Hsame).
  rewrite Hmerged in Hsame. simpl in Hsame. rewrite Hsame by done.
  by rewrite insert_id, set_polls_id.
Qed.

Lemma on_get_poll_merge_twice G st poll_id poll poll_server poll_results ret st1 :
  is_local_poll_id poll_id = false ->
  (forall results, poll_results = Some results ->
                   NoDup (voters_option_ <$> results_ results)) ->
  on_get_poll_merge G st poll_id poll poll_server poll_results = Done (ret, st1) ->
  exists poll',
    polls_ st1 !! poll_id = Some poll' /\
    on_get_poll_merge G st1 poll_id poll' poll_server poll_results = Done (ret, st1).
Proof.
  intros Hlocal Hnodup Hfirst.
  destruct poll_results as [results|].
  2: { unfold on_get_poll_merge in Hfirst.
       by destruct (match poll_server with Some _ => _ | None => _ end). }
  destruct (on_get_poll_merge_done G st poll_id poll poll_server results Hlocal)
    as (st' & Hrun & Hpolls & _).
  rewrite Hrun in Hfirst. injection Hfirst as <- <-.
  exists (fst (merged poll poll_server results)).
  split; [by rewrite Hpolls, lookup_insert_eq|].
  apply on_get_poll_merge_again; [done|by rewrite Hpolls, lookup_insert_eq|].
  apply merged_idempotent. by apply Hnodup.
Qed.

(** C5 (amended): when the tally entries of the results carry pairwise
    distinct option keys, a second [on_get_poll] with the same arguments
    returns the same poll id and leaves the whole state as the first call
    left it: no field of the stored poll changes, nothing is added to the
    trace (no notification, no write to the key-value store), and the
    store itself is the same. *)
Theorem on_get_poll_twice G st poll_id poll_server poll_results ret st1 :
  (forall results, poll_results = Some results ->
                   NoDup (voters_option_ <$> results_ results)) ->
  on_get_poll G st poll_id poll_server poll_results = Done (ret, st1) ->
  on_get_poll G st1 poll_id poll_server poll_results = Done (ret, st1).
Proof.
  intros Hnodup. unfold on_get_poll.
  set (pid := on_get_poll_id poll_id poll_server).
  destruct (negb (PollId_is_valid pid) || is_local_poll_id pid) eqn:Hbad.
  { by intros [= <- <-]. }
  apply orb_false_elim in Hbad as [_ Hlocal].
  destruct (match poll_server with
            | Some server => negb (poll_id_ server =? pid)
            | None => false
            end) eqn:Hmismatch.
  { by intros [= <- <-]. }
  destruct (get_poll_force G st pid) as [[poll stA]|] eqn:Hforce; simpl; [|done].
  apply get_poll_force_spec in Hforce as (Hmem & _ & _ & _ & _ & _ & Hforce').
  destruct poll as [poll|].
  - intros Hfirst.
    destruct (on_get_poll_merge_twice _ _ _ _ _ _ _ _ Hlocal Hnodup Hfirst)
      as (poll' & Hpoll' & Hsecond).
    by rewrite (get_poll_force_present G st1 pid poll' Hpoll').
  - destruct poll_server as [server|].
    + unfold get_poll_editable in Hmem. rewrite Hmem.
      rewrite bool_decide_eq_true_2 by done. simpl. intros Hfirst.
      destruct (on_get_poll_merge_twice _ _ _ _ _ _ _ _ Hlocal Hnodup Hfirst)
        as (poll' & Hpoll' & Hsecond).
      by rewrite (get_poll_force_present G st1 pid poll' Hpoll').
    + intros [= <- <-]. by rewrite Hforce'.
Qed.

(** ** Invariants of the state machine *)

Lemma State_ext st1 st2 :
  polls_ st1 = polls_ st2 ->
  poll_messages_ st1 = poll_messages_ st2 ->
  pending_answers_ st1 = pending_answers_ st2 ->
  loaded_from_database_polls_ st1 = loaded_from_database_polls_ st2 ->
  current_local_poll_id_ st1 = current_local_poll_id_ st2 ->
  current_generation_ st1 = current_generation_ st2 ->
  sqlite_pmc st1 = sqlite_pmc st2 ->
  binlog st1 = binlog st2 ->
  trace st1 = trace st2 ->
  st1 = st2.
Proof. destruct st1, st2. simpl. by intros -> -> -> -> -> -> -> -> ->. Qed.

Lemma notify_on_poll_update_frame st poll_id :
  polls_ (notify_on_poll_update st poll_id) = polls_ st /\
  poll_messages_ (notify_on_poll_update st poll_id) = poll_messages_ st /\
  loaded_from_database_polls_ (notify_on_poll_update st poll_id)
  = loaded_from_database_polls_ st /\
  current_local_poll_id_ (notify_on_poll_update st poll_id) = current_local_poll_id_ st /\
  current_generation_ (notify_on_poll_update st poll_id) = current_generation_ st /\
  sqlite_pmc (notify_on_poll_update st poll_id) = sqlite_pmc st /\
  binlog (notify_on_poll_update st poll_id) = binlog st.
Proof. unfold notify_on_poll_update. by destruct (poll_messages_ st !! poll_id). Qed.

(** Compare two states field by field, looking through notifications. *)
Ltac state_eq :=
  apply State_ext;
  cbn [polls_ poll_messages_ pending_answers_ loaded_from_database_polls_
       current_local_poll_id_ current_generation_ sqlite_pmc binlog trace emit];
  rewrite ?trace_notify_on_poll_update, ?pending_answers_notify_on_poll_update,
    ?(proj1 (notify_on_poll_update_frame _ _)),
    ?(proj1 (proj2 (notify_on_poll_update_frame _ _))),
    ?(proj1 (proj2 (proj2 (notify_on_poll_update_frame _ _)))),
    ?(proj1 (proj2 (proj2 (proj2 (notify_on_poll_update_frame _ _))))),
    ?(proj1 (proj2 (proj2 (proj2 (proj2 (notify_on_poll_update_frame _ _)))))),
    ?(proj1 (proj2 (proj2 (proj2 (proj2 (proj2 (notify_on_poll_update_frame _ _))))))),
    ?(proj2 (proj2 (proj2 (proj2 (proj2 (proj2 (notify_on_poll_update_frame _ _)))))));
  simpl; rewrite <- ?app_assoc; try done.

(** Everything [do_set_poll_answer] can do when it returns: either it
    coalesces, or it installs a new pending answer with a new generation and
    sends one vote query. *)
Lemma do_set_poll_answer_spec G st poll_id full_message_id options logevent_id promise st' :
  do_set_poll_answer G st poll_id full_message_id options logevent_id promise = Done st' ->
  let pending_answer := default PendingPollAnswer_new (pending_answers_ st !! poll_id) in
  let generation := uint64 (current_generation_ st + 1) in
  (promises_ pending_answer <> [] /\
   st' = set_pending_answers st
           (<[poll_id := mkPending (options_ pending_answer)
                           (promises_ pending_answer ++ [promise])
                           (generation_ pending_answer) (logevent_id_ pending_answer)
                           (query_ref_ pending_answer)]> (pending_answers_ st))) \/
  (exists logevent_id' log' evs query_ref,
     st' = mkState (polls_ st) (poll_messages_ st)
             (<[poll_id := mkPending options [promise] generation logevent_id' query_ref]>
                (pending_answers_ st))
             (loaded_from_database_polls_ st) (current_local_poll_id_ st) generation
             (sqlite_pmc st) log'
             (trace st ++ evs ++ [EvSendVote poll_id generation full_message_id options]) /\
     issued_generations evs = [] /\
     next_id (binlog st) <= next_id log' /\
     (use_message_db G = true -> 0 < next_id (binlog st) -> logevent_id' <> 0)).
Proof.
  intros Hrun pa generation. unfold do_set_poll_answer in Hrun. fold pa in Hrun.
  set (notes := EvUpdateMessageContent
                  <$> elements (default ∅ (poll_messages_ st !! poll_id))).
  set (logevent := mkLogEvent poll_id full_message_id options) in *.
  assert (issued_generations notes = []) as Hnotes by apply issued_generations_notify.
  assert (issued_generations ([EvCancelQuery (query_ref_ pa)]
            ++ (EvSetValue <$> promises_ pa) ++ notes) = []) as Hsuper
    by (by rewrite !issued_generations_app, issued_generations_set_value, Hnotes).
  destruct (bool_decide (promises_ pa = [])) eqn:Hempty; simpl in Hrun.
  - (* no waiters: a fresh entry *)
    apply bool_decide_eq_true_1 in Hempty. right.
    destruct ((logevent_id_ pa =? 0) || (logevent_id =? 0)); simpl in Hrun; [|done].
    destruct (Z.eqb_spec logevent_id 0) as [Hzero|Hid]; simpl in Hrun;
      [destruct (use_message_db G) eqn:Hdb; simpl in Hrun;
       [destruct (generation_ pa =? 0); simpl in Hrun;
        [destruct (logevent_id_ pa =? 0); simpl in Hrun; [|done]
        |destruct (Z.eqb_spec (logevent_id_ pa) 0) as [|Hlog]; simpl in Hrun; [done|]]|]|];
      injection Hrun as <-; rewrite Hempty.
    + exists (next_id (binlog st)), (snd (binlog_add (binlog st) logevent)),
        ([EvBinlogAdd (next_id (binlog st)) logevent] ++ notes), (query_ref_ pa).
      split; [state_eq|]. simpl. split; [done|]. split; lia.
    + exists (logevent_id_ pa), (binlog_rewrite (binlog st) (logevent_id_ pa) logevent),
        ([EvBinlogRewrite (logevent_id_ pa) logevent] ++ notes), (query_ref_ pa).
      split; [state_eq|]. simpl. split; [done|]. split; [lia|done].
    + exists logevent_id, (binlog st), notes, (query_ref_ pa).
      split; [state_eq|]. split; [done|]. split; [lia|done].
    + exists logevent_id, (binlog st), notes, (query_ref_ pa).
      split; [state_eq|]. split; [done|]. split; [lia|done].
  - apply bool_decide_eq_false_1 in Hempty.
    case_bool_decide as Hsame; simpl in Hrun.
    { left. by injection Hrun as <-. }
    right.
    destruct ((logevent_id_ pa =? 0) || (logevent_id =? 0)); simpl in Hrun; [|done].
    destruct (bool_decide (query_ref_ pa = None)) eqn:Hquery.
    { destruct ((logevent_id =? 0) && use_message_db G); simpl in Hrun; [|done].
      destruct (generation_ pa =? 0); simpl in Hrun.
      - by destruct (logevent_id_ pa =? 0).
      - by destruct (logevent_id_ pa =? 0). }
    destruct (Z.eqb_spec logevent_id 0) as [Hzero|Hid]; simpl in Hrun;
      [destruct (use_message_db G) eqn:Hdb; simpl in Hrun;
       [destruct (generation_ pa =? 0); simpl in Hrun;
        [destruct (logevent_id_ pa =? 0); simpl in Hrun; [|done]
        |destruct (Z.eqb_spec (logevent_id_ pa) 0) as [|Hlog]; simpl in Hrun; [done|]]|]|];
      injection Hrun as <-.
    + exists (next_id (binlog st)), (snd (binlog_add (binlog st) logevent)),
        ([EvBinlogAdd (next_id (binlog st)) logevent]
         ++ [EvCancelQuery (query_ref_ pa)] ++ (EvSetValue <$> promises_ pa) ++ notes), None.
      split; [state_eq|]. split; [done|]. simpl. split; lia.
    + exists (logevent_id_ pa), (binlog_rewrite (binlog st) (logevent_id_ pa) logevent),
        ([EvBinlogRewrite (logevent_id_ pa) logevent]
         ++ [EvCancelQuery (query_ref_ pa)] ++ (EvSetValue <$> promises_ pa) ++ notes), None.
      split; [state_eq|]. split; [done|]. simpl. split; [lia|done].
    + exists logevent_id, (binlog st),
        ([EvCancelQuery (query_ref_ pa)] ++ (EvSetValue <$> promises_ pa) ++ notes), None.
      split; [state_eq|]. split; [done|]. split; [lia|done].
    + exists logevent_id, (binlog st),
        ([EvCancelQuery (query_ref_ pa)] ++ (EvSetValue <$> promises_ pa) ++ notes), None.
      split; [state_eq|]. split; [done|]. split; [lia|done].
Qed.

Lemma quiet_refl st : quiet st st.
Proof. by repeat split. Qed.

Lemma quiet_trans st1 st2 st3 : quiet st1 st2 -> quiet st2 st3 -> quiet st1 st3.
Proof. unfold quiet. intros (-> & -> & -> & ->) (-> & -> & -> & ->). done. Qed.

Lemma quiet_invariant use_db st st' :
  quiet st st' -> invariant use_db st -> invariant use_db st' /\ sends st <= sends st'.
Proof.
  intros (Hpa & Hcur & Hnext & Hiss) (Hw & Htie & Hpos & Hwf).
  unfold invariant, waiters_nonempty, sends, wf in *.
  rewrite Hpa, Hcur, Hnext, Hiss. split; [|lia]. done.
Qed.

Lemma quiet_notify st poll_id : quiet st (notify_on_poll_update st poll_id).
Proof.
  unfold quiet. rewrite pending_answers_notify_on_poll_update, trace_notify_on_poll_update.
  rewrite issued_generations_app, issued_generations_notify, app_nil_r.
  pose proof (notify_on_poll_update_frame st poll_id) as (_ & _ & _ & _ & -> & _ & ->).
  done.
Qed.

Lemma quiet_save_poll G st poll poll_id st' :
  save_poll G st poll poll_id = Done st' -> quiet st st'.
Proof.
  unfold save_poll. destruct (negb (is_local_poll_id poll_id)); simpl; [|done].
  destruct (negb (use_message_db G)); intros [= <-]; [apply quiet_refl|].
  unfold quiet. simpl. by rewrite issued_generations_app, app_nil_r.
Qed.

Lemma quiet_create_poll st question option_texts poll_id st' :
  create_poll st question option_texts = Done (poll_id, st') -> quiet st st'.
Proof.
  unfold create_poll. simpl.
  destruct (is_local_poll_id _); simpl; [|done].
  case_bool_decide; simpl; [|done]. by intros [= <- <-].
Qed.

Lemma quiet_register_poll st poll_id full_message_id st' :
  register_poll st poll_id full_message_id = Done st' -> quiet st st'.
Proof. unfold register_poll. destruct (have_poll st poll_id); simpl; [|done]. by intros [= <-]. Qed.

Lemma quiet_unregister_poll st poll_id full_message_id st' :
  unregister_poll st poll_id full_message_id = Done st' -> quiet st st'.
Proof.
  unfold unregister_poll. destruct (have_poll st poll_id); simpl; [|done]. by intros [= <-].
Qed.

Lemma quiet_get_poll_force G st poll_id poll st' :
  get_poll_force G st poll_id = Done (poll, st') -> quiet st st'.
Proof.
  intros Hforce. apply get_poll_force_spec in Hforce as (_ & Hpa & Htr & Hcur & Hlog & _).
  unfold quiet. by rewrite Hpa, Htr, Hcur, Hlog.
Qed.

Lemma quiet_close_poll G st poll_id st' :
  close_poll G st poll_id = Done st' -> quiet st st'.
Proof.
  unfold close_poll. destruct (get_poll_editable st poll_id) as [poll|]; [|done].
  destruct (is_closed poll); [intros [= <-]; apply quiet_refl|].
  set (st1 := set_polls st _).
  assert (quiet st (notify_on_poll_update st1 poll_id)) as Hq
    by (eapply quiet_trans; [|apply quiet_notify]; by repeat split).
  destruct (negb (is_local_poll_id poll_id)).
  - intros Hsave. eapply quiet_trans; [exact Hq|]. by eapply quiet_save_poll.
  - by intros [= <-].
Qed.

Lemma quiet_on_get_poll_merge G st poll_id poll poll_server poll_results ret st' :
  on_get_poll_merge G st poll_id poll poll_server poll_results = Done (ret, st') ->
  quiet st st'.
Proof.
  unfold on_get_poll_merge.
  destruct (match poll_server with Some _ => _ | None => _ end) as [poll1 c1].
  destruct poll_results as [results|]; [|done].
  destruct (on_get_poll_merge_results poll1 results c1) as [poll2 c2].
  set (st1 := set_polls st _).
  destruct c2.
  - destruct (save_poll G (notify_on_poll_update st1 poll_id) poll2 poll_id) as [st2|] eqn:Hsave;
      simpl; [|done].
    intros [= <- <-]. apply quiet_save_poll in Hsave.
    eapply quiet_trans; [|exact Hsave].
    eapply quiet_trans; [|apply quiet_notify]. by repeat split.
  - intros [= <- <-]. by repeat split.
Qed.

Lemma quiet_on_get_poll G st poll_id poll_server poll_results ret st' :
  on_get_poll G st poll_id poll_server poll_results = Done (ret, st') -> quiet st st'.
Proof.
  unfold on_get_poll. set (pid := on_get_poll_id poll_id poll_server).
  destruct (negb (PollId_is_valid pid) || is_local_poll_id pid);
    [intros [= <- <-]; apply quiet_refl|].
  destruct (match poll_server with Some _ => _ | None => _ end);
    [intros [= <- <-]; apply quiet_refl|].
  destruct (get_poll_force G st pid) as [[poll stA]|] eqn:Hforce; simpl; [|done].
  apply quiet_get_poll_force in Hforce.
  destruct poll as [poll|].
  - intros Hmerge. eapply quiet_trans; [exact Hforce|]. by eapply quiet_on_get_poll_merge.
  - destruct poll_server as [server|]; [|by intros [= <- <-]].
    case_bool_decide; simpl; [|done].
    intros Hmerge. eapply quiet_trans; [exact Hforce|].
    apply quiet_on_get_poll_merge in Hmerge.
    eapply quiet_trans; [|exact Hmerge]. by repeat split.
Qed.

Lemma sends_nonneg st : 0 <= sends st.
Proof. unfold sends. lia. Qed.

Lemma uint64_small z : 0 <= z < 2 ^ 64 -> uint64 z = z.
Proof. apply Z.mod_small. Qed.

Lemma uint64_succ_uint64 z : uint64 (uint64 z + 1) = uint64 (z + 1).
Proof. unfold uint64. by rewrite Z.add_mod_idemp_l. Qed.

Lemma pending_wf_mono use_db g g' pending_answer :
  g <= g' -> pending_wf use_db g pending_answer -> pending_wf use_db g' pending_answer.
Proof. unfold pending_wf. intros ? (? & ? & ?). repeat split; try done; lia. Qed.

Lemma invariant_do_set_poll_answer G st poll_id full_message_id options logevent_id
    promise st' :
  invariant (use_message_db G) st ->
  do_set_poll_answer G st poll_id full_message_id options logevent_id promise = Done st' ->
  invariant (use_message_db G) st' /\ sends st <= sends st'.
Proof.
  intros (Hw & Htie & Hpos & Hwf) Hrun.
  apply do_set_poll_answer_spec in Hrun as [[Hwaiters ->]|Hnew].
  - (* coalescing *)
    destruct (pending_answers_ st !! poll_id) as [pa|] eqn:Hpa; simpl in *; [|done].
    split; [|done]. split; [|split; [done|split; [done|]]].
    + intros pid pa'. simpl. destruct (decide (poll_id = pid)) as [<-|Hne].
      * rewrite lookup_insert_eq. intros [= <-]. simpl. by destruct (promises_ pa).
      * rewrite lookup_insert_ne by done. apply Hw.
    + intros Hsends. destruct (Hwf Hsends) as (Hcur & _ & Hpending & Hissued).
      split; [done|]. split; [done|]. split; [|done].
      intros pid pa'. simpl. destruct (decide (poll_id = pid)) as [<-|Hne].
      * rewrite lookup_insert_eq. intros [= <-].
        destruct (Hpending _ _ Hpa) as (_ & Hgen & Hlog).
        split; [by destruct (promises_ pa)|]. by split.
      * rewrite lookup_insert_ne by done. apply Hpending.
  - destruct Hnew as (logevent_id' & log' & evs & query_ref & -> & Hevs & Hnext & Hlog).
    assert (sends (mkState (polls_ st) (poll_messages_ st)
              (<[poll_id := mkPending options [promise]
                              (uint64 (current_generation_ st + 1)) logevent_id' query_ref]>
                 (pending_answers_ st))
              (loaded_from_database_polls_ st) (current_local_poll_id_ st)
              (uint64 (current_generation_ st + 1)) (sqlite_pmc st) log'
              (trace st ++ evs
               ++ [EvSendVote poll_id (uint64 (current_generation_ st + 1))
                              full_message_id options]))
            = sends st + 1) as Hsends'.
    { unfold sends. simpl. rewrite !issued_generations_app, Hevs. simpl.
      rewrite length_app. simpl. lia. }
    split; [|lia].
    split; [|split; [|split; [simpl; lia|]]].
    + intros pid pa'. simpl. destruct (decide (poll_id = pid)) as [<-|Hne].
      * rewrite lookup_insert_eq. by intros [= <-].
      * rewrite lookup_insert_ne by done. apply Hw.
    + rewrite Hsends'. simpl. rewrite Htie. apply uint64_succ_uint64.
    + rewrite Hsends'. intros Hsends. pose proof (sends_nonneg st) as Hnn.
      destruct Hwf as (Hcur & _ & Hpending & Hissued); [lia|].
      rewrite uint64_small in Htie by lia.
      assert (uint64 (current_generation_ st + 1) = current_generation_ st + 1) as Hgen
        by (apply uint64_small; lia).
      unfold wf. simpl. rewrite Hgen.
      split; [lia|]. split; [lia|]. split.
      * intros pid pa'. destruct (decide (poll_id = pid)) as [<-|Hne].
        -- rewrite lookup_insert_eq. intros [= <-]. split; [done|]. simpl.
           split; [lia|]. intros Hdb. by apply Hlog.
        -- rewrite lookup_insert_ne by done. intros Hpa.
           eapply pending_wf_mono; [|by eapply Hpending]. lia.
      * rewrite !issued_generations_app, Hevs. simpl.
        apply Forall_app. split.
        -- eapply Forall_impl; [exact Hissued|]. simpl. intros. lia.
        -- repeat constructor; lia.
Qed.

Lemma invariant_on_set_poll_answer G st poll_id generation result st' :
  invariant (use_message_db G) st ->
  on_set_poll_answer G st poll_id generation result = Done st' ->
  invariant (use_message_db G) st' /\ sends st <= sends st'.
Proof.
  intros Hinv. unfold on_set_poll_answer.
  destruct (close_flag G && is_error result);
    [intros [= <-]; split; [done|lia]|].
  destruct (pending_answers_ st !! poll_id) as [pa|] eqn:Hpa;
    [|intros [= <-]; split; [done|lia]].
  destruct (negb (bool_decide (promises_ pa = []))); simpl; [|done].
  destruct (negb (generation_ pa =? generation));
    [intros [= <-]; split; [done|lia]|].
  intros [= <-].
  destruct Hinv as (Hw & Htie & Hpos & Hwf).
  match goal with |- invariant _ ?s /\ _ =>
    assert (pending_answers_ s = delete poll_id (pending_answers_ st)
            /\ current_generation_ s = current_generation_ st
            /\ next_id (binlog s) = next_id (binlog st)
            /\ issued_generations (trace s) = issued_generations (trace st))
      as (Hpa' & Hcur' & Hnext' & Hiss')
  end.
  { destruct (negb (logevent_id_ pa =? 0)); simpl;
      rewrite ?issued_generations_app, ?issued_generations_resolve; simpl;
      by rewrite ?app_nil_r. }
  unfold invariant, waiters_nonempty, sends, wf.
  rewrite Hpa', Hcur', Hnext', Hiss'.
  split; [|lia]. split; [|split; [done|split; [done|]]].
  - intros pid pa' Hlook. apply lookup_delete_Some in Hlook as [_ Hlook]. by eapply Hw.
  - intros Hsends. destruct (Hwf Hsends) as (? & ? & Hpending & ?).
    split; [done|]. split; [done|]. split; [|done].
    intros pid pa' Hlook. apply lookup_delete_Some in Hlook as [_ Hlook].
    by eapply Hpending.
Qed.

Lemma invariant_SetPollAnswerQuery_send use_db st poll_id full_message_id options generation
    input_peer query :
  invariant use_db st ->
  invariant use_db (SetPollAnswerQuery_send st poll_id full_message_id options generation
                                            input_peer query)
  /\ sends st <= sends (SetPollAnswerQuery_send st poll_id full_message_id options generation
                                                input_peer query).
Proof.
  intros Hinv. unfold SetPollAnswerQuery_send.
  destruct input_peer; simpl.
  2: { apply quiet_invariant; [|done]. unfold quiet. simpl.
       by rewrite issued_generations_app, app_nil_r. }
  destruct (pending_answers_ st !! poll_id) as [pa|] eqn:Hpa.
  2: { apply quiet_invariant; [|done]. unfold quiet. simpl.
       by rewrite issued_generations_app, app_nil_r. }
  destruct Hinv as (Hw & Htie & Hpos & Hwf).
  unfold invariant, waiters_nonempty, sends, wf. simpl.
  rewrite issued_generations_app, app_nil_r.
  split; [|lia]. split; [|split; [done|split; [done|]]].
  - intros pid pa'. destruct (decide (poll_id = pid)) as [<-|Hne].
    + rewrite lookup_insert_eq. intros [= <-]. simpl. by eapply Hw.
    + rewrite lookup_insert_ne by done. apply Hw.
  - intros Hsends. destruct (Hwf Hsends) as (? & ? & Hpending & ?).
    split; [done|]. split; [done|]. split; [|done].
    intros pid pa'. destruct (decide (poll_id = pid)) as [<-|Hne].
    + rewrite lookup_insert_eq. intros [= <-]. exact (Hpending _ _ Hpa).
    + rewrite lookup_insert_ne by done. apply Hpending.
Qed.

Lemma quiet_emit_set_error st promise status :
  quiet st (emit st [EvSetError promise status]).
Proof. unfold quiet. simpl. by rewrite issued_generations_app, app_nil_r. Qed.

Lemma invariant_set_poll_answer G st poll_id full_message_id option_ids promise st' :
  invariant (use_message_db G) st ->
  set_poll_answer G st poll_id full_message_id option_ids promise = Done st' ->
  invariant (use_message_db G) st' /\ sends st <= sends st'.
Proof.
  intros Hinv. unfold set_poll_answer.
  destruct (1 <? length option_ids)%nat;
    [intros [= <-]; by apply quiet_invariant; [apply quiet_emit_set_error|]|].
  destruct (is_local_poll_id poll_id);
    [intros [= <-]; by apply quiet_invariant; [apply quiet_emit_set_error|]|].
  destruct (get_poll st poll_id) as [poll|]; [|done].
  destruct (is_closed poll);
    [intros [= <-]; by apply quiet_invariant; [apply quiet_emit_set_error|]|].
  destruct (set_poll_answer_loop (options poll) option_ids []) as [options|];
    [|intros [= <-]; by apply quiet_invariant; [apply quiet_emit_set_error|]].
  by apply invariant_do_set_poll_answer.
Qed.

Lemma invariant_on_binlog_events G st events st' :
  invariant (use_message_db G) st ->
  on_binlog_events G st events = Done st' ->
  invariant (use_message_db G) st' /\ sends st <= sends st'.
Proof.
  revert st. induction events as [|event rest IH]; intros st Hinv; simpl.
  { intros [= <-]. split; [done|lia]. }
  destruct (type_ event); [|done].
  destruct (negb (use_message_db G)) eqn:Hdb; simpl.
  - intros Hrest.
    destruct (quiet_invariant (use_message_db G) st
                (emit (set_binlog st (binlog_erase (binlog st) (id_ event)))
                      [EvBinlogErase (id_ event)])) as [Hinv1 Hle1]; [|done|].
    { unfold quiet. simpl. by rewrite issued_generations_app, app_nil_r. }
    destruct (IH _ Hinv1 Hrest) as [Hinv' Hle']. split; [done|lia].
  - destruct (log_event_parse_answer (data_ event)) as [log_event|]; [|done].
    destruct (do_set_poll_answer G st _ _ _ _ _) as [st1|] eqn:Hstep; simpl; [|done].
    intros Hrest.
    destruct (invariant_do_set_poll_answer _ _ _ _ _ _ _ _ Hinv Hstep) as [Hinv1 Hle1].
    destruct (IH _ Hinv1 Hrest) as [Hinv' Hle']. split; [done|lia].
Qed.

Lemma invariant_run use_db close st op st' :
  invariant use_db st ->
  run (mkGlobal use_db close) st op = Done st' ->
  invariant use_db st' /\ sends st <= sends st'.
Proof.
  intros Hinv. destruct op; simpl.
  - destruct (create_poll st question0 option_texts) as [[poll_id st1]|] eqn:Hrun;
      simpl; [|done].
    intros [= <-]. apply quiet_invariant; [|done]. by eapply quiet_create_poll.
  - intros Hrun. apply quiet_invariant; [|done]. by eapply quiet_register_poll.
  - intros Hrun. apply quiet_invariant; [|done]. by eapply quiet_unregister_poll.
  - unfold have_poll_force.
    destruct (get_poll_force _ st poll_id) as [[poll st1]|] eqn:Hrun; simpl; [|done].
    intros [= <-]. apply quiet_invariant; [|done]. by eapply quiet_get_poll_force.
  - apply (invariant_set_poll_answer (mkGlobal use_db close)). done.
  - intros [= <-]. by apply invariant_SetPollAnswerQuery_send.
  - apply (invariant_on_set_poll_answer (mkGlobal use_db close)). done.
  - intros Hrun. apply quiet_invariant; [|done]. by eapply quiet_close_poll.
  - destruct (on_get_poll _ st poll_id poll_server poll_results) as [[ret st1]|] eqn:Hrun;
      simpl; [|done].
    intros [= <-]. apply quiet_invariant; [|done]. by eapply quiet_on_get_poll.
  - apply (invariant_on_binlog_events (mkGlobal use_db close)). done.
Qed.

(** The invariant holds in every reachable state. *)
Lemma reachable_invariant use_db st : reachable use_db st -> invariant use_db st.
Proof.
  induction 1 as [db log Hlog|st close op st' _ IH Hrun].
  - unfold invariant, waiters_nonempty, wf, sends. simpl.
    split; [by intros ? ?; rewrite lookup_empty|].
    split; [done|]. split; [done|]. intros _.
    split; [done|]. split; [done|]. split; [|constructor].
    intros ? ?. by rewrite lookup_empty.
  - by destruct (invariant_run _ _ _ _ _ IH Hrun).
Qed.

(** C10: between any two calls, every pending answer has at least one
    waiting promise; hence the completion handler, whatever completion it
    receives, passes its [CHECK(!pending_answer.promises_.empty())] (it has
    no other way to stop, so it returns). *)
Theorem pending_answers_have_waiters use_db st G poll_id generation result :
  reachable use_db st ->
  match pending_answers_ st !! poll_id with
  | Some pending_answer => promises_ pending_answer <> []
  | None => True
  end /\
  on_set_poll_answer G st poll_id generation result <> Crashed (CHECK_failed 365) /\
  exists st', on_set_poll_answer G st poll_id generation result = Done st'.
Proof.
  intros Hreach. apply reachable_invariant in Hreach as (Hw & _).
  assert (match pending_answers_ st !! poll_id with
          | Some pending_answer => promises_ pending_answer <> []
          | None => True
          end) as Hwaiters.
  { destruct (pending_answers_ st !! poll_id) as [pa|] eqn:Hpa; [|done]. by eapply Hw. }
  split; [done|].
  assert (exists st', on_set_poll_answer G st poll_id generation result = Done st')
    as [st' Hdone].
  { unfold on_set_poll_answer.
    destruct (close_flag G && is_error result); [by eexists|].
    destruct (pending_answers_ st !! poll_id) as [pa|]; [|by eexists].
    rewrite bool_decide_eq_false_2 by done. simpl.
    destruct (negb (generation_ pa =? generation)); by eexists. }
  split; [by rewrite Hdone|by exists st'].
Qed.

(** ** [is_closed] *)

Lemma polls_do_set_poll_answer G st poll_id full_message_id options logevent_id promise st' :
  do_set_poll_answer G st poll_id full_message_id options logevent_id promise = Done st' ->
  polls_ st' = polls_ st.
Proof.
  intros Hrun. apply do_set_poll_answer_spec in Hrun as [[_ ->]|(? & ? & ? & ? & -> & _)]; done.
Qed.

Lemma polls_set_poll_answer G st poll_id full_message_id option_ids promise st' :
  set_poll_answer G st poll_id full_message_id option_ids promise = Done st' ->
  polls_ st' = polls_ st.
Proof.
  unfold set_poll_answer.
  destruct (1 <? length option_ids)%nat; [by intros [= <-]|].
  destruct (is_local_poll_id poll_id); [by intros [= <-]|].
  destruct (get_poll st poll_id) as [poll|]; [|done].
  destruct (is_closed poll); [by intros [= <-]|].
  destruct (set_poll_answer_loop (options poll) option_ids []); [|by intros [= <-]].
  apply polls_do_set_poll_answer.
Qed.

Lemma polls_on_set_poll_answer G st poll_id generation result st' :
  on_set_poll_answer G st poll_id generation result = Done st' -> polls_ st' = polls_ st.
Proof.
  unfold on_set_poll_answer.
  destruct (close_flag G && is_error result); [by intros [= <-]|].
  destruct (pending_answers_ st !! poll_id) as [pa|]; [|by intros [= <-]].
  destruct (negb (bool_decide (promises_ pa = []))); simpl; [|done].
  destruct (negb (generation_ pa =? generation)); [by intros [= <-]|].
  intros [= <-]. by destruct (negb (logevent_id_ pa =? 0)).
Qed.

Lemma polls_SetPollAnswerQuery_send st poll_id full_message_id options generation
    input_peer query :
  polls_ (SetPollAnswerQuery_send st poll_id full_message_id options generation
                                  input_peer query) = polls_ st.
Proof.
  unfold SetPollAnswerQuery_send. destruct input_peer; simpl; [|done].
  by destruct (pending_answers_ st !! poll_id).
Qed.

Lemma polls_on_binlog_events G st events st' :
  on_binlog_events G st events = Done st' -> polls_ st' = polls_ st.
Proof.
  revert st. induction events as [|event rest IH]; intros st; simpl; [by intros [= <-]|].
  destruct (type_ event); [|done].
  destruct (negb (use_message_db G)); simpl.
  - intros Hrest. by rewrite (IH _ Hrest).
  - destruct (log_event_parse_answer (data_ event)) as [log_event|]; [|done].
    destruct (do_set_poll_answer G st _ _ _ _ _) as [st1|] eqn:Hstep; simpl; [|done].
    intros Hrest. rewrite (IH _ Hrest). by eapply polls_do_set_poll_answer.
Qed.

Lemma polls_save_poll G st poll poll_id st' :
  save_poll G st poll poll_id = Done st' -> polls_ st' = polls_ st.
Proof.
  unfold save_poll. destruct (negb (is_local_poll_id poll_id)); simpl; [|done].
  destruct (negb (use_message_db G)); by intros [= <-].
Qed.

Lemma polls_notify_on_poll_update st poll_id :
  polls_ (notify_on_poll_update st poll_id) = polls_ st.
Proof. apply notify_on_poll_update_frame. Qed.

Lemma close_poll_keeps_closed G st target st' poll_id poll :
  get_poll st poll_id = Some poll -> is_closed poll = true ->
  close_poll G st target = Done st' ->
  exists poll', get_poll st' poll_id = Some poll' /\ is_closed poll' = true.
Proof.
  unfold close_poll, get_poll, get_poll_editable. intros Hpoll Hclosed.
  destruct (polls_ st !! target) as [p|] eqn:Htarget; [|done].
  destruct (is_closed p) eqn:Hp; [intros [= <-]; by exists poll|].
  assert (target <> poll_id) as Hne by (intros ->; congruence).
  set (st1 := notify_on_poll_update _ target).
  assert (polls_ st1 !! poll_id = Some poll) as Hkept.
  { unfold st1. rewrite polls_notify_on_poll_update. simpl.
    by rewrite lookup_insert_ne. }
  destruct (negb (is_local_poll_id target)).
  - intros Hsave. apply polls_save_poll in Hsave. exists poll. by rewrite Hsave.
  - intros [= <-]. by exists poll.
Qed.

Lemma on_get_poll_merge_poll_closed poll server :
  Z.land (poll_flags_ server) CLOSED_MASK <> 0 ->
  is_closed (fst (on_get_poll_merge_poll poll server false)) = true.
Proof.
  intros Hflag.
  destruct (on_get_poll_merge_poll_post poll server false) as (_ & _ & -> & _).
  by destruct (Z.eqb_spec (Z.land (poll_flags_ server) CLOSED_MASK) 0).
Qed.

Lemma merged_closed poll poll_server results :
  is_closed poll = true ->
  match poll_server with
  | Some server => Z.land (poll_flags_ server) CLOSED_MASK <> 0
  | None => True
  end ->
  is_closed (fst (merged poll poll_server results)) = true.
Proof.
  intros Hclosed Hflag. unfold merged.
  destruct (match poll_server with
            | Some server => on_get_poll_merge_poll poll server false
            | None => (poll, false)
            end) as [poll1 c1] eqn:Hmerge.
  destruct (on_get_poll_merge_results_post poll1 results c1) as (_ & -> & _).
  destruct poll_server as [server|].
  - pose proof (on_get_poll_merge_poll_closed poll server Hflag) as Hc.
    by rewrite Hmerge in Hc.
  - by injection Hmerge as <- _.
Qed.

Lemma on_get_poll_merge_no_results G st poll_id poll poll_server :
  on_get_poll_merge G st poll_id poll poll_server None = Crashed (CHECK_failed 477).
Proof.
  unfold on_get_poll_merge.
  destruct poll_server as [server|]; [|done].
  by destruct (on_get_poll_merge_poll poll server false).
Qed.

Lemma on_get_poll_keeps_closed G st target poll_server poll_results ret st' poll_id poll :
  get_poll st poll_id = Some poll -> is_closed poll = true ->
  ~ clears_closed poll_id (OpOnGetPoll target poll_server poll_results) ->
  on_get_poll G st target poll_server poll_results = Done (ret, st') ->
  exists poll', get_poll st' poll_id = Some poll' /\ is_closed poll' = true.
Proof.
  unfold get_poll. intros Hpoll Hclosed Hkeep. unfold on_get_poll.
  set (pid := on_get_poll_id target poll_server).
  destruct (negb (PollId_is_valid pid) || is_local_poll_id pid) eqn:Hbad;
    [intros [= <- <-]; by exists poll|].
  apply orb_false_elim in Hbad as [_ Hlocal].
  destruct (match poll_server with
            | Some server => negb (poll_id_ server =? pid)
            | None => false
            end) eqn:Hmismatch; [intros [= <- <-]; by exists poll|].
  destruct (get_poll_force G st pid) as [[found stA]|] eqn:Hforce; simpl; [|done].
  apply get_poll_force_spec in Hforce as (Hmem & _ & _ & _ & _ & Hkept & _).
  assert (polls_ stA !! poll_id = Some poll) as HpollA
    by (by rewrite Hkept; [|rewrite Hpoll]).
  assert (forall stB start,
            polls_ stB !! poll_id = Some poll ->
            (pid = poll_id -> start = poll) ->
            on_get_poll_merge G stB pid start poll_server poll_results = Done (ret, st') ->
            exists poll', polls_ st' !! poll_id = Some poll' /\ is_closed poll' = true)
    as Hmerge.
  { intros stB start HpollB Hstart Hrun.
    destruct poll_results as [results|].
    2: { by rewrite on_get_poll_merge_no_results in Hrun. }
    destruct (on_get_poll_merge_done G stB pid start poll_server results Hlocal)
      as (st2 & Hrun2 & Hpolls & _).
    rewrite Hrun2 in Hrun. injection Hrun as <- <-.
    rewrite Hpolls. destruct (decide (pid = poll_id)) as [Heq|Hne].
    - rewrite Heq, lookup_insert_eq. rewrite (Hstart Heq).
      eexists. split; [reflexivity|]. apply merged_closed; [done|].
      destruct poll_server as [server|]; [|done].
      intros Hzero. apply Hkeep. simpl. split; [|done].
      destruct (Z.eqb_spec (poll_id_ server) pid); simpl in Hmismatch; congruence.
    - rewrite lookup_insert_ne by done. by exists poll. }
  destruct found as [found|].
  - apply Hmerge; [done|]. intros Heq. unfold get_poll_editable in Hmem.
    rewrite Heq in Hmem. congruence.
  - destruct poll_server as [server|]; [|intros [= <- <-]; by exists poll].
    case_bool_decide as Hfresh; simpl; [|done].
    apply Hmerge.
    + simpl. rewrite lookup_insert_ne; [done|]. intros Heq. rewrite Heq in Hfresh. congruence.
    + intros Heq. rewrite Heq in Hfresh. congruence.
Qed.

Lemma run_keeps_closed G st op st' poll_id poll :
  get_poll st poll_id = Some poll -> is_closed poll = true ->
  ~ clears_closed poll_id op ->
  run G st op = Done st' ->
  exists poll', get_poll st' poll_id = Some poll' /\ is_closed poll' = true.
Proof.
  intros Hpoll Hclosed Hkeep.
  assert (forall st1, polls_ st1 = polls_ st ->
            exists poll', get_poll st1 poll_id = Some poll' /\ is_closed poll' = true)
    as Hsame by (intros st1 Heq; exists poll; unfold get_poll in *; by rewrite Heq).
  destruct op; simpl.
  - unfold create_poll. simpl.
    destruct (is_local_poll_id _); simpl; [|done].
    case_bool_decide as Hfresh; simpl; [|done].
    intros [= <-]. exists poll. unfold get_poll in *. simpl. split; [|done].
    rewrite lookup_insert_ne; [done|]. intros Heq. rewrite Heq in Hfresh. congruence.
  - unfold register_poll. destruct (have_poll st poll_id0); simpl; [|done].
    intros [= <-]. by apply Hsame.
  - unfold unregister_poll. destruct (have_poll st poll_id0); simpl; [|done].
    intros [= <-]. by apply Hsame.
  - unfold have_poll_force.
    destruct (get_poll_force G st poll_id0) as [[found st1]|] eqn:Hforce; simpl; [|done].
    intros [= <-]. apply get_poll_force_spec in Hforce as (_ & _ & _ & _ & _ & Hkept & _).
    exists poll. unfold get_poll in *. by rewrite Hkept; [|rewrite Hpoll].
  - intros Hrun. apply Hsame. by eapply polls_set_poll_answer.
  - intros [= <-]. apply Hsame. apply polls_SetPollAnswerQuery_send.
  - intros Hrun. apply Hsame. by eapply polls_on_set_poll_answer.
  - by apply (close_poll_keeps_closed G st poll_id0 st' poll_id poll).
  - destruct (on_get_poll G st poll_id0 poll_server poll_results) as [[ret st1]|] eqn:Hrun;
      simpl; [|done].
    intros [= <-]. by eapply on_get_poll_keeps_closed.
  - intros Hrun. apply Hsame. by eapply polls_on_binlog_events.
Qed.

(** C6 (amended): once a poll's [is_closed] is true it stays true through
    every sequence of calls that returns, provided none of them is an
    [on_get_poll] carrying a server poll for this poll id without the
    [CLOSED] flag (that call copies the server's flag and so re-opens the
    poll). *)
Theorem is_closed_stays use_db st calls st' poll_id poll :
  get_poll st poll_id = Some poll ->
  is_closed poll = true ->
  Forall (fun call => ~ clears_closed poll_id (snd call)) calls ->
  run_calls use_db st calls = Done st' ->
  exists poll', get_poll st' poll_id = Some poll' /\ is_closed poll' = true.
Proof.
  intros Hpoll Hclosed Hcalls. revert st poll Hpoll Hclosed.
  induction Hcalls as [|[close op] rest Hop Hrest IH]; intros st poll Hpoll Hclosed; simpl.
  - intros [= <-]. by exists poll.
  - destruct (run (mkGlobal use_db close) st op) as [st1|] eqn:Hrun; simpl; [|done].
    destruct (run_keeps_closed _ _ _ _ _ _ Hpoll Hclosed Hop Hrun) as (poll1 & Hpoll1 & Hc1).
    by apply (IH st1 poll1).
Qed.


(** ** Creating polls *)

Lemma imap_offset_fmap_seq {A B} (f : nat -> B) (l : list A) (k : nat) :
  imap (fun i _ => f (k + i)%nat) l = f <$> seq k (length l).
Proof.
  revert k. induction l as [|x l IH]; intros k; [done|].
  rewrite imap_cons. simpl. rewrite Nat.add_0_r. f_equal.
  rewrite <- IH. apply imap_ext. intros i y _. simpl. f_equal. lia.
Qed.

Lemma create_poll_option_keys (option_texts : list string) :
  data <$> imap (fun pos option_text =>
                   mkPollOption option_text (pretty (Z.of_nat pos)) 0 false) option_texts
  = (fun pos => pretty (Z.of_nat pos)) <$> seq 0 (length option_texts).
Proof.
  rewrite fmap_imap. rewrite <- (imap_offset_fmap_seq _ option_texts 0). done.
Qed.

Lemma create_poll_option_texts (option_texts : list string) :
  text <$> imap (fun pos option_text =>
                   mkPollOption option_text (pretty (Z.of_nat pos)) 0 false) option_texts
  = option_texts.
Proof.
  rewrite fmap_imap. rewrite <- (list_fmap_id option_texts) at 2.
  rewrite <- imap_const. done.
Qed.

(** X1: as long as the counter of local ids has not reached the least
    32-bit integer and the next id is free, [create_poll] returns the next
    lower id, which is local; the new poll has the given question and
    texts, option keys "0", "1", ... by position (hence pairwise distinct),
    no votes, and is open; every other poll stays as it is. *)
Theorem create_poll_fresh st question' option_texts :
  INT32_MIN < current_local_poll_id_ st - 1 < 0 ->
  get_poll st (current_local_poll_id_ st - 1) = None ->
  let poll_id := current_local_poll_id_ st - 1 in
  exists st' poll,
    create_poll st question' option_texts = Done (poll_id, st') /\
    is_local_poll_id poll_id = true /\
    current_local_poll_id_ st' = poll_id /\
    get_poll st' poll_id = Some poll /\
    question poll = question' /\
    text <$> options poll = option_texts /\
    data <$> options poll
    = (fun pos => pretty (Z.of_nat pos)) <$> seq 0 (length option_texts) /\
    NoDup (data <$> options poll) /\
    Forall (fun o => voter_count o = 0 /\ is_chosen o = false) (options poll) /\
    total_voter_count poll = 0 /\ is_closed poll = false /\
    (forall other, other <> poll_id -> get_poll st' other = get_poll st other) /\
    pending_answers_ st' = pending_answers_ st /\
    trace st' = trace st.
Proof.
  intros Hrange Hfree poll_id. unfold create_poll. simpl.
  assert (is_local_poll_id poll_id = true) as Hlocal.
  { unfold is_local_poll_id, poll_id.
    destruct (Z.ltb_spec (current_local_poll_id_ st - 1) 0); [|lia].
    destruct (Z.ltb_spec INT32_MIN (current_local_poll_id_ st - 1)); [done|lia]. }
  fold poll_id. rewrite Hlocal. simpl.
  unfold get_poll in Hfree. fold poll_id in Hfree.
  rewrite bool_decide_eq_true_2 by done. simpl.
  eexists. eexists. split; [reflexivity|]. unfold get_poll. simpl.
  rewrite lookup_insert_eq. cbn [question options total_voter_count is_closed].
  split; [done|]. split; [done|]. split; [done|]. split; [done|].
  split; [apply create_poll_option_texts|].
  split; [apply create_poll_option_keys|].
  split; [|split; [|split; [done|split; [done|split; [|done]]]]].
  - cbn [options]. rewrite create_poll_option_keys. apply NoDup_fmap_2; [|apply NoDup_seq].
    intros i j Hij. apply (inj pretty) in Hij. lia.
  - cbn [options]. apply Forall_forall. intros o Ho.
    apply list_elem_of_lookup in Ho as [i Hi].
    rewrite list_lookup_imap in Hi.
    destruct (option_texts !! i); simpl in Hi; [|done]. by injection Hi as <-.
  - intros other Hne. by rewrite lookup_insert_ne.
Qed.

(** ** Accepted votes *)

Lemma set_poll_answer_loop_valid poll_options option_ids keys options :
  Forall2 (fun option_id key =>
             0 <= option_id < 2 ^ 31 /\
             data <$> poll_options !! Z.to_nat option_id = Some key) option_ids keys ->
  set_poll_answer_loop poll_options option_ids options = Some (options ++ keys).
Proof.
  intros Hvalid. revert options.
  induction Hvalid as [|option_id key option_ids keys [Hrange Hkey] _ IH]; intros options.
  { simpl. by rewrite app_nil_r. }
  simpl. unfold to_size_t. rewrite Z.mod_small by lia.
  destruct (poll_options !! Z.to_nat option_id) as [poll_option|] eqn:Hlook; [|done].
  injection Hkey as <-. apply lookup_lt_Some in Hlook.
  destruct (Z.leb_spec (Z.of_nat (length poll_options)) option_id); [lia|].
  rewrite IH. by rewrite <- app_assoc.
Qed.

Lemma do_set_poll_answer_first G st poll_id full_message_id keys promise :
  pending_answers_ st !! poll_id = None ->
  do_set_poll_answer G st poll_id full_message_id keys 0 promise
  = Done (first_vote_state G st poll_id full_message_id keys promise).
Proof.
  intros Hnone. unfold do_set_poll_answer, first_vote_state. rewrite Hnone. simpl.
  destruct (use_message_db G); simpl; f_equal; state_eq.
Qed.

Lemma set_poll_answer_first G st poll_id full_message_id option_ids keys promise poll :
  is_local_poll_id poll_id = false ->
  get_poll st poll_id = Some poll ->
  is_closed poll = false ->
  (length option_ids <= 1)%nat ->
  Forall2 (fun option_id key =>
             0 <= option_id < 2 ^ 31 /\
             data <$> options poll !! Z.to_nat option_id = Some key) option_ids keys ->
  pending_answers_ st !! poll_id = None ->
  set_poll_answer G st poll_id full_message_id option_ids promise
  = Done (first_vote_state G st poll_id full_message_id keys promise).
Proof.
  intros Hlocal Hpoll Hopen Hone Hvalid Hnone. unfold set_poll_answer.
  destruct (Nat.ltb_spec 1 (length option_ids)); [lia|].
  rewrite Hlocal, Hpoll, Hopen.
  rewrite (set_poll_answer_loop_valid _ _ keys) by done. simpl.
  by apply do_set_poll_answer_first.
Qed.

(** X2: a vote for at most one option, given by a valid index, on an open
    server poll without pending answer is accepted: the promise is not
    resolved but becomes the only waiter of a new pending answer whose keys
    are the [data] of the chosen options; with the message database in use
    a binlog entry with the poll, the message and the keys is added under a
    new id; the registered messages are notified and one vote query with
    the next generation is sent.  An empty selection (retracting the vote)
    is sent with no keys. *)
Theorem set_poll_answer_accepts G st poll_id full_message_id option_ids keys promise poll :
  is_local_poll_id poll_id = false ->
  get_poll st poll_id = Some poll ->
  is_closed poll = false ->
  (length option_ids <= 1)%nat ->
  Forall2 (fun option_id key =>
             0 <= option_id < 2 ^ 31 /\
             data <$> options poll !! Z.to_nat option_id = Some key) option_ids keys ->
  pending_answers_ st !! poll_id = None ->
  let generation := uint64 (current_generation_ st + 1) in
  let logevent := mkLogEvent poll_id full_message_id keys in
  exists st',
    set_poll_answer G st poll_id full_message_id option_ids promise = Done st' /\
    trace st'
    = trace st
      ++ (if use_message_db G then [EvBinlogAdd (next_id (binlog st)) logevent] else [])
      ++ (EvUpdateMessageContent <$> elements (default ∅ (poll_messages_ st !! poll_id)))
      ++ [EvSendVote poll_id generation full_message_id keys] /\
    pending_answers_ st'
    = <[poll_id := mkPending keys [promise] generation
                     (if use_message_db G then next_id (binlog st) else 0) None]>
        (pending_answers_ st) /\
    current_generation_ st' = generation /\
    polls_ st' = polls_ st /\
    sqlite_pmc st' = sqlite_pmc st /\
    (if use_message_db G
     then entries (binlog st') = <[next_id (binlog st) := logevent]> (entries (binlog st))
          /\ next_id (binlog st') = next_id (binlog st) + 1
     else binlog st' = binlog st).
Proof.
  intros Hlocal Hpoll Hopen Hone Hvalid Hnone generation logevent.
  rewrite (set_poll_answer_first G st poll_id full_message_id option_ids keys promise poll)
    by done.
  eexists. split; [reflexivity|]. simpl.
  repeat (split; [done|]). by destruct (use_message_db G).
Qed.

(** X3: a vote and its completion.  After an accepted first vote, the
    completion with the vote's generation (unless it is an error while the
    process closes) resolves the promise with the query's result
    ([set_value] on success, [set_error] with the query's error), erases
    the binlog entry the vote added and removes the pending answer: the
    pending answers, the binlog entries and the polls are what they were
    before the vote. *)
Theorem vote_and_completion G st poll_id full_message_id option_ids keys promise poll
    result :
  is_local_poll_id poll_id = false ->
  get_poll st poll_id = Some poll ->
  is_closed poll = false ->
  (length option_ids <= 1)%nat ->
  Forall2 (fun option_id key =>
             0 <= option_id < 2 ^ 31 /\
             data <$> options poll !! Z.to_nat option_id = Some key) option_ids keys ->
  pending_answers_ st !! poll_id = None ->
  0 < next_id (binlog st) ->
  entries (binlog st) !! next_id (binlog st) = None ->
  close_flag G && is_error result = false ->
  exists st1 st2,
    set_poll_answer G st poll_id full_message_id option_ids promise = Done st1 /\
    on_set_poll_answer G st1 poll_id (uint64 (current_generation_ st + 1)) result
    = Done st2 /\
    trace st2
    = trace st1
      ++ (if use_message_db G then [EvBinlogErase (next_id (binlog st))] else [])
      ++ [match result with
          | ROk => EvSetValue promise
          | RError status => EvSetError promise status
          end] /\
    pending_answers_ st2 = pending_answers_ st /\
    entries (binlog st2) = entries (binlog st) /\
    polls_ st2 = polls_ st.
Proof.
  intros Hlocal Hpoll Hopen Hone Hvalid Hnone Hnext Hfree Hgoing.
  rewrite (set_poll_answer_first G st poll_id full_message_id option_ids keys promise poll)
    by done.
  exists (first_vote_state G st poll_id full_message_id keys promise).
  unfold on_set_poll_answer, first_vote_state. rewrite Hgoing.
  cbn [pending_answers_]. rewrite lookup_insert_eq. simpl.
  rewrite Z.eqb_refl. simpl.
  destruct (use_message_db G); simpl.
  - destruct (Z.eqb_spec (next_id (binlog st)) 0) as [|_]; [lia|]. simpl.
    eexists. split; [reflexivity|]. split; [reflexivity|]. simpl.
    split; [destruct result; simpl; by rewrite <- !app_assoc|].
    split; [by rewrite delete_insert_id|].
    split; [by rewrite delete_insert_id|done].
  - eexists. split; [reflexivity|]. split; [reflexivity|]. simpl.
    split; [destruct result; simpl; by rewrite <- !app_assoc|].
    split; [by rewrite delete_insert_id|done].
Qed.

(** X4: a vote in a chat that cannot be read.  [SetPollAnswerQuery::send]
    then creates no query and leaves [query_ref_] alone, reports the error
    to the messages manager and completes with error 400; the completion
    (outside shutdown) fails every waiter with that error, erases the binlog
    entry and removes the pending answer. *)
Theorem vote_without_access G st poll_id full_message_id options query pending_answer :
  pending_answers_ st !! poll_id = Some pending_answer ->
  promises_ pending_answer <> [] ->
  close_flag G = false ->
  let status := mkStatus 400 "Can't access the chat" in
  let st1 := SetPollAnswerQuery_send st poll_id full_message_id options
               (generation_ pending_answer) false query in
  pending_answers_ st1 = pending_answers_ st /\
  trace st1
  = trace st ++ [EvGetDialogError (get_dialog_id full_message_id) status;
                 EvQueryResult poll_id (generation_ pending_answer) (RError status)] /\
  exists st2,
    on_set_poll_answer G st1 poll_id (generation_ pending_answer) (RError status)
    = Done st2 /\
    trace st2
    = trace st1
      ++ (if logevent_id_ pending_answer =? 0 then []
          else [EvBinlogErase (logevent_id_ pending_answer)])
      ++ ((fun promise => EvSetError promise status) <$> promises_ pending_answer) /\
    pending_answers_ st2 = delete poll_id (pending_answers_ st) /\
    entries (binlog st2)
    = (if logevent_id_ pending_answer =? 0 then entries (binlog st)
       else delete (logevent_id_ pending_answer) (entries (binlog st))).
Proof.
  intros Hpending Hwaiters Hopen status st1.
  split; [done|]. split; [done|].
  unfold on_set_poll_answer. rewrite Hopen. simpl.
  unfold st1 at 1. cbn [SetPollAnswerQuery_send negb emit pending_answers_].
  rewrite Hpending. rewrite bool_decide_eq_false_2 by done. simpl.
  rewrite Z.eqb_refl. simpl.
  eexists. split; [reflexivity|].
  destruct (logevent_id_ pending_answer =? 0); simpl.
  - split; [done|]. done.
  - split; [by rewrite <- !app_assoc|]. done.
Qed.

(** ** Replay without the message database *)

Lemma on_binlog_events_erases G st events :
  use_message_db G = false ->
  Forall (fun event => type_ event = SetPollAnswer) events ->
  on_binlog_events G st events
  = Done (emit (set_binlog st (mkBinlog (foldl (fun m event => delete (id_ event) m)
                                               (entries (binlog st)) events)
                                        (next_id (binlog st))))
               ((fun event => EvBinlogErase (id_ event)) <$> events)).
Proof.
  intros Hdb Hevents. revert st.
  induction Hevents as [|event events Htype _ IH]; intros st.
  { simpl. f_equal. apply State_ext; simpl; try done; [by destruct (binlog st)|].
    by rewrite app_nil_r. }
  simpl. rewrite Htype, Hdb. simpl. rewrite IH. f_equal.
  apply State_ext; simpl; try done. by rewrite <- app_assoc.
Qed.

Lemma foldl_delete_lookup (events : list BinlogEvent) (m : gmap Z SetPollAnswerLogEvent) id :
  foldl (fun m event => delete (id_ event) m) m events !! id
  = if bool_decide (id ∈ id_ <$> events) then None else m !! id.
Proof.
  revert m. induction events as [|event events IH]; intros m; cbn [foldl].
  { case_bool_decide as Hin; [by apply elem_of_nil in Hin|done]. }
  rewrite IH. rewrite fmap_cons.
  destruct (decide (id = id_ event)) as [->|Hne].
  - rewrite lookup_delete_eq.
    rewrite (bool_decide_eq_true_2 (id_ event ∈ id_ event :: _)) by left.
    by case_bool_decide.
  - rewrite lookup_delete_ne by done.
    case_bool_decide as Hin.
    + by rewrite bool_decide_eq_true_2 by (by right).
    + rewrite bool_decide_eq_false_2; [done|].
      intros Hin'. apply elem_of_cons in Hin' as [?|?]; done.
Qed.

(** X5: when the message database is not used, replay only erases: every
    vote entry handed to [on_binlog_events] is erased from the binlog, in
    order, and nothing else happens (no pending answer, no vote query, no
    change of a poll); an entry of any other type stops the process. *)
Theorem on_binlog_events_without_db G st events event rest :
  use_message_db G = false ->
  Forall (fun event => type_ event = SetPollAnswer) events ->
  type_ event <> SetPollAnswer ->
  (exists st',
     on_binlog_events G st events = Done st' /\
     trace st' = trace st ++ ((fun event => EvBinlogErase (id_ event)) <$> events) /\
     (forall id, entries (binlog st') !! id
                 = if bool_decide (id ∈ id_ <$> events) then None
                   else entries (binlog st) !! id) /\
     next_id (binlog st') = next_id (binlog st) /\
     pending_answers_ st' = pending_answers_ st /\
     current_generation_ st' = current_generation_ st /\
     polls_ st' = polls_ st /\
     sqlite_pmc st' = sqlite_pmc st) /\
  on_binlog_events G st (events ++ event :: rest) = Crashed (LOG_FATAL 534).
Proof.
  intros Hdb Hevents Hother. split.
  - rewrite on_binlog_events_erases by done.
    eexists. split; [reflexivity|]. simpl. split; [done|].
    split; [apply foldl_delete_lookup|done].
  - clear -Hdb Hevents Hother. revert st.
    induction Hevents as [|first events Htype _ IH]; intros st; simpl.
    + by destruct (type_ event).
    + rewrite Htype, Hdb. simpl. apply IH.
Qed.

(** ** More on the reconciliation with the server *)

Lemma get_poll_force_frame G st poll_id found st' :
  get_poll_force G st poll_id = Done (found, st') ->
  sqlite_pmc st' = sqlite_pmc st /\
  poll_messages_ st' = poll_messages_ st /\
  (forall other, other <> poll_id -> polls_ st' !! other = polls_ st !! other) /\
  (found = None -> polls_ st' = polls_ st) /\
  (is_Some (polls_ st !! poll_id) -> st' = st).
Proof.
  unfold get_poll_force, get_poll_editable.
  destruct (polls_ st !! poll_id) as [p|] eqn:Hmem.
  { by intros [= <- <-]. }
  destruct (use_message_db G); simpl; [|intros [= <- <-]; repeat split; by intros []].
  case_bool_decide; [intros [= <- <-]; repeat split; by intros []|].
  unfold on_load_poll_from_database, have_poll, get_poll. simpl. rewrite Hmem. simpl.
  case_bool_decide; simpl.
  - intros [= <- <-]. simpl. repeat split; try done; by intros [].
  - destruct (log_event_parse _) as [result|]; simpl; [|done].
    intros [= <- <-]. simpl.
    split; [done|]. split; [done|].
    split; [|split; [by rewrite lookup_insert_eq|by intros []]].
    intros other Hne. by rewrite lookup_insert_ne.
Qed.

(** X6: what [on_get_poll] returns.  It gives back either the empty poll id,
    and then no poll was changed, nothing was notified and nothing was
    written to the store, or the id the update is about, which is valid, not
    local, and the id of a poll that is in the registry afterwards.  In no
    case does it touch a poll with a local id. *)
Theorem on_get_poll_result G st poll_id poll_server poll_results ret st' :
  on_get_poll G st poll_id poll_server poll_results = Done (ret, st') ->
  ((ret = PollId_empty /\ polls_ st' = polls_ st /\ trace st' = trace st /\
    sqlite_pmc st' = sqlite_pmc st) \/
   (ret = on_get_poll_id poll_id poll_server /\ PollId_is_valid ret = true /\
    is_local_poll_id ret = false /\ have_poll st' ret = true)) /\
  (forall local_id, is_local_poll_id local_id = true ->
                    get_poll st' local_id = get_poll st local_id).
Proof.
  unfold on_get_poll. set (pid := on_get_poll_id poll_id poll_server).
  destruct (negb (PollId_is_valid pid) || is_local_poll_id pid) eqn:Hbad.
  { intros [= <- <-]. split; [by left|done]. }
  apply orb_false_elim in Hbad as [Hvalid Hlocal]. apply negb_false_iff in Hvalid.
  destruct (match poll_server with
            | Some server => negb (poll_id_ server =? pid)
            | None => false
            end).
  { intros [= <- <-]. split; [by left|done]. }
  destruct (get_poll_force G st pid) as [[found stA]|] eqn:Hforce; simpl; [|done].
  pose proof Hforce as Hspec.
  apply get_poll_force_spec in Hspec as (Hmem & _ & Htrace & _).
  apply get_poll_force_frame in Hforce as (Hdb & _ & Hothers & Hnone & _).
  assert (forall stB start,
            (forall other, other <> pid -> polls_ stB !! other = polls_ st !! other) ->
            on_get_poll_merge G stB pid start poll_server poll_results = Done (ret, st') ->
            (ret = pid /\ PollId_is_valid ret = true /\ is_local_poll_id ret = false /\
             have_poll st' ret = true) /\
            (forall local_id, is_local_poll_id local_id = true ->
                              get_poll st' local_id = get_poll st local_id)) as Hmerge.
  { intros stB start HstB Hrun.
    destruct poll_results as [results|];
      [|by rewrite on_get_poll_merge_no_results in Hrun].
    destruct (on_get_poll_merge_done G stB pid start poll_server results Hlocal)
      as (st2 & Hrun2 & Hpolls & _).
    rewrite Hrun2 in Hrun. injection Hrun as <- <-.
    split.
    - split; [done|]. split; [done|]. split; [done|].
      unfold have_poll, get_poll. by rewrite Hpolls, lookup_insert_eq.
    - intros local_id Hloc. unfold get_poll. rewrite Hpolls.
      assert (pid <> local_id) as Hne by (intros ->; congruence).
      rewrite lookup_insert_ne by done. apply HstB. congruence. }
  destruct found as [found|].
  - intros Hrun. destruct (Hmerge stA found Hothers Hrun) as [Hret Hloc].
    split; [by right|done].
  - destruct poll_server as [server|].
    + case_bool_decide; simpl; [|done]. intros Hrun.
      assert (forall other, other <> pid ->
                polls_ (set_polls stA (<[pid := Poll_new]> (polls_ stA))) !! other
                = polls_ st !! other) as Hcreated.
      { simpl. intros other Hne. rewrite lookup_insert_ne by done. by apply Hothers. }
      destruct (Hmerge _ Poll_new Hcreated Hrun) as [Hret Hloc].
      split; [by right|done].
    + intros [= <- <-]. split; [left; by rewrite Hnone|].
      intros local_id _. unfold get_poll. by rewrite Hnone.
Qed.

Lemma merged_mirrors start server results :
  let poll := fst (merged start (Some server) results) in
  question poll = question_ server /\
  agrees (options poll) (answers_ server) /\
  is_closed poll = negb (Z.land (poll_flags_ server) CLOSED_MASK =? 0).
Proof.
  unfold merged.
  pose proof (on_get_poll_merge_poll_post start server false) as (Hq & Hopts & Hcl & _).
  destruct (on_get_poll_merge_poll start server false) as [poll1 c1]. simpl in *.
  pose proof (on_get_poll_merge_results_post poll1 results c1) as (Hq' & Hcl' & Hopts' & _).
  simpl. rewrite Hq', Hcl', Hopts'. split; [done|]. split; [|done].
  by apply agrees_updated.
Qed.

Lemma agrees_fmap poll_options answers :
  agrees poll_options answers ->
  text <$> poll_options = text_ <$> answers /\ data <$> poll_options = option_ <$> answers.
Proof.
  induction 1 as [|o a os answers [Ht Hd] _ [IHt IHd]]; [done|].
  rewrite !fmap_cons. by rewrite Ht, Hd, IHt, IHd.
Qed.

(** X7: after [on_get_poll] with a server poll (for a valid, non-local id
    that is the server poll's own, with results, and a store lookup that
    does not hit undecodable data), the stored poll has the server's
    question, the server's option texts and keys position by position, and
    the server's closed flag - whether the poll was known, loaded from the
    store, or created by this call. *)
Theorem on_get_poll_mirrors_server G st poll_id server results found stA :
  let pid := on_get_poll_id poll_id (Some server) in
  PollId_is_valid pid = true ->
  is_local_poll_id pid = false ->
  poll_id_ server = pid ->
  get_poll_force G st pid = Done (found, stA) ->
  exists st' poll,
    on_get_poll G st poll_id (Some server) (Some results) = Done (pid, st') /\
    get_poll st' pid = Some poll /\
    question poll = question_ server /\
    text <$> options poll = text_ <$> answers_ server /\
    data <$> options poll = option_ <$> answers_ server /\
    is_closed poll = negb (Z.land (poll_flags_ server) CLOSED_MASK =? 0).
Proof.
  intros pid Hvalid Hlocal Hsame Hforce. unfold on_get_poll. fold pid.
  rewrite Hvalid, Hlocal, Hsame, Z.eqb_refl, Hforce. simpl.
  apply get_poll_force_spec in Hforce as (Hmem & _).
  assert (forall stB start,
            exists st' poll,
              on_get_poll_merge G stB pid start (Some server) (Some results)
              = Done (pid, st') /\
              get_poll st' pid = Some poll /\
              question poll = question_ server /\
              text <$> options poll = text_ <$> answers_ server /\
              data <$> options poll = option_ <$> answers_ server /\
              is_closed poll = negb (Z.land (poll_flags_ server) CLOSED_MASK =? 0))
    as Hmerge.
  { intros stB start.
    destruct (on_get_poll_merge_done G stB pid start (Some server) results Hlocal)
      as (st' & Hrun & Hpolls & _).
    destruct (merged_mirrors start server results) as (Hq & Hopts & Hcl).
    apply agrees_fmap in Hopts as [Ht Hd].
    exists st', (fst (merged start (Some server) results)).
    split; [done|]. split; [|done].
    unfold get_poll. by rewrite Hpolls, lookup_insert_eq. }
  destruct found as [found|]; [apply Hmerge|].
  unfold get_poll_editable in Hmem. rewrite bool_decide_eq_true_2 by done. simpl.
  apply Hmerge.
Qed.

(** *** The changed-flag *)

Lemma on_get_poll_merge_answer_flag o answer c :
  snd (on_get_poll_merge_answer o answer c) = false ->
  fst (on_get_poll_merge_answer o answer c) = o /\ c = false.
Proof.
  unfold on_get_poll_merge_answer.
  repeat (case_bool_decide; simpl); done.
Qed.

Lemma on_get_poll_merge_answers_flag poll_options answers c :
  snd (on_get_poll_merge_answers poll_options answers c) = false ->
  fst (on_get_poll_merge_answers poll_options answers c) = poll_options /\ c = false.
Proof.
  revert answers c. induction poll_options as [|o os IH]; intros [|a answers] c;
    try (simpl; done).
  cbn [on_get_poll_merge_answers].
  pose proof (on_get_poll_merge_answer_flag o a c) as Ho.
  destruct (on_get_poll_merge_answer o a c) as [o' c'].
  pose proof (IH answers c') as Hrest.
  destruct (on_get_poll_merge_answers os answers c') as [os' c'']. simpl in *.
  intros Hflag. destruct (Hrest Hflag) as [-> Hc']. by destruct (Ho Hc') as [-> ->].
Qed.

Lemma on_get_poll_merge_poll_flag poll server c :
  snd (on_get_poll_merge_poll poll server c) = false ->
  fst (on_get_poll_merge_poll poll server c) = poll /\ c = false.
Proof.
  unfold on_get_poll_merge_poll.
  case_bool_decide as Hq; simpl.
  2: { destruct (negb (length (options poll) =? length (answers_ server))%nat).
       { by destruct (negb (Bool.eqb _ _)). }
       pose proof (on_get_poll_merge_answers_flag (options poll) (answers_ server) true)
         as Hopts.
       destruct (on_get_poll_merge_answers (options poll) (answers_ server) true)
         as [opts c2].
       destruct (negb (Bool.eqb _ _)); simpl; [done|].
       intros Hflag. by destruct (Hopts Hflag). }
  destruct (negb (length (options poll) =? length (answers_ server))%nat).
  { by destruct (negb (Bool.eqb _ _)). }
  pose proof (on_get_poll_merge_answers_flag (options poll) (answers_ server) c) as Hopts.
  destruct (on_get_poll_merge_answers (options poll) (answers_ server) c) as [opts c2].
  destruct (negb (Bool.eqb _ _)); simpl; [done|].
  intros Hflag. destruct (Hopts Hflag) as [Ho ->]. simpl in Ho. subst opts.
  by destruct poll.
Qed.

Lemma on_get_poll_update_option_flag is_min r o c :
  snd (on_get_poll_update_option is_min r o c) = false ->
  fst (on_get_poll_update_option is_min r o c) = o /\ c = false.
Proof.
  unfold on_get_poll_update_option.
  case_bool_decide; simpl; [|done].
  destruct is_min; simpl.
  - by destruct (negb (voters_ r =? voter_count o)).
  - destruct (negb (Bool.eqb _ _)); simpl;
      by destruct (negb (voters_ r =? voter_count o)).
Qed.

Lemma on_get_poll_apply_result_flag is_min r poll_options c :
  snd (on_get_poll_apply_result is_min r poll_options c) = false ->
  fst (on_get_poll_apply_result is_min r poll_options c) = poll_options /\ c = false.
Proof.
  revert c. induction poll_options as [|o os IH]; intros c; [done|].
  cbn [on_get_poll_apply_result].
  pose proof (on_get_poll_update_option_flag is_min r o c) as Ho.
  destruct (on_get_poll_update_option is_min r o c) as [o' c'].
  pose proof (IH c') as Hrest.
  destruct (on_get_poll_apply_result is_min r os c') as [os' c'']. simpl in *.
  intros Hflag. destruct (Hrest Hflag) as [-> Hc']. by destruct (Ho Hc') as [-> ->].
Qed.

Lemma on_get_poll_apply_results_flag is_min results poll_options c :
  snd (on_get_poll_apply_results is_min results poll_options c) = false ->
  fst (on_get_poll_apply_results is_min results poll_options c) = poll_options
  /\ c = false.
Proof.
  revert poll_options c. induction results as [|r rs IH]; intros os c; [done|].
  cbn [on_get_poll_apply_results].
  pose proof (on_get_poll_apply_result_flag is_min r os c) as Hr.
  destruct (on_get_poll_apply_result is_min r os c) as [os' c'].
  intros Hflag. destruct (IH _ _ Hflag) as [-> Hc']. simpl in Hr.
  by destruct (Hr Hc') as [-> ->].
Qed.

Lemma on_get_poll_merge_results_flag poll results c :
  snd (on_get_poll_merge_results poll results c) = false ->
  fst (on_get_poll_merge_results poll results c) = poll /\ c = false.
Proof.
  unfold on_get_poll_merge_results.
  destruct (_ && _).
  - pose proof (on_get_poll_apply_results_flag
                  (negb (Z.land (results_flags_ results) MIN_MASK =? 0))
                  (results_ results) (options poll) true) as Hloop.
    destruct (on_get_poll_apply_results _ _ _ true) as [opts c2]. simpl in *.
    intros Hflag. by destruct (Hloop Hflag).
  - pose proof (on_get_poll_apply_results_flag
                  (negb (Z.land (results_flags_ results) MIN_MASK =? 0))
                  (results_ results) (options poll) c) as Hloop.
    destruct (on_get_poll_apply_results _ _ _ c) as [opts c2]. simpl in *.
    intros Hflag. destruct (Hloop Hflag) as [-> ->]. by destruct poll.
Qed.

(** When the changed-flag stays down, the poll is the one it was. *)
Lemma merged_flag poll poll_server results :
  snd (merged poll poll_server results) = false ->
  fst (merged poll poll_server results) = poll.
Proof.
  unfold merged. destruct poll_server as [server|].
  - pose proof (on_get_poll_merge_poll_flag poll server false) as Hpoll.
    destruct (on_get_poll_merge_poll poll server false) as [poll1 c1].
    intros Hflag. destruct (on_get_poll_merge_results_flag _ _ _ Hflag) as [-> Hc1].
    simpl in Hpoll. by destruct (Hpoll Hc1).
  - intros Hflag. by destruct (on_get_poll_merge_results_flag _ _ _ Hflag).
Qed.

(** X8: no silent change.  For a poll of the registry, [on_get_poll] either
    leaves the whole state as it is (then the stored poll is the one it
    was), or it notifies every message registered for the poll and, with
    the message database in use, writes the new poll under the poll's key.
    Whenever the stored poll differs from the old one, the second is the
    case. *)
Theorem on_get_poll_announces_change G st poll_id poll poll_server results :
  get_poll st poll_id = Some poll ->
  PollId_is_valid poll_id = true ->
  is_local_poll_id poll_id = false ->
  match poll_server with Some server => poll_id_ server = poll_id | None => True end ->
  let key := get_poll_database_key poll_id in
  exists st' poll',
    on_get_poll G st poll_id poll_server (Some results) = Done (poll_id, st') /\
    get_poll st' poll_id = Some poll' /\
    let announced :=
      trace st'
      = trace st
        ++ (EvUpdateMessageContent <$> elements (default ∅ (poll_messages_ st !! poll_id)))
        ++ (if use_message_db G then [EvPmcSet key (log_event_store poll')] else []) /\
      (use_message_db G = true -> sqlite_pmc st' !! key = Some (log_event_store poll')) in
    ((poll' = poll /\ st' = st) \/ announced) /\
    (poll' <> poll -> announced).
Proof.
  intros Hpoll Hvalid Hlocal Hsame key.
  rewrite (on_get_poll_present _ _ _ _ _ _ Hpoll Hvalid Hlocal Hsame).
  pose proof (merged_flag poll poll_server results) as Hflag.
  unfold on_get_poll_merge. unfold merged in Hflag.
  destruct (match poll_server with
            | Some server => on_get_poll_merge_poll poll server false
            | None => (poll, false)
            end) as [poll1 c1].
  destruct (on_get_poll_merge_results poll1 results c1) as [poll2 c2]. simpl in Hflag.
  destruct c2.
  - unfold save_poll. rewrite Hlocal. simpl. fold key.
    assert (forall st',
              get_poll st' poll_id = Some poll2 ->
              trace st'
              = trace st
                ++ (EvUpdateMessageContent
                      <$> elements (default ∅ (poll_messages_ st !! poll_id)))
                ++ (if use_message_db G then [EvPmcSet key (log_event_store poll2)] else [])
              ->
              (use_message_db G = true ->
               sqlite_pmc st' !! key = Some (log_event_store poll2)) ->
              exists poll',
                get_poll st' poll_id = Some poll' /\
                ((poll' = poll /\ st' = st) \/
                 (trace st'
                  = trace st
                    ++ (EvUpdateMessageContent
                          <$> elements (default ∅ (poll_messages_ st !! poll_id)))
                    ++ (if use_message_db G
                        then [EvPmcSet key (log_event_store poll')] else []) /\
                  (use_message_db G = true ->
                   sqlite_pmc st' !! key = Some (log_event_store poll')))) /\
                (poll' <> poll ->
                 trace st'
                 = trace st
                   ++ (EvUpdateMessageContent
                         <$> elements (default ∅ (poll_messages_ st !! poll_id)))
                   ++ (if use_message_db G
                       then [EvPmcSet key (log_event_store poll')] else []) /\
                 (use_message_db G = true ->
                  sqlite_pmc st' !! key = Some (log_event_store poll')))) as Hdone.
    { intros st' Hstored Htrace Hstore. exists poll2. split; [done|]. split; [by right|done]. }
    destruct (use_message_db G) eqn:Hdb; simpl.
    + eexists. destruct (Hdone (emit (set_sqlite_pmc (notify_on_poll_update
                 (set_polls st (<[poll_id := poll2]> (polls_ st))) poll_id)
                 (<[key := log_event_store poll2]> (sqlite_pmc (notify_on_poll_update
                 (set_polls st (<[poll_id := poll2]> (polls_ st))) poll_id))))
                 [EvPmcSet key (log_event_store poll2)])) as (poll' & Hp & Hrest).
      * unfold get_poll. simpl. rewrite polls_notify_on_poll_update. simpl.
        apply lookup_insert_eq.
      * simpl. rewrite trace_notify_on_poll_update. simpl. by rewrite <- app_assoc.
      * intros _. simpl. apply lookup_insert_eq.
      * exists poll'. split; [reflexivity|]. by split.
    + eexists. destruct (Hdone (notify_on_poll_update
                 (set_polls st (<[poll_id := poll2]> (polls_ st))) poll_id))
        as (poll' & Hp & Hrest).
      * unfold get_poll. rewrite polls_notify_on_poll_update. simpl.
        apply lookup_insert_eq.
      * rewrite trace_notify_on_poll_update. simpl. by rewrite app_nil_r.
      * done.
      * exists poll'. split; [reflexivity|]. by split.
  - specialize (Hflag eq_refl). subst poll2.
    exists (set_polls st (<[poll_id := poll]> (polls_ st))), poll.
    split; [done|]. unfold get_poll in *. simpl. rewrite lookup_insert_eq.
    split; [done|]. split; [|done]. left. split; [done|].
    by rewrite insert_id, set_polls_id.
Qed.

(** ** The key-value store *)

Lemma get_poll_database_key_inj poll_id1 poll_id2 :
  get_poll_database_key poll_id1 = get_poll_database_key poll_id2 -> poll_id1 = poll_id2.
Proof.
  unfold get_poll_database_key. intros Heq.
  apply (inj (String.append "poll")) in Heq. by apply (inj pretty) in Heq.
Qed.

Lemma store_step_same st st' : sqlite_pmc st' = sqlite_pmc st -> store_step st st'.
Proof. intros Heq key Hne. by rewrite Heq in Hne. Qed.

Lemma store_step_trans st1 st2 st3 :
  store_step st1 st2 -> store_step st2 st3 -> store_step st1 st3.
Proof.
  intros H12 H23 key Hne.
  destruct (decide (sqlite_pmc st2 !! key = sqlite_pmc st1 !! key)) as [Heq|Hne'].
  - apply H23. by rewrite Heq.
  - by apply H12.
Qed.

Lemma store_step_save_poll G st poll poll_id st' :
  save_poll G st poll poll_id = Done st' -> store_step st st'.
Proof.
  unfold save_poll. destruct (is_local_poll_id poll_id) eqn:Hlocal; simpl; [done|].
  destruct (negb (use_message_db G)); intros [= <-]; [by apply store_step_same|].
  intros key Hne. simpl in Hne. exists poll_id. split; [done|].
  destruct (decide (get_poll_database_key poll_id = key)) as [|Hother]; [done|].
  by rewrite lookup_insert_ne in Hne.
Qed.

Lemma sqlite_notify_on_poll_update st poll_id :
  sqlite_pmc (notify_on_poll_update st poll_id) = sqlite_pmc st.
Proof. apply notify_on_poll_update_frame. Qed.

Lemma sqlite_do_set_poll_answer G st poll_id full_message_id options logevent_id promise st' :
  do_set_poll_answer G st poll_id full_message_id options logevent_id promise = Done st' ->
  sqlite_pmc st' = sqlite_pmc st.
Proof.
  intros Hrun. apply do_set_poll_answer_spec in Hrun as [[_ ->]|(? & ? & ? & ? & -> & _)]; done.
Qed.

Lemma sqlite_set_poll_answer G st poll_id full_message_id option_ids promise st' :
  set_poll_answer G st poll_id full_message_id option_ids promise = Done st' ->
  sqlite_pmc st' = sqlite_pmc st.
Proof.
  unfold set_poll_answer.
  destruct (1 <? length option_ids)%nat; [by intros [= <-]|].
  destruct (is_local_poll_id poll_id); [by intros [= <-]|].
  destruct (get_poll st poll_id) as [poll|]; [|done].
  destruct (is_closed poll); [by intros [= <-]|].
  destruct (set_poll_answer_loop (options poll) option_ids []); [|by intros [= <-]].
  apply sqlite_do_set_poll_answer.
Qed.

Lemma sqlite_on_set_poll_answer G st poll_id generation result st' :
  on_set_poll_answer G st poll_id generation result = Done st' ->
  sqlite_pmc st' = sqlite_pmc st.
Proof.
  unfold on_set_poll_answer.
  destruct (close_flag G && is_error result); [by intros [= <-]|].
  destruct (pending_answers_ st !! poll_id) as [pa|]; [|by intros [= <-]].
  destruct (negb (bool_decide (promises_ pa = []))); simpl; [|done].
  destruct (negb (generation_ pa =? generation)); [by intros [= <-]|].
  intros [= <-]. by destruct (negb (logevent_id_ pa =? 0)).
Qed.

Lemma sqlite_on_binlog_events G st events st' :
  on_binlog_events G st events = Done st' -> sqlite_pmc st' = sqlite_pmc st.
Proof.
  revert st. induction events as [|event rest IH]; intros st; simpl; [by intros [= <-]|].
  destruct (type_ event); [|done].
  destruct (negb (use_message_db G)); simpl.
  - intros Hrest. by rewrite (IH _ Hrest).
  - destruct (log_event_parse_answer (data_ event)) as [log_event|]; [|done].
    destruct (do_set_poll_answer G st _ _ _ _ _) as [st1|] eqn:Hstep; simpl; [|done].
    intros Hrest. rewrite (IH _ Hrest). by eapply sqlite_do_set_poll_answer.
Qed.

Lemma store_step_on_get_poll_merge G st poll_id poll poll_server poll_results ret st' :
  on_get_poll_merge G st poll_id poll poll_server poll_results = Done (ret, st') ->
  store_step st st'.
Proof.
  unfold on_get_poll_merge.
  destruct (match poll_server with Some _ => _ | None => _ end) as [poll1 c1].
  destruct poll_results as [results|]; [|done].
  destruct (on_get_poll_merge_results poll1 results c1) as [poll2 c2].
  destruct c2; [|intros [= <- <-]; by apply store_step_same].
  destruct (save_poll G _ poll2 poll_id) as [st2|] eqn:Hsave; simpl; [|done].
  intros [= <- <-]. apply store_step_save_poll in Hsave.
  eapply store_step_trans; [|exact Hsave].
  apply store_step_same. by rewrite sqlite_notify_on_poll_update.
Qed.

Lemma store_step_run G st op st' : run G st op = Done st' -> store_step st st'.
Proof.
  destruct op; simpl.
  - unfold create_poll. simpl. destruct (is_local_poll_id _); simpl; [|done].
    case_bool_decide; simpl; [|done]. intros [= <-]. by apply store_step_same.
  - unfold register_poll. destruct (have_poll st poll_id); simpl; [|done].
    intros [= <-]. by apply store_step_same.
  - unfold unregister_poll. destruct (have_poll st poll_id); simpl; [|done].
    intros [= <-]. by apply store_step_same.
  - unfold have_poll_force.
    destruct (get_poll_force G st poll_id) as [[found st1]|] eqn:Hforce; simpl; [|done].
    intros [= <-]. apply store_step_same. by apply get_poll_force_frame in Hforce as [? _].
  - intros Hrun. apply store_step_same. by eapply sqlite_set_poll_answer.
  - intros [= <-]. apply store_step_same. unfold SetPollAnswerQuery_send.
    destruct input_peer; simpl; [|done]. by destruct (pending_answers_ st !! poll_id).
  - intros Hrun. apply store_step_same. by eapply sqlite_on_set_poll_answer.
  - unfold close_poll. destruct (get_poll_editable st poll_id) as [poll|]; [|done].
    destruct (is_closed poll); [intros [= <-]; by apply store_step_same|].
    destruct (negb (is_local_poll_id poll_id)).
    + intros Hsave. apply store_step_save_poll in Hsave.
      eapply store_step_trans; [|exact Hsave].
      apply store_step_same. by rewrite sqlite_notify_on_poll_update.
    + intros [= <-]. apply store_step_same. by rewrite sqlite_notify_on_poll_update.
  - destruct (on_get_poll G st poll_id poll_server poll_results) as [[ret st1]|] eqn:Hrun;
      simpl; [|done].
    intros [= <-]. revert Hrun. unfold on_get_poll.
    set (pid := on_get_poll_id poll_id poll_server).
    destruct (negb (PollId_is_valid pid) || is_local_poll_id pid);
      [intros [= <- <-]; by apply store_step_same|].
    destruct (match poll_server with Some _ => _ | None => _ end);
      [intros [= <- <-]; by apply store_step_same|].
    destruct (get_poll_force G st pid) as [[found stA]|] eqn:Hforce; simpl; [|done].
    apply get_poll_force_frame in Hforce as [Hdb _].
    destruct found as [found|].
    + intros Hmerge. apply store_step_on_get_poll_merge in Hmerge.
      eapply store_step_trans; [|exact Hmerge]. by apply store_step_same.
    + destruct poll_server as [server|];
        [|intros [= <- <-]; by apply store_step_same].
      case_bool_decide; simpl; [|done].
      intros Hmerge. apply store_step_on_get_poll_merge in Hmerge.
      eapply store_step_trans; [|exact Hmerge]. by apply store_step_same.
  - intros Hrun. apply store_step_same. by eapply sqlite_on_binlog_events.
Qed.

(** X9: local polls are never persisted.  Over any sequence of calls that
    returns, a key of the store changes only if it is the key of a poll id
    that is not local; the key of a local id keeps whatever value it had. *)
Theorem local_polls_are_not_stored use_db st calls st' local_id :
  run_calls use_db st calls = Done st' ->
  is_local_poll_id local_id = true ->
  store_step st st' /\
  sqlite_pmc st' !! get_poll_database_key local_id
  = sqlite_pmc st !! get_poll_database_key local_id.
Proof.
  intros Hrun Hlocal.
  assert (store_step st st') as Hstep.
  { revert st Hrun. induction calls as [|[close op] rest IH]; intros st; simpl.
    - intros [= <-]. by apply store_step_same.
    - destruct (run (mkGlobal use_db close) st op) as [st1|] eqn:Hop; simpl; [|done].
      intros Hrest. eapply store_step_trans; [by eapply store_step_run|by apply IH]. }
  split; [done|].
  destruct (decide (sqlite_pmc st' !! get_poll_database_key local_id
                    = sqlite_pmc st !! get_poll_database_key local_id)) as [|Hne]; [done|].
  destruct (Hstep _ Hne) as (poll_id & Hserver & Hkey).
  apply get_poll_database_key_inj in Hkey. congruence.
Qed.

(** X10: a saved poll survives a restart.  When the message database is
    in use and the codec reads back what it wrote for this poll (the
    encoding being non-empty, since an empty value reads as absence),
    [save_poll] followed by [get_poll_force] in any state that has the same
    store, no such poll in the registry and no load recorded for the id
    returns the saved poll, puts it in the registry under that id only and
    writes nothing. *)
Theorem save_poll_survives_restart G st poll poll_id st1 restarted :
  use_message_db G = true ->
  save_poll G st poll poll_id = Done st1 ->
  log_event_parse (log_event_store poll) = Some poll ->
  log_event_store poll <> "" ->
  sqlite_pmc restarted = sqlite_pmc st1 ->
  get_poll restarted poll_id = None ->
  poll_id ∉ loaded_from_database_polls_ restarted ->
  exists st2,
    get_poll_force G restarted poll_id = Done (Some poll, st2) /\
    polls_ st2 = <[poll_id := poll]> (polls_ restarted) /\
    loaded_from_database_polls_ st2 = {[poll_id]} ∪ loaded_from_database_polls_ restarted /\
    sqlite_pmc st2 = sqlite_pmc restarted /\
    pending_answers_ st2 = pending_answers_ restarted /\
    binlog st2 = binlog restarted /\
    trace st2 = trace restarted.
Proof.
  intros Hdb Hsave Hcodec Hvalue Hstore Hnone Hfresh.
  revert Hsave. unfold save_poll.
  destruct (is_local_poll_id poll_id); simpl; [done|].
  rewrite Hdb. simpl. intros [= <-]. simpl in Hstore.
  unfold get_poll_force, get_poll_editable. unfold get_poll in Hnone. rewrite Hnone, Hdb. simpl.
  rewrite bool_decide_eq_false_2 by done.
  rewrite Hstore, lookup_insert_eq. simpl.
  unfold on_load_poll_from_database, have_poll, get_poll. simpl. rewrite Hnone. simpl.
  rewrite bool_decide_eq_false_2 by done. simpl. rewrite Hcodec. simpl.
  eexists. split; [by rewrite lookup_insert_eq|]. done.
Qed.

(** The set of ids looked up in the store only grows. *)
Lemma loaded_notify_on_poll_update st poll_id :
  loaded_from_database_polls_ (notify_on_poll_update st poll_id)
  = loaded_from_database_polls_ st.
Proof. apply notify_on_poll_update_frame. Qed.

Lemma loaded_save_poll G st poll poll_id st' :
  save_poll G st poll poll_id = Done st' ->
  loaded_from_database_polls_ st' = loaded_from_database_polls_ st.
Proof.
  unfold save_poll. destruct (is_local_poll_id poll_id); simpl; [done|].
  by destruct (negb (use_message_db G)); intros [= <-].
Qed.

Lemma loaded_do_set_poll_answer G st poll_id full_message_id options logevent_id promise st' :
  do_set_poll_answer G st poll_id full_message_id options logevent_id promise = Done st' ->
  loaded_from_database_polls_ st' = loaded_from_database_polls_ st.
Proof.
  intros Hrun. apply do_set_poll_answer_spec in Hrun as [[_ ->]|(? & ? & ? & ? & -> & _)]; done.
Qed.

Lemma loaded_get_poll_force G st poll_id found st' id :
  get_poll_force G st poll_id = Done (found, st') ->
  id ∈ loaded_from_database_polls_ st -> id ∈ loaded_from_database_polls_ st'.
Proof.
  unfold get_poll_force. destruct (get_poll_editable st poll_id); [by intros [= <- <-]|].
  destruct (negb (use_message_db G)); [by intros [= <- <-]|].
  case_bool_decide; [by intros [= <- <-]|].
  unfold on_load_poll_from_database. simpl.
  destruct (negb (have_poll _ poll_id)); simpl; [|done].
  destruct (negb (bool_decide _)).
  - destruct (log_event_parse _); simpl; [|done]. intros [= <- <-]. simpl. set_solver.
  - simpl. intros [= <- <-]. simpl. set_solver.
Qed.

Lemma loaded_on_get_poll_merge G st poll_id poll poll_server poll_results ret st' :
  on_get_poll_merge G st poll_id poll poll_server poll_results = Done (ret, st') ->
  loaded_from_database_polls_ st' = loaded_from_database_polls_ st.
Proof.
  unfold on_get_poll_merge.
  destruct (match poll_server with Some _ => _ | None => _ end) as [poll1 c1].
  destruct poll_results as [results|]; [|done].
  destruct (on_get_poll_merge_results poll1 results c1) as [poll2 c2].
  destruct c2; [|by intros [= <- <-]].
  destruct (save_poll G _ poll2 poll_id) as [st2|] eqn:Hsave; simpl; [|done].
  intros [= <- <-]. apply loaded_save_poll in Hsave.
  by rewrite Hsave, loaded_notify_on_poll_update.
Qed.

Lemma loaded_on_binlog_events G st events st' :
  on_binlog_events G st events = Done st' ->
  loaded_from_database_polls_ st' = loaded_from_database_polls_ st.
Proof.
  revert st. induction events as [|event rest IH]; intros st; simpl; [by intros [= <-]|].
  destruct (type_ event); [|done].
  destruct (negb (use_message_db G)); simpl.
  - intros Hrest. by rewrite (IH _ Hrest).
  - destruct (log_event_parse_answer (data_ event)) as [log_event|]; [|done].
    destruct (do_set_poll_answer G st _ _ _ _ _) as [st1|] eqn:Hstep; simpl; [|done].
    intros Hrest. rewrite (IH _ Hrest). by eapply loaded_do_set_poll_answer.
Qed.

Lemma loaded_run G st op st' id :
  run G st op = Done st' ->
  id ∈ loaded_from_database_polls_ st -> id ∈ loaded_from_database_polls_ st'.
Proof.
  destruct op; simpl.
  - unfold create_poll. simpl. destruct (is_local_poll_id _); simpl; [|done].
    case_bool_decide; simpl; [|done]. by intros [= <-].
  - unfold register_poll. destruct (have_poll st poll_id); simpl; [|done]. by intros [= <-].
  - unfold unregister_poll. destruct (have_poll st poll_id); simpl; [|done]. by intros [= <-].
  - unfold have_poll_force.
    destruct (get_poll_force G st poll_id) as [[found st1]|] eqn:Hforce; simpl; [|done].
    intros [= <-]. by eapply loaded_get_poll_force.
  - unfold set_poll_answer.
    destruct (1 <? length option_ids)%nat; [by intros [= <-]|].
    destruct (is_local_poll_id poll_id); [by intros [= <-]|].
    destruct (get_poll st poll_id) as [poll|]; [|done].
    destruct (is_closed poll); [by intros [= <-]|].
    destruct (set_poll_answer_loop (options poll) option_ids []); [|by intros [= <-]].
    intros Hrun. by rewrite (loaded_do_set_poll_answer _ _ _ _ _ _ _ _ Hrun).
  - intros [= <-]. unfold SetPollAnswerQuery_send.
    destruct input_peer; simpl; [|done]. by destruct (pending_answers_ st !! poll_id).
  - unfold on_set_poll_answer.
    destruct (close_flag G && is_error result); [by intros [= <-]|].
    destruct (pending_answers_ st !! poll_id) as [pa|]; [|by intros [= <-]].
    destruct (negb (bool_decide (promises_ pa = []))); simpl; [|done].
    destruct (negb (generation_ pa =? generation)); [by intros [= <-]|].
    intros [= <-]. by destruct (negb (logevent_id_ pa =? 0)).
  - unfold close_poll. destruct (get_poll_editable st poll_id) as [poll|]; [|done].
    destruct (is_closed poll); [by intros [= <-]|].
    destruct (negb (is_local_poll_id poll_id)).
    + intros Hsave. apply loaded_save_poll in Hsave.
      by rewrite Hsave, loaded_notify_on_poll_update.
    + intros [= <-]. by rewrite loaded_notify_on_poll_update.
  - destruct (on_get_poll G st poll_id poll_server poll_results) as [[ret st1]|] eqn:Hrun;
      simpl; [|done].
    intros [= <-]. revert Hrun. unfold on_get_poll.
    set (pid := on_get_poll_id poll_id poll_server).
    destruct (negb (PollId_is_valid pid) || is_local_poll_id pid); [by intros [= <- <-]|].
    destruct (match poll_server with Some _ => _ | None => _ end); [by intros [= <- <-]|].
    destruct (get_poll_force G st pid) as [[found stA]|] eqn:Hforce; simpl; [|done].
    intros Hrun Hin. apply (loaded_get_poll_force _ _ _ _ _ id) in Hforce; [|done].
    destruct found as [found|].
    + apply loaded_on_get_poll_merge in Hrun. by rewrite Hrun.
    + destruct poll_server as [server|]; [|by injection Hrun as <- <-].
      revert Hrun. case_bool_decide; simpl; [|done].
      intros Hrun. apply loaded_on_get_poll_merge in Hrun. by rewrite Hrun.
  - intros Hrun. by rewrite (loaded_on_binlog_events _ _ _ _ Hrun).
Qed.

Lemma loaded_run_calls use_db st calls st' id :
  run_calls use_db st calls = Done st' ->
  id ∈ loaded_from_database_polls_ st -> id ∈ loaded_from_database_polls_ st'.
Proof.
  revert st. induction calls as [|[close op] rest IH]; intros st; simpl.
  - by intros [= <-].
  - destruct (run (mkGlobal use_db close) st op) as [st1|] eqn:Hop; simpl; [|done].
    intros Hrest Hin. apply (IH st1); [done|]. by eapply loaded_run.
Qed.

(** Once an id was looked up in the store, a lookup answers from the
    registry and leaves the state alone. *)
Lemma get_poll_force_loaded G st poll_id :
  poll_id ∈ loaded_from_database_polls_ st ->
  get_poll_force G st poll_id = Done (get_poll st poll_id, st).
Proof.
  intros Hin. unfold get_poll_force, get_poll_editable, get_poll.
  destruct (polls_ st !! poll_id); [done|].
  destruct (negb (use_message_db G)); [done|]. by rewrite bool_decide_eq_true_2.
Qed.

(** X11: a miss is remembered.  With the message database in use, looking
    up an id that is neither in the registry nor in the store (or stored as
    the empty string) finds nothing and changes nothing but the set of
    looked-up ids.  From then on the store is not read for that id again:
    a lookup right away finds nothing whatever the store holds, and after
    any sequence of calls a lookup answers from the registry alone and
    leaves the state as it is, so it finds the poll only if a call has put
    it in the registry meanwhile. *)
Theorem get_poll_force_remembers_miss G st poll_id :
  use_message_db G = true ->
  get_poll st poll_id = None ->
  default "" (sqlite_pmc st !! get_poll_database_key poll_id) = "" ->
  exists st1,
    get_poll_force G st poll_id = Done (None, st1) /\
    polls_ st1 = polls_ st /\
    sqlite_pmc st1 = sqlite_pmc st /\
    trace st1 = trace st /\
    (forall store,
       get_poll_force G (set_sqlite_pmc st1 store) poll_id
       = Done (None, set_sqlite_pmc st1 store)) /\
    forall G' use_db calls st2,
      run_calls use_db st1 calls = Done st2 ->
      get_poll_force G' st2 poll_id = Done (get_poll st2 poll_id, st2).
Proof.
  intros Hdb Hnone Hvalue.
  unfold get_poll in Hnone.
  assert (exists st1,
            get_poll_force G st poll_id = Done (None, st1) /\
            polls_ st1 = polls_ st /\ sqlite_pmc st1 = sqlite_pmc st /\
            trace st1 = trace st /\
            poll_id ∈ loaded_from_database_polls_ st1) as (st1 & Hrun & Hpolls & ? & ? & Hin).
  { unfold get_poll_force, get_poll_editable. rewrite Hnone, Hdb. simpl.
    case_bool_decide as Hloaded; [by exists st|].
    rewrite Hvalue. unfold on_load_poll_from_database, have_poll, get_poll. simpl.
    rewrite Hnone. simpl.
    eexists. split; [by rewrite Hnone|]. repeat (split; [done|]). simpl. set_solver. }
  exists st1. repeat (split; [done|]). split.
  - intros store.
    rewrite (get_poll_force_loaded G (set_sqlite_pmc st1 store) poll_id) by done.
    unfold get_poll. simpl. by rewrite Hpolls, Hnone.
  - intros G' use_db calls st2 Hcalls. apply get_poll_force_loaded.
    by eapply loaded_run_calls.
Qed.

(** ** Closing a poll *)

Lemma run_calls_keeps_closed use_db st calls st' poll_id poll :
  get_poll st poll_id = Some poll ->
  is_closed poll = true ->
  Forall (fun call => ~ clears_closed poll_id (snd call)) calls ->
  run_calls use_db st calls = Done st' ->
  exists poll', get_poll st' poll_id = Some poll' /\ is_closed poll' = true.
Proof.
  intros Hpoll Hclosed Hcalls. revert st poll Hpoll Hclosed.
  induction Hcalls as [|[close op] rest Hop Hrest IH]; intros st poll Hpoll Hclosed; simpl.
  - intros [= <-]. by exists poll.
  - destruct (run (mkGlobal use_db close) st op) as [st1|] eqn:Hrun; simpl; [|done].
    destruct (run_keeps_closed _ _ _ _ _ _ Hpoll Hclosed Hop Hrun) as (poll1 & Hpoll1 & Hc1).
    by apply (IH st1 poll1).
Qed.

(** On a closed poll, closing does nothing and a vote for at most one
    option is refused. *)
Lemma closed_poll_refuses G st poll_id poll :
  get_poll st poll_id = Some poll ->
  is_closed poll = true ->
  close_poll G st poll_id = Done st /\
  forall full_message_id option_ids promise,
    (length option_ids <= 1)%nat ->
    set_poll_answer G st poll_id full_message_id option_ids promise
    = Done (emit st [EvSetError promise
                       (if is_local_poll_id poll_id
                        then mkStatus 5 "Poll can't be answered"
                        else mkStatus 400 "Can't answer closed poll")]).
Proof.
  intros Hpoll Hclosed. split.
  - unfold close_poll, get_poll_editable. unfold get_poll in Hpoll. by rewrite Hpoll, Hclosed.
  - intros full_message_id option_ids promise Hone. unfold set_poll_answer.
    replace (1 <? length option_ids)%nat with false
      by (symmetry; apply Nat.ltb_ge; lia).
    destruct (is_local_poll_id poll_id); [done|]. by rewrite Hpoll, Hclosed.
Qed.

(** X12: closing an open poll sets [is_closed] and nothing else in the
    poll, notifies the registered messages and, for a server poll with the
    message database in use, saves the closed poll; other polls and the
    pending answers are untouched.  From then on, through every sequence of
    calls that returns and contains no [on_get_poll] with a server poll for
    this id without the [CLOSED] flag (that call re-opens the poll),
    closing again does nothing and a vote for at most one option is
    refused: with code 400 for a server poll, with code 5 for a local
    one. *)
Theorem close_poll_closes G st poll_id poll :
  get_poll st poll_id = Some poll ->
  is_closed poll = false ->
  let closed := mkPoll (question poll) (options poll) (total_voter_count poll) true in
  exists st',
    close_poll G st poll_id = Done st' /\
    polls_ st' = <[poll_id := closed]> (polls_ st) /\
    pending_answers_ st' = pending_answers_ st /\
    trace st'
    = trace st
      ++ (EvUpdateMessageContent <$> elements (default ∅ (poll_messages_ st !! poll_id)))
      ++ (if negb (is_local_poll_id poll_id) && use_message_db G
          then [EvPmcSet (get_poll_database_key poll_id) (log_event_store closed)]
          else []) /\
    sqlite_pmc st'
    = (if negb (is_local_poll_id poll_id) && use_message_db G
       then <[get_poll_database_key poll_id := log_event_store closed]> (sqlite_pmc st)
       else sqlite_pmc st) /\
    forall G' use_db calls st2,
      Forall (fun call => ~ clears_closed poll_id (snd call)) calls ->
      run_calls use_db st' calls = Done st2 ->
      close_poll G' st2 poll_id = Done st2 /\
      forall full_message_id option_ids promise,
        (length option_ids <= 1)%nat ->
        set_poll_answer G' st2 poll_id full_message_id option_ids promise
        = Done (emit st2 [EvSetError promise
                            (if is_local_poll_id poll_id
                             then mkStatus 5 "Poll can't be answered"
                             else mkStatus 400 "Can't answer closed poll")]).
Proof.
  intros Hpoll Hopen closed.
  assert (exists st',
    close_poll G st poll_id = Done st' /\
    polls_ st' = <[poll_id := closed]> (polls_ st) /\
    pending_answers_ st' = pending_answers_ st /\
    trace st'
    = trace st
      ++ (EvUpdateMessageContent <$> elements (default ∅ (poll_messages_ st !! poll_id)))
      ++ (if negb (is_local_poll_id poll_id) && use_message_db G
          then [EvPmcSet (get_poll_database_key poll_id) (log_event_store closed)]
          else []) /\
    sqlite_pmc st'
    = (if negb (is_local_poll_id poll_id) && use_message_db G
       then <[get_poll_database_key poll_id := log_event_store closed]> (sqlite_pmc st)
       else sqlite_pmc st)) as (st' & Hrun & Hpolls & Hpending & Htrace & Hstore).
  { unfold close_poll, get_poll_editable. unfold get_poll in Hpoll. rewrite Hpoll, Hopen.
    fold closed.
    set (st1 := notify_on_poll_update (set_polls st (<[poll_id := closed]> (polls_ st)))
                  poll_id).
    assert (polls_ st1 = <[poll_id := closed]> (polls_ st)) as Hpolls1
      by (unfold st1; by rewrite polls_notify_on_poll_update).
    assert (pending_answers_ st1 = pending_answers_ st) as Hpending1
      by (unfold st1; by rewrite pending_answers_notify_on_poll_update).
    assert (trace st1 = trace st ++ (EvUpdateMessageContent
              <$> elements (default ∅ (poll_messages_ st !! poll_id)))) as Htrace1
      by (unfold st1; by rewrite trace_notify_on_poll_update).
    assert (sqlite_pmc st1 = sqlite_pmc st) as Hstore1
      by (unfold st1; by rewrite sqlite_notify_on_poll_update).
    unfold save_poll.
    destruct (is_local_poll_id poll_id) eqn:Hlocal; simpl.
    - exists st1. by rewrite app_nil_r.
    - destruct (use_message_db G); simpl.
      + eexists. split; [done|]. simpl. by rewrite Htrace1, Hstore1, <- app_assoc.
      + exists st1. by rewrite app_nil_r. }
  exists st'. repeat (split; [done|]).
  intros G' use_db calls st2 Hcalls Hlater.
  destruct (run_calls_keeps_closed use_db st' calls st2 poll_id closed)
    as (poll2 & Hpoll2 & Hclosed2); [|done|done|done|].
  { unfold get_poll. by rewrite Hpolls, lookup_insert_eq. }
  by apply (closed_poll_refuses G' st2 poll_id poll2).
Qed.

(** ** Registered messages *)

(** X13: the messages of a poll form a set.  Registering a message for a
    known poll makes the next change of the poll notify exactly the
    messages registered before together with the new one; registering it
    again changes nothing; unregistering it leaves exactly the other
    messages to be notified.  Polls, pending answers and trace are untouched
    by both calls. *)
Theorem register_poll_notifies st poll_id full_message_id :
  have_poll st poll_id = true ->
  let before := default ∅ (poll_messages_ st !! poll_id) in
  exists st1 st2,
    register_poll st poll_id full_message_id = Done st1 /\
    register_poll st1 poll_id full_message_id = Done st1 /\
    unregister_poll st1 poll_id full_message_id = Done st2 /\
    trace (notify_on_poll_update st1 poll_id)
    = trace st ++ (EvUpdateMessageContent <$> elements ({[full_message_id]} ∪ before)) /\
    trace (notify_on_poll_update st2 poll_id)
    = trace st ++ (EvUpdateMessageContent <$> elements (before ∖ {[full_message_id]})) /\
    (forall other, other <> poll_id ->
       poll_messages_ st2 !! other = poll_messages_ st !! other /\
       poll_messages_ st1 !! other = poll_messages_ st !! other) /\
    polls_ st1 = polls_ st /\ polls_ st2 = polls_ st /\
    pending_answers_ st1 = pending_answers_ st /\ pending_answers_ st2 = pending_answers_ st.
Proof.
  intros Hhave before.
  assert (forall st0, polls_ st0 = polls_ st -> have_poll st0 poll_id = true) as Hkeep.
  { intros st0 Hpolls. unfold have_poll, get_poll in *. by rewrite Hpolls. }
  unfold register_poll at 1. rewrite Hhave. simpl.
  eexists _, _. split; [done|].
  split.
  { unfold register_poll. rewrite Hkeep by done. simpl. f_equal.
    apply State_ext; try done. simpl. rewrite lookup_insert_eq. simpl.
    rewrite insert_insert_eq. f_equal. fold before.
    by rewrite (assoc_L (∪)), (idemp_L (∪)). }
  split.
  { unfold unregister_poll. by rewrite Hkeep. }
  rewrite !trace_notify_on_poll_update. simpl. rewrite !lookup_insert_eq. simpl.
  fold before.
  split; [done|]. split.
  { do 3 f_equal. apply set_eq. intros message.
    rewrite !elem_of_difference, elem_of_union. tauto. }
  split; [|done].
  intros other Hother. by rewrite !lookup_insert_ne.
Qed.

(** ** Rendering *)

Lemma get_poll_object_loop_options chosen_options poll_options voter_count_diff :
  fst (get_poll_object_loop chosen_options poll_options voter_count_diff)
  = pending_option_object chosen_options <$> poll_options.
Proof.
  revert voter_count_diff.
  induction poll_options as [|poll_option rest IH]; intros diff; simpl; [done|].
  specialize (IH (if is_chosen poll_option then -1 else diff)).
  destruct (get_poll_object_loop chosen_options rest _) as [objects diff'].
  simpl in *. by rewrite IH.
Qed.

(** X14: what a known poll looks like.  [get_poll_object] returns for
    every poll in the registry; question and closed flag are the stored
    ones and the options come in the stored order with the stored texts.
    Without a pending answer counts and choice are the confirmed ones and
    so is the total.  With a pending answer an option is shown as chosen
    exactly when its key is among the pending keys, whatever the confirmed
    choice was, and its count is the confirmed one without the confirmed
    vote and with the pending one. *)
Theorem get_poll_object_shows_pending st poll_id poll :
  get_poll st poll_id = Some poll ->
  exists object,
    get_poll_object st poll_id = Done object /\
    api_question object = question poll /\
    api_is_closed object = is_closed poll /\
    api_text <$> api_options object = text <$> options poll /\
    match pending_answers_ st !! poll_id with
    | None =>
      api_options object = get_poll_option_object <$> options poll /\
      api_total_voter_count object = int32 (total_voter_count poll)
    | Some pending_answer =>
      api_options object = pending_option_object (options_ pending_answer) <$> options poll /\
      forall pos poll_option,
        options poll !! pos = Some poll_option ->
        exists shown,
          api_options object !! pos = Some shown /\
          (api_is_chosen shown = true <-> data poll_option ∈ options_ pending_answer)
    end.
Proof.
  intros Hpoll. unfold get_poll_object. rewrite Hpoll.
  destruct (pending_answers_ st !! poll_id) as [pending_answer|].
  - pose proof (get_poll_object_loop_options (options_ pending_answer) (options poll) 0) as Hopts.
    destruct (get_poll_object_loop _ _ _) as [objects diff]. simpl in Hopts. subst objects.
    eexists. split; [done|]. simpl. split; [done|]. split; [done|].
    split; [by rewrite <- list_fmap_compose|].
    split; [done|].
    intros pos poll_option Hpos. eexists. rewrite list_lookup_fmap, Hpos. simpl.
    split; [done|]. simpl. apply bool_decide_eq_true.
  - eexists. split; [done|]. simpl. split; [done|]. split; [done|].
    split; [by rewrite <- list_fmap_compose|]. split; [done|]. f_equal. lia.
Qed.

End Properties.

(** * Properties of TlsReaderByteFlow *)

Lemma lor_shiftl_8 (hi lo : Z) :
  0 <= hi -> is_byte lo -> Z.lor (Z.shiftl hi 8) lo = hi * 256 + lo.
Proof.
  intros Hhi [Hlo0 Hlo]. rewrite Z.shiftl_mul_pow2 by lia.
  change (2 ^ 8) with 256.
  rewrite <- Z.lxor_lor, <- Z.add_nocarry_lxor; [done| |].
  all: apply Z.bits_inj'; intros n Hn; rewrite Z.land_spec, Z.bits_0;
    destruct (Z.lt_ge_cases n 8) as [Hsmall|Hbig].
  all: try (replace (hi * 256) with (hi * 2 ^ 8) by lia;
            rewrite Z.mul_pow2_bits_low by lia; done).
  all: rewrite (Z.bits_above_log2 lo n), andb_false_r; [done|lia|].
  all: destruct (Z.eq_dec lo 0) as [->|]; [simpl; lia|];
    apply Z.lt_le_trans with 8; [apply Z.log2_lt_pow2; lia|lia].
Qed.

Lemma packet_length_bytes b0 b1 b2 b3 b4 rest :
  is_byte b3 -> is_byte b4 ->
  packet_length (b0 :: b1 :: b2 :: b3 :: b4 :: rest) = b3 * 256 + b4.
Proof. intros [? ?] ?. unfold packet_length. simpl. apply lor_shiftl_8; [lia|done]. Qed.

Lemma packet_length_record (payload rest : list Z) :
  Z.of_nat (length payload) < 65536 ->
  packet_length (take 5 (tls_record payload ++ rest)) = Z.of_nat (length payload).
Proof.
  intros Hlen. unfold tls_record. simpl.
  rewrite packet_length_bytes.
  - pose proof (Z.div_mod (Z.of_nat (length payload)) 256). lia.
  - split; [apply Z.div_pos; lia|apply Z.div_lt_upper_bound; lia].
  - apply Z.mod_pos_bound. lia.
Qed.

(** More fuel does not change the outcome. *)
Lemma loop_fuel_more fuel fuel' flow flow' :
  loop_fuel fuel flow = Some flow' -> (fuel <= fuel')%nat ->
  loop_fuel fuel' flow = Some flow'.
Proof.
  revert fuel' flow. induction fuel as [|fuel IH]; intros fuel' flow; [done|].
  destruct fuel' as [|fuel']; [lia|]. simpl.
  destruct (length (input_ flow) <? 5)%nat; [done|].
  destruct (negb _); [done|].
  destruct (2 ^ 14 <? _); [done|].
  destruct (Z.of_nat _ <? _); [done|].
  intros Hrun Hle. apply IH; [done|lia].
Qed.

(** The loop ends within as many iterations as there are bytes, plus one. *)
Lemma loop_fuel_enough fuel flow :
  (length (input_ flow) < fuel)%nat -> is_Some (loop_fuel fuel flow).
Proof.
  revert flow. induction fuel as [|fuel IH]; intros flow Hfuel; [lia|]. simpl.
  destruct (Nat.ltb_spec (length (input_ flow)) 5); [done|].
  destruct (negb _); [done|].
  destruct (2 ^ 14 <? _); [done|].
  destruct (Z.of_nat _ <? _); [done|].
  apply IH. simpl. rewrite !length_drop. lia.
Qed.

(** The loop as the code has it, without the bound. *)
Lemma loop_unfold flow :
  loop flow
  = if (length (input_ flow) <? 5)%nat then Some (set_need_size flow 5)
    else
      let buf := take 5 (input_ flow) in
      let it := drop 5 (input_ flow) in
      if negb (bool_decide (take 3 buf = [23; 3; 3])) then
        Some (close_input flow "Invalid bytes at the beginning of a packet (emulated tls)")
      else
        let len := packet_length buf in
        if 2 ^ 14 <? len then
          Some (close_input flow "Packet lenght is too big (emulated tls)")
        else if Z.of_nat (length it) <? len then Some (set_need_size flow (5 + len))
        else
          loop (mkFlow (drop (Z.to_nat len) it) (output_ flow ++ take (Z.to_nat len) it)
                       (need_size_ flow) (close_status_ flow)).
Proof.
  unfold loop at 1. cbn [loop_fuel].
  destruct (Nat.ltb_spec (length (input_ flow)) 5) as [|Hlong]; [done|].
  cbv zeta.
  destruct (negb _); [done|].
  destruct (2 ^ 14 <? _); [done|].
  destruct (Z.of_nat _ <? _); [done|].
  set (next := mkFlow _ _ _ _).
  assert (length (input_ next) + 5 <= length (input_ flow))%nat as Hshorter
    by (unfold next; simpl; rewrite !length_drop; lia).
  destruct (loop_fuel_enough (S (length (input_ next))) next) as [flow' Hrun]; [lia|].
  unfold loop. rewrite Hrun. apply (loop_fuel_more _ _ _ _ Hrun). lia.
Qed.

Lemma loop_terminates flow : is_Some (loop flow).
Proof. apply loop_fuel_enough. lia. Qed.

(** An induction principle that follows the iterations of the loop. *)
Lemma flow_ind (P : TlsReaderByteFlow -> Prop) :
  (forall flow,
     (forall next, (length (input_ next) < length (input_ flow))%nat -> P next) -> P flow) ->
  forall flow, P flow.
Proof.
  intros Hstep flow.
  remember (length (input_ flow)) as n eqn:Hn. revert flow Hn.
  induction n as [n IH] using lt_wf_ind. intros flow ->.
  apply Hstep. intros next Hlt. by apply (IH _ Hlt).
Qed.

(** Running the loop over complete records in front of [rest] is running it
    over [rest] with the payloads appended to the output. *)
Lemma loop_records payloads rest output need status :
  Forall (fun payload => Z.of_nat (length payload) <= 2 ^ 14) payloads ->
  loop (mkFlow (concat (tls_record <$> payloads) ++ rest) output need status)
  = loop (mkFlow rest (output ++ concat payloads) need status).
Proof.
  intros Hpayloads. revert output.
  induction Hpayloads as [|payload payloads Hlen _ IH]; intros output.
  { simpl. by rewrite app_nil_r. }
  rewrite loop_unfold. cbn [input_ output_ need_size_ close_status_].
  rewrite fmap_cons. cbn [concat]. rewrite <- app_assoc.
  set (tail := concat (tls_record <$> payloads) ++ rest).
  rewrite packet_length_record by lia.
  assert (drop 5 (tls_record payload ++ tail) = payload ++ tail) as -> by done.
  assert ((length (tls_record payload ++ tail) <? 5)%nat = false) as ->
    by (apply Nat.ltb_ge; unfold tls_record; simpl; lia).
  cbv zeta.
  assert (take 3 (take 5 (tls_record payload ++ tail)) = [23; 3; 3]) as -> by done.
  rewrite bool_decide_eq_true_2 by done. cbn [negb].
  destruct (Z.ltb_spec (2 ^ 14) (Z.of_nat (length payload))) as [|_]; [lia|].
  destruct (Z.ltb_spec (Z.of_nat (length (payload ++ tail))) (Z.of_nat (length payload)))
    as [Hshort|_]; [rewrite length_app in Hshort; lia|].
  rewrite Nat2Z.id, drop_app_length, take_app_length.
  rewrite IH. cbn [concat]. by rewrite app_assoc.
Qed.

(** X15: the loop returns; the bytes it took from the input are a sequence of
    records with payloads of at most 2^14 bytes, in order, and what it
    appended to the output are exactly their payloads: no byte is lost,
    reordered or invented, and a record is never consumed in part. *)
Theorem loop_consumes_records flow :
  Forall is_byte (input_ flow) ->
  exists flow' payloads,
    loop flow = Some flow' /\
    input_ flow = concat (tls_record <$> payloads) ++ input_ flow' /\
    output_ flow' = output_ flow ++ concat payloads /\
    Forall (fun payload => Z.of_nat (length payload) <= 2 ^ 14) payloads.
Proof.
  induction flow as [flow IH] using flow_ind. intros Hbytes.
  rewrite loop_unfold.
  destruct (Nat.ltb_spec (length (input_ flow)) 5) as [|Hlong].
  { exists (set_need_size flow 5), []. simpl. by rewrite app_nil_r. }
  cbv zeta.
  destruct (bool_decide (take 3 (take 5 (input_ flow)) = [23; 3; 3])) eqn:Hmagic; cbn [negb].
  2: { eexists (close_input flow _), []. simpl. by rewrite app_nil_r. }
  apply bool_decide_eq_true_1 in Hmagic.
  destruct (input_ flow) as [|b0 [|b1 [|b2 [|b3 [|b4 it]]]]] eqn:Hinput;
    simpl in Hlong; try lia.
  simpl in Hmagic. injection Hmagic as -> -> ->.
  assert (is_byte b3 /\ is_byte b4 /\ Forall is_byte it) as (Hb3 & Hb4 & Hit).
  { do 3 apply Forall_cons in Hbytes as [_ Hbytes].
    apply Forall_cons in Hbytes as [? Hbytes]. by apply Forall_cons in Hbytes as [? ?]. }
  cbn [take drop]. rewrite packet_length_bytes by done. rewrite !drop_0.
  set (len := b3 * 256 + b4).
  assert (0 <= len) as Hlen0 by (unfold len, is_byte in *; lia).
  destruct (Z.ltb_spec (2 ^ 14) len) as [|Hlen].
  { eexists (close_input flow _), []. simpl. by rewrite app_nil_r, ?Hinput. }
  destruct (Z.ltb_spec (Z.of_nat (length it)) len) as [|Henough].
  { eexists (set_need_size flow _), []. simpl. by rewrite app_nil_r, ?Hinput. }
  set (next := mkFlow _ _ _ _).
  destruct (IH next) as (flow' & payloads & Hrun & Hin & Hout & Hpayloads).
  { unfold next. simpl. rewrite length_drop. lia. }
  { unfold next. simpl. by apply Forall_drop. }
  exists flow', (take (Z.to_nat len) it :: payloads).
  assert (length (take (Z.to_nat len) it) = Z.to_nat len) as Htake
    by (rewrite length_take; lia).
  split; [done|]. split; [|split].
  - rewrite fmap_cons. cbn [concat]. unfold tls_record at 1. rewrite Htake, Z2Nat.id by done.
    rewrite <- !app_assoc, <- Hin. unfold next. cbn [input_].
    rewrite take_drop. cbn [app].
    assert (len / 256 = b3) as ->
      by (unfold len, is_byte in *; symmetry; apply (Z.div_unique _ _ _ b4); lia).
    assert (len mod 256 = b4) as ->
      by (unfold len, is_byte in *; symmetry; apply (Z.mod_unique _ _ b3); lia).
    done.
  - rewrite Hout. unfold next. cbn [output_ concat]. by rewrite <- app_assoc.
  - constructor; [|done]. rewrite Htake. lia.
Qed.

(** X16: round trip.  Records whose payloads have at most 2^14 bytes (16384
    included) are unwrapped completely; the input is used up and the flow
    waits for the five bytes of the next header. *)
Theorem loop_unwraps_records payloads output need status :
  Forall (fun payload => Z.of_nat (length payload) <= 2 ^ 14) payloads ->
  loop (mkFlow (concat (tls_record <$> payloads)) output need status)
  = Some (mkFlow [] (output ++ concat payloads) 5 status).
Proof.
  intros Hpayloads.
  rewrite <- (app_nil_r (concat (tls_record <$> payloads))).
  rewrite loop_records by done. by rewrite loop_unfold.
Qed.

(** X17: a record that does not start with the bytes 17 03 03 closes the input
    with an error; the records before it are unwrapped, and the input stays
    at the offending record. *)
Theorem loop_invalid_header payloads rest output need status :
  Forall (fun payload => Z.of_nat (length payload) <= 2 ^ 14) payloads ->
  (5 <= length rest)%nat ->
  take 3 rest <> [23; 3; 3] ->
  loop (mkFlow (concat (tls_record <$> payloads) ++ rest) output need status)
  = Some (mkFlow rest (output ++ concat payloads) need
                 (Some "Invalid bytes at the beginning of a packet (emulated tls)")).
Proof.
  intros Hpayloads Hlong Hmagic. rewrite loop_records by done.
  rewrite loop_unfold. cbn [input_].
  destruct (Nat.ltb_spec (length rest) 5) as [|_]; [lia|]. cbv zeta.
  rewrite take_take. rewrite bool_decide_eq_false_2 by done. done.
Qed.

(** X18: a header that announces more than 2^14 bytes closes the input with an
    error, whatever follows it. *)
Theorem loop_length_too_big payloads b3 b4 tail output need status :
  Forall (fun payload => Z.of_nat (length payload) <= 2 ^ 14) payloads ->
  is_byte b3 -> is_byte b4 ->
  2 ^ 14 < b3 * 256 + b4 ->
  loop (mkFlow (concat (tls_record <$> payloads) ++ 23 :: 3 :: 3 :: b3 :: b4 :: tail)
               output need status)
  = Some (mkFlow (23 :: 3 :: 3 :: b3 :: b4 :: tail) (output ++ concat payloads) need
                 (Some "Packet lenght is too big (emulated tls)")).
Proof.
  intros Hpayloads Hb3 Hb4 Hbig. rewrite loop_records by done.
  rewrite loop_unfold. cbn [input_ length Nat.ltb Nat.leb take drop]. cbv zeta.
  rewrite bool_decide_eq_true_2 by done. cbn [negb].
  rewrite packet_length_bytes by done.
  destruct (Z.ltb_spec (2 ^ 14) (b3 * 256 + b4)); [done|lia].
Qed.

(** X19: a record that has not arrived completely is left in the input
    untouched, and the flow asks for what it needs to go on: five bytes
    while the header is incomplete, the full size of the record after. *)
Theorem loop_incomplete_record payloads payload k output need status :
  Forall (fun payload => Z.of_nat (length payload) <= 2 ^ 14) payloads ->
  Z.of_nat (length payload) <= 2 ^ 14 ->
  (k < length (tls_record payload))%nat ->
  loop (mkFlow (concat (tls_record <$> payloads) ++ take k (tls_record payload))
               output need status)
  = Some (mkFlow (take k (tls_record payload)) (output ++ concat payloads)
                 (if (k <? 5)%nat then 5 else 5 + Z.of_nat (length payload)) status).
Proof.
  intros Hpayloads Hlen Hk. rewrite loop_records by done.
  rewrite loop_unfold. cbn [input_].
  rewrite length_take, Nat.min_l by lia.
  destruct (Nat.ltb_spec k 5) as [|Hheader]; [done|]. cbv zeta.
  assert (take 5 (take k (tls_record payload)) = take 5 (tls_record payload ++ [])) as ->
    by (by rewrite app_nil_r, take_take, Nat.min_l by lia).
  rewrite packet_length_record by lia.
  assert (take 3 (take 5 (tls_record payload ++ [])) = [23; 3; 3]) as -> by done.
  rewrite bool_decide_eq_true_2 by done. cbn [negb].
  destruct (Z.ltb_spec (2 ^ 14) (Z.of_nat (length payload))) as [|_]; [lia|].
  rewrite length_drop, length_take, Nat.min_l by lia.
  unfold tls_record in Hk. simpl in Hk.
  destruct (Z.ltb_spec (Z.of_nat (k - 5)) (Z.of_nat (length payload))); [done|lia].
Qed.

(** The size asked for is the only thing the loop does not recompute. *)
Lemma loop_view_proper flow1 flow2 :
  flow_view flow1 = flow_view flow2 ->
  flow_view <$> loop flow1 = flow_view <$> loop flow2.
Proof.
  revert flow2. induction flow1 as [flow1 IH] using flow_ind. intros flow2 Hview.
  injection Hview as Hin Hout Hstatus.
  rewrite (loop_unfold flow1), (loop_unfold flow2). rewrite <- Hin.
  destruct (length (input_ flow1) <? 5)%nat eqn:Hshort;
    [simpl; unfold flow_view; simpl; congruence|].
  cbv zeta.
  destruct (negb _); [simpl; unfold flow_view; simpl; congruence|].
  destruct (2 ^ 14 <? _); [simpl; unfold flow_view; simpl; congruence|].
  destruct (Z.of_nat _ <? _); [simpl; unfold flow_view; simpl; congruence|].
  apply IH.
  - simpl. rewrite !length_drop. apply Nat.ltb_ge in Hshort. lia.
  - unfold flow_view. simpl. congruence.
Qed.

(** X20: streaming.  Stopping when the input runs out and going on when more
    bytes have arrived gives the same input, output and status as running
    once over all the bytes. *)
Theorem loop_resumes flow flow' more :
  loop flow = Some flow' ->
  flow_view <$> loop (mkFlow (input_ flow' ++ more) (output_ flow') (need_size_ flow')
                             (close_status_ flow'))
  = flow_view <$> loop (mkFlow (input_ flow ++ more) (output_ flow) (need_size_ flow)
                               (close_status_ flow)).
Proof.
  revert flow'. induction flow as [flow IH] using flow_ind. intros flow'.
  rewrite (loop_unfold flow).
  destruct (Nat.ltb_spec (length (input_ flow)) 5) as [|Hlong].
  { intros [= <-]. by apply loop_view_proper. }
  cbv zeta.
  assert (take 5 (input_ flow ++ more) = take 5 (input_ flow)) as Hbuf
    by (by rewrite take_app_le).
  assert ((length (input_ flow ++ more) <? 5)%nat = false) as Hlong'
    by (apply Nat.ltb_ge; rewrite length_app; lia).
  destruct (negb (bool_decide (take 3 (take 5 (input_ flow)) = [23; 3; 3]))) eqn:Hmagic.
  { intros [= <-]. rewrite !loop_unfold. cbn [input_ close_input].
    rewrite Hlong'. cbv zeta. by rewrite Hbuf, Hmagic. }
  destruct (2 ^ 14 <? packet_length (take 5 (input_ flow))) eqn:Hbig.
  { intros [= <-]. rewrite !loop_unfold. cbn [input_ close_input].
    rewrite Hlong'. cbv zeta. by rewrite Hbuf, Hmagic, Hbig. }
  destruct (Z.ltb_spec (Z.of_nat (length (drop 5 (input_ flow))))
              (packet_length (take 5 (input_ flow)))) as [|Henough].
  { intros [= <-]. by apply loop_view_proper. }
  set (len := packet_length (take 5 (input_ flow))) in *.
  intros Hnext.
  match type of Hnext with loop ?f = _ => set (next := f) in * end.
  assert (length (input_ next) < length (input_ flow))%nat as Hshorter
    by (unfold next; simpl; rewrite !length_drop; lia).
  rewrite (IH next Hshorter flow' Hnext). unfold next. cbn [input_ output_
    need_size_ close_status_].
  rewrite (loop_unfold (mkFlow (input_ flow ++ more) _ _ _)). cbn [input_ output_
    need_size_ close_status_].
  rewrite Hlong'. cbv zeta. rewrite Hbuf, Hmagic. fold len. rewrite Hbig.
  rewrite drop_app_le by lia.
  assert (Z.to_nat len <= length (drop 5 (input_ flow)))%nat as Hfits.
  { destruct (Z.le_gt_cases 0 len); lia. }
  destruct (Z.ltb_spec (Z.of_nat (length (drop 5 (input_ flow) ++ more))) len) as [Hbad|_].
  { rewrite length_app in Hbad. lia. }
  by rewrite drop_app_le, take_app_le by done.
Qed.
(** * Concrete runs *)

(** C7, as stated, fails: with a confirmed vote on option "0" and a pending
    answer for option "1", the rendered total is the confirmed total (5), not
    the confirmed total plus one. *)
Lemma get_poll_object_total_not_plus_one :
  get_poll voted_state 1 = Some voted_poll /\
  (exists pending_answer,
     pending_answers_ voted_state !! 1 = Some pending_answer /\
     options_ pending_answer <> []) /\
  exists object,
    get_poll_object voted_state 1 = Done object /\
    api_total_voter_count object = 5 /\
    api_total_voter_count object <> total_voter_count voted_poll + 1.
Proof.
  split; [reflexivity|]. split.
  - eexists. split; [reflexivity|]. discriminate.
  - eexists. split; [vm_compute; reflexivity|]. split; [reflexivity|]. vm_compute. discriminate.
Qed.

Lemma get_poll_object_total_voter_count_witness :
  exists object,
    get_poll_object voted_state 1 = Done object /\
    api_total_voter_count object
    = int32 (total_voter_count voted_poll
             - (if existsb is_chosen (options voted_poll) then 1 else 0)
             + (if bool_decide (["1"%string] = []) then 0 else 1)).
Proof.
  apply (get_poll_object_total_voter_count voted_state 1 voted_poll
           (mkPending ["1"%string] [Callback 1] 1 0 (Some 7))); reflexivity.
Defined.

(** ** Reachable example states *)

Lemma reachable_run_calls `{Extern} use_db st calls st' :
  reachable use_db st -> run_calls use_db st calls = Done st' -> reachable use_db st'.
Proof.
  revert st. induction calls as [|[close op] rest IH]; intros st Hreach; simpl.
  - by intros [= <-].
  - destruct (run (mkGlobal use_db close) st op) as [st1|] eqn:Hrun; simpl; [|done].
    apply IH. by eapply reachable_run.
Qed.

Example example_calls_run :
  @run_calls example_extern true (initial_state ∅ (mkBinlog ∅ 1)) example_calls
  = Done voting_state.
Proof. vm_compute. reflexivity. Qed.

Lemma voting_state_reachable : @reachable example_extern true voting_state.
Proof.
  apply (reachable_run_calls true (initial_state ∅ (mkBinlog ∅ 1)) example_calls).
  - by apply reachable_initial.
  - apply example_calls_run.
Qed.


(** ** The answer coordinator, run *)


(** C2, as stated, fails: when the one query of two coalesced submissions
    fails while the process is closing, the completion is dropped; neither
    waiter is resolved and the pending answer stays as it is. *)
Lemma coalesced_waiters_dropped_while_closing :
  exists st',
    do_set_poll_answer example_global voting_state 1 (10, 20) ["0"%string] 0 (Callback 2)
    = Done st' /\
    pending_answers_ st' !! 1
    = Some (mkPending ["0"%string] [Callback 1; Callback 2] 1 1 (Some 77)) /\
    on_set_poll_answer (mkGlobal true true) st' 1 1 (RError (mkStatus 500 "Request aborted"))
    = Done st' /\
    trace st' = trace voting_state.
Proof.
  eexists. split; [vm_compute; reflexivity|].
  split; [reflexivity|]. split; reflexivity.
Qed.


Lemma do_set_poll_answer_coalesces_witness :
  exists st' st'',
    do_set_poll_answer example_global voting_state 1 (10, 20) ["0"%string] 0 (Callback 2)
    = Done st' /\
    trace st' = trace voting_state /\
    binlog st' = binlog voting_state /\
    current_generation_ st' = current_generation_ voting_state /\
    on_set_poll_answer example_global st' 1 1 ROk = Done st'' /\
    trace st'' = trace voting_state
                 ++ [EvBinlogErase 1; EvSetValue (Callback 1); EvSetValue (Callback 2)].
Proof.
  destruct (do_set_poll_answer_coalesces example_global example_global voting_state 1
              (10, 20) ["0"%string] 0 (Callback 2) example_pending ROk)
    as (Hrun & Htrace & Hlog & Hgen & _ & Hresolve).
  - reflexivity.
  - discriminate.
  - reflexivity.
  - destruct (Hresolve eq_refl) as (st'' & Hrun' & Htrace' & _).
    eexists. exists st''. split; [exact Hrun|]. split; [exact Htrace|].
    split; [exact Hlog|]. split; [exact Hgen|]. split; [exact Hrun'|].
    rewrite Htrace'. reflexivity.
Defined.

Lemma on_set_poll_answer_stale_witness :
  on_set_poll_answer example_global voting_state 1 5 ROk = Done voting_state /\
  on_set_poll_answer example_global voting_state 2 1 ROk = Done voting_state.
Proof.
  split.
  - apply on_set_poll_answer_stale. right. exists example_pending.
    split; [reflexivity|]. split; discriminate.
  - apply on_set_poll_answer_stale. left. reflexivity.
Defined.

Lemma set_poll_answer_rejects_witness :
  exists status,
    set_poll_answer example_global voting_state 1 (10, 20) [5] (Callback 3)
    = Done (emit voting_state [EvSetError (Callback 3) status]).
Proof.
  destruct (set_poll_answer_rejects example_global voting_state 1 (10, 20) [5] (Callback 3))
    as (status & Hrun & _).
  - repeat constructor; vm_compute; discriminate.
  - intros poll Hpoll. vm_compute in Hpoll. injection Hpoll as <-. vm_compute. reflexivity.
  - right. right. exists example_poll. split; [reflexivity|]. right.
    exists 5. split; [apply list_elem_of_here|]. right. vm_compute. discriminate.
  - exists status. exact Hrun.
Defined.

Lemma pending_answers_have_waiters_witness :
  promises_ example_pending <> [] /\
  exists st', on_set_poll_answer example_global voting_state 1 1 ROk = Done st'.
Proof.
  destruct (@pending_answers_have_waiters example_extern true voting_state example_global
              1 1 ROk voting_state_reachable) as (Hwaiters & _ & Hdone).
  split; [exact Hwaiters|exact Hdone].
Defined.

(** ** Replay, run *)

(** C4, as stated, fails: replaying the one entry of [startup_binlog] sends
    the vote query and nothing else; in particular the entry is not
    rewritten (no call to the binlog is made at all). *)
Lemma replay_does_not_rewrite :
  exists st',
    @on_binlog_events example_extern example_global (initial_state ∅ startup_binlog)
                      startup_events = Done st' /\
    trace st' = [EvSendVote 1 1 (10, 20) ["0"%string]] /\
    existsb (fun e => match e with EvBinlogRewrite _ _ => true | _ => false end) (trace st')
    = false /\
    pending_answers_ st' !! 1 = Some (mkPending ["0"%string] [Auto] 1 7 None).
Proof.
  eexists. split; [vm_compute; reflexivity|].
  split; [reflexivity|]. split; reflexivity.
Qed.

Lemma on_binlog_events_replay_witness :
  exists st',
    @on_binlog_events example_extern example_global (initial_state ∅ startup_binlog)
                      startup_events = Done st' /\
    binlog st' = startup_binlog /\
    binlog_calls (trace st') = [] /\
    sent_votes (trace st') = [(1, (10, 20), ["0"%string])] /\
    exists pending_answer,
      pending_answers_ st' !! 1 = Some pending_answer /\
      logevent_id_ pending_answer = 7 /\
      promises_ pending_answer = [Auto] /\
      options_ pending_answer = ["0"%string].
Proof.
  destruct (@on_binlog_events_replay example_extern example_global
              (initial_state ∅ startup_binlog) startup_events)
    as (st' & Hrun & Hlog & Hcalls & Hsent & Hkept & _).
  - reflexivity.
  - repeat constructor; [discriminate|by eexists].
  - apply NoDup_cons. split; [apply not_elem_of_nil|apply NoDup_nil_2].
  - intros log_event _. apply lookup_empty.
  - exists st'. split; [exact Hrun|]. split; [exact Hlog|].
    split; [exact Hcalls|]. split; [exact Hsent|].
    apply (Hkept (mkBinlogEvent 7 SetPollAnswer "0") (mkLogEvent 1 (10, 20) ["0"%string]));
      [apply list_elem_of_here|reflexivity].
Defined.

(** ** Reconciliation, run *)

(** C5, as stated, fails: with two tally entries for the same key (5, then
    6 voters), the second application of the same results leaves the poll's
    fields as they are but raises the changed-flag again, so it notifies
    the message and writes the poll to the store a second time. *)
Lemma on_get_poll_twice_duplicate_keys :
  exists st1 st2,
    @on_get_poll example_extern example_global registered_state 1 None
                 (Some duplicate_results) = Done (1, st1) /\
    @on_get_poll example_extern example_global st1 1 None
                 (Some duplicate_results) = Done (1, st2) /\
    polls_ st2 = polls_ st1 /\
    trace st2 = trace st1 ++ [EvUpdateMessageContent (10, 20); EvPmcSet "poll1" "Q"] /\
    st2 <> st1.
Proof.
  eexists. eexists. split; [vm_compute; reflexivity|].
  split; [vm_compute; reflexivity|].
  split; [reflexivity|]. split; [reflexivity|].
  intros Heq. apply (f_equal trace) in Heq. discriminate Heq.
Qed.

Lemma on_get_poll_twice_witness :
  exists ret st1,
    @on_get_poll example_extern example_global confirmed_state 1 None
                 (Some minimal_results) = Done (ret, st1) /\
    @on_get_poll example_extern example_global st1 1 None
                 (Some minimal_results) = Done (ret, st1).
Proof.
  destruct (@on_get_poll example_extern example_global confirmed_state 1 None
              (Some minimal_results)) as [[ret st1]|f] eqn:Hfirst;
    [|vm_compute in Hfirst; discriminate Hfirst].
  exists ret, st1. split; [reflexivity|].
  apply (@on_get_poll_twice example_extern example_global confirmed_state 1 None
           (Some minimal_results) ret st1); [|exact Hfirst].
  intros results [= <-]. apply NoDup_cons. split; [apply not_elem_of_nil|apply NoDup_nil_2].
Defined.

(** The spec's scenario: the minimal tally raises the count of the chosen
    option from 5 to 6, keeps [is_chosen], and notifies the message once. *)
Example on_get_poll_minimal_scenario :
  exists st',
    @on_get_poll example_extern example_global confirmed_state 1 None
                 (Some minimal_results) = Done (1, st') /\
    get_poll st' 1
    = Some (mkPoll "Q" [mkPollOption "A" "0" 6 true; mkPollOption "B" "1" 0 false] 5 false) /\
    trace st' = [EvUpdateMessageContent (10, 20); EvPmcSet "poll1" "Q"].
Proof. eexists. split; [vm_compute; reflexivity|]. split; reflexivity. Qed.

Lemma on_get_poll_minimal_results_witness :
  exists st' poll',
    @on_get_poll example_extern example_global confirmed_state 1 None
                 (Some minimal_results) = Done (1, st') /\
    get_poll st' 1 = Some poll' /\
    options poll' = [mkPollOption "A" "0" 6 true; mkPollOption "B" "1" 0 false] /\
    @on_get_poll_apply_result example_extern true (mkVoters 0 "9" 3)
                              (options confirmed_poll) false
    = (options confirmed_poll, false).
Proof.
  destruct (@on_get_poll_minimal_results example_extern example_global confirmed_state 1
              confirmed_poll None minimal_results (mkVoters 0 "9" 3) false)
    as (_ & st' & poll' & Hrun & Hpoll & Hoptions & _ & Hignored).
  - reflexivity.
  - reflexivity.
  - reflexivity.
  - exact I.
  - vm_compute. discriminate.
  - exists st', poll'. split; [exact Hrun|]. split; [exact Hpoll|].
    split; [rewrite Hoptions; vm_compute; reflexivity|].
    apply Hignored. repeat constructor; discriminate.
Defined.

(** ** [is_closed], run *)

(** C6, as stated, fails: a poll closed by [close_poll] is open again after
    the next server poll for it that lacks the [CLOSED] flag. *)
Lemma is_closed_cleared_by_server :
  exists st1 st2,
    @close_poll example_extern example_global registered_state 1 = Done st1 /\
    is_closed <$> get_poll st1 1 = Some true /\
    @on_get_poll example_extern example_global st1 1 (Some example_server_poll)
                 (Some example_results) = Done (1, st2) /\
    is_closed <$> get_poll st2 1 = Some false.
Proof.
  eexists. eexists. split; [vm_compute; reflexivity|].
  split; [reflexivity|]. split; [vm_compute; reflexivity|]. reflexivity.
Qed.

Lemma is_closed_stays_witness :
  exists st' poll',
    @run_calls example_extern true closed_state closed_calls = Done st' /\
    get_poll st' 1 = Some poll' /\ is_closed poll' = true.
Proof.
  destruct (@run_calls example_extern true closed_state closed_calls) as [st'|f] eqn:Hrun;
    [|vm_compute in Hrun; discriminate Hrun].
  destruct (@is_closed_stays example_extern true closed_state closed_calls st' 1
              (mkPoll "Q" [mkPollOption "A" "0" 0 false; mkPollOption "B" "1" 0 false]
                      0 true))
    as (poll' & Hpoll & Hclosed).
  - reflexivity.
  - reflexivity.
  - repeat constructor; simpl; try (intros []; fail).
    intros [_ Hflag]. discriminate Hflag.
  - exact Hrun.
  - exists st', poll'. split; [reflexivity|]. split; [exact Hpoll|exact Hclosed].
Defined.

(** ** Scenarios *)

(** Local ids are the negative ids above the least 32-bit integer. *)
Example is_local_poll_id_values :
  is_local_poll_id (-1) = true /\ is_local_poll_id 0 = false /\
  is_local_poll_id 5 = false /\ is_local_poll_id (- 2 ^ 31) = false /\
  is_local_poll_id (- 2 ^ 31 + 1) = true.
Proof. repeat split; reflexivity. Qed.

(** A poll created locally gets the id -1 and the keys "0", "1"; a vote on
    it is rejected. *)
Example create_local_poll_and_vote :
  exists st,
    create_poll (initial_state ∅ (mkBinlog ∅ 1)) "Q" ["A"%string; "B"%string]
    = Done (-1, st) /\
    get_poll st (-1)
    = Some (mkPoll "Q" [mkPollOption "A" "0" 0 false; mkPollOption "B" "1" 0 false]
                   0 false) /\
    set_poll_answer example_global st (-1) (10, 20) [0] (Callback 1)
    = Done (emit st [EvSetError (Callback 1) (mkStatus 5 "Poll can't be answered")]).
Proof. eexists. split; [vm_compute; reflexivity|]. split; reflexivity. Qed.

(** An edit that keeps the number of options and changes the key of the
    first one resets that option's tally and vote. *)
Example on_get_poll_key_change :
  @on_get_poll_merge_poll example_extern confirmed_poll
     (mkServerPoll 1 0 "Q" [mkPollAnswer "A" "2"; mkPollAnswer "B" "1"]) false
  = (mkPoll "Q" [mkPollOption "A" "2" 0 false; mkPollOption "B" "1" 0 false] 5 false,
     true).
Proof. reflexivity. Qed.

(** The rendering of a poll under a pending answer that moves the vote from
    the first option to the second. *)
Example get_poll_object_overlay :
  get_poll_object voted_state 1
  = Done (mkApiPoll "Q" [mkApiOption "A" 4 false; mkApiOption "B" 1 true] 5 false).
Proof. vm_compute. reflexivity. Qed.

(** Superseding a pending answer whose query reference was never filled in
    stops at the [CHECK] of line 320. *)
Example do_set_poll_answer_without_query :
  do_set_poll_answer example_global
    (set_pending_answers voting_state {[ 1 := mkPending ["0"%string] [Callback 1] 1 1 None ]})
    1 (10, 20) ["1"%string] 0 (Callback 2)
  = Crashed (CHECK_failed 320).
Proof. vm_compute. reflexivity. Qed.

(** A completion that arrives while the process is closing and carries an
    error is dropped; the pending answer and its binlog entry stay. *)
Example on_set_poll_answer_closing :
  on_set_poll_answer (mkGlobal true true) voting_state 1 1
                     (RError (mkStatus 500 "Request aborted"))
  = Done voting_state.
Proof. reflexivity. Qed.

(** * More concrete runs *)

(** ** Creation, votes and completions *)

Lemma create_poll_fresh_witness :
  exists st' poll,
    create_poll (initial_state ∅ (mkBinlog ∅ 1)) "Q" ["A"%string; "B"%string]
    = Done (-1, st') /\
    get_poll st' (-1) = Some poll /\
    data <$> options poll = ["0"%string; "1"%string].
Proof.
  destruct (create_poll_fresh (initial_state ∅ (mkBinlog ∅ 1)) "Q" ["A"%string; "B"%string])
    as (st' & poll & Hrun & _ & _ & Hpoll & _ & _ & Hkeys & _).
  - vm_compute. split; reflexivity.
  - reflexivity.
  - exists st', poll. split; [exact Hrun|]. split; [exact Hpoll|].
    rewrite Hkeys. vm_compute. reflexivity.
Defined.

Lemma set_poll_answer_accepts_witness :
  exists st',
    set_poll_answer example_global registered_state 1 (10, 20) [1] (Callback 1) = Done st' /\
    trace st'
    = trace registered_state
      ++ [EvBinlogAdd 1 (mkLogEvent 1 (10, 20) ["1"%string]);
          EvUpdateMessageContent (10, 20);
          EvSendVote 1 1 (10, 20) ["1"%string]] /\
    pending_answers_ st' !! 1 = Some (mkPending ["1"%string] [Callback 1] 1 1 None).
Proof.
  destruct (set_poll_answer_accepts example_global registered_state 1 (10, 20) [1]
              ["1"%string] (Callback 1) example_poll)
    as (st' & Hrun & Htrace & Hpending & _).
  - reflexivity.
  - reflexivity.
  - reflexivity.
  - simpl. lia.
  - repeat constructor. vm_compute. discriminate.
  - reflexivity.
  - exists st'. split; [exact Hrun|]. split; [rewrite Htrace; reflexivity|].
    rewrite Hpending. reflexivity.
Defined.

Lemma vote_and_completion_witness :
  exists st1 st2,
    set_poll_answer example_global registered_state 1 (10, 20) [] (Callback 1) = Done st1 /\
    on_set_poll_answer example_global st1 1 1 ROk = Done st2 /\
    trace st2 = trace st1 ++ [EvBinlogErase 1; EvSetValue (Callback 1)] /\
    pending_answers_ st2 = ∅ /\
    entries (binlog st2) = ∅.
Proof.
  destruct (vote_and_completion example_global registered_state 1 (10, 20) [] []
              (Callback 1) example_poll ROk)
    as (st1 & st2 & Hvote & Hdone & Htrace & Hpending & Hlog & _).
  - reflexivity.
  - reflexivity.
  - reflexivity.
  - simpl. lia.
  - constructor.
  - reflexivity.
  - reflexivity.
  - reflexivity.
  - reflexivity.
  - exists st1, st2. split; [exact Hvote|]. split; [exact Hdone|].
    split; [rewrite Htrace; reflexivity|]. split; [exact Hpending|exact Hlog].
Defined.

Lemma vote_without_access_witness :
  exists st2,
    on_set_poll_answer example_global
      (SetPollAnswerQuery_send voting_state 1 (10, 20) ["0"%string] 1 false 78) 1 1
      (RError (mkStatus 400 "Can't access the chat")) = Done st2 /\
    trace st2
    = trace voting_state
      ++ [EvGetDialogError 10 (mkStatus 400 "Can't access the chat");
          EvQueryResult 1 1 (RError (mkStatus 400 "Can't access the chat"));
          EvBinlogErase 1;
          EvSetError (Callback 1) (mkStatus 400 "Can't access the chat")] /\
    pending_answers_ st2 !! 1 = None.
Proof.
  destruct (vote_without_access example_global voting_state 1 (10, 20) ["0"%string] 78
              example_pending)
    as (_ & Hsent & st2 & Hrun & Htrace & Hpending & _).
  - reflexivity.
  - discriminate.
  - reflexivity.
  - exists st2. split; [exact Hrun|].
    split; [rewrite Htrace, Hsent; reflexivity|].
    rewrite Hpending. reflexivity.
Defined.

(** ** Replay without the message database *)

Lemma on_binlog_events_without_db_witness :
  (exists st',
     @on_binlog_events example_extern (mkGlobal false false) (initial_state ∅ startup_binlog)
       startup_events = Done st' /\
     trace st' = [EvBinlogErase 7] /\
     entries (binlog st') !! 7 = None /\
     pending_answers_ st' = ∅) /\
  @on_binlog_events example_extern (mkGlobal false false) (initial_state ∅ startup_binlog)
    (startup_events ++ [mkBinlogEvent 8 (OtherHandler 3) "x"])
  = Crashed (LOG_FATAL 534).
Proof.
  destruct (@on_binlog_events_without_db example_extern (mkGlobal false false)
              (initial_state ∅ startup_binlog) startup_events
              (mkBinlogEvent 8 (OtherHandler 3) "x") [])
    as ((st' & Hrun & Htrace & Hlog & _ & Hpending & _) & Hfatal).
  - reflexivity.
  - repeat constructor.
  - discriminate.
  - split; [|exact Hfatal].
    exists st'. split; [exact Hrun|]. split; [rewrite Htrace; reflexivity|].
    split; [rewrite Hlog; reflexivity|exact Hpending].
Defined.

(** ** Reconciliation *)

Lemma on_get_poll_result_witness :
  have_poll renamed_state 1 = true /\
  forall local_id,
    is_local_poll_id local_id = true ->
    get_poll renamed_state local_id = get_poll registered_state local_id.
Proof.
  destruct (@on_get_poll_result example_extern example_global registered_state 1
              (Some renamed_server_poll) (Some example_results) 1 renamed_state)
    as ([(Hempty & _)|(_ & _ & _ & Hhave)] & Hlocal).
  - vm_compute. reflexivity.
  - vm_compute in Hempty. discriminate Hempty.
  - split; [exact Hhave|exact Hlocal].
Defined.

Lemma on_get_poll_mirrors_server_witness :
  exists st' poll,
    @on_get_poll example_extern example_global registered_state 1
      (Some renamed_server_poll) (Some example_results) = Done (1, st') /\
    get_poll st' 1 = Some poll /\
    question poll = "Q2"%string /\
    text <$> options poll = ["A2"%string; "B"%string] /\
    is_closed poll = true.
Proof.
  destruct (@on_get_poll_mirrors_server example_extern example_global registered_state 1
              renamed_server_poll example_results (Some example_poll) registered_state)
    as (st' & poll & Hrun & Hpoll & Hquestion & Htexts & _ & Hclosed).
  - reflexivity.
  - reflexivity.
  - reflexivity.
  - reflexivity.
  - exists st', poll. split; [exact Hrun|]. split; [exact Hpoll|].
    split; [exact Hquestion|]. split; [exact Htexts|exact Hclosed].
Defined.

Lemma on_get_poll_announces_change_witness :
  exists st' poll',
    @on_get_poll example_extern example_global registered_state 1
      (Some renamed_server_poll) (Some example_results) = Done (1, st') /\
    get_poll st' 1 = Some poll' /\
    (poll' <> example_poll ->
     sqlite_pmc st' !! "poll1"%string = Some (question poll')).
Proof.
  destruct (@on_get_poll_announces_change example_extern example_global registered_state 1
              example_poll (Some renamed_server_poll) example_results)
    as (st' & poll' & Hrun & Hpoll & _ & Hchanged).
  - reflexivity.
  - reflexivity.
  - reflexivity.
  - reflexivity.
  - exists st', poll'. split; [exact Hrun|]. split; [exact Hpoll|].
    intros Hne. destruct (Hchanged Hne) as [_ Hsaved]. exact (Hsaved eq_refl).
Defined.

(** ** The store *)

Lemma local_polls_are_not_stored_witness :
  store_step (initial_state ∅ (mkBinlog ∅ 1)) local_final /\
  sqlite_pmc local_final !! get_poll_database_key (-1) = None.
Proof.
  destruct (@local_polls_are_not_stored example_extern true (initial_state ∅ (mkBinlog ∅ 1))
              local_calls local_final (-1))
    as (Hstep & Hkey).
  - vm_compute. reflexivity.
  - reflexivity.
  - split; [exact Hstep|]. rewrite Hkey. reflexivity.
Defined.

Lemma save_poll_survives_restart_witness :
  exists st2,
    @get_poll_force example_extern example_global restarted_state 2
    = Done (Some bare_poll, st2) /\
    polls_ st2 = {[ 2 := bare_poll ]} /\
    trace st2 = [].
Proof.
  destruct (@save_poll_survives_restart example_extern example_global bare_state bare_poll 2
              saved_state restarted_state)
    as (st2 & Hrun & Hpolls & _ & _ & _ & _ & Htrace).
  - reflexivity.
  - vm_compute. reflexivity.
  - reflexivity.
  - discriminate.
  - reflexivity.
  - reflexivity.
  - vm_compute. intros Hin. discriminate Hin.
  - exists st2. split; [exact Hrun|]. split; [rewrite Hpolls; reflexivity|exact Htrace].
Defined.

Lemma get_poll_force_remembers_miss_witness :
  exists st1,
    @get_poll_force example_extern example_global (initial_state ∅ (mkBinlog ∅ 1)) 5
    = Done (None, st1) /\
    @get_poll_force example_extern example_global
      (set_sqlite_pmc st1 {[ "poll5"%string := "Q"%string ]}) 5
    = Done (None, set_sqlite_pmc st1 {[ "poll5"%string := "Q"%string ]}) /\
    forall st2,
      @run_calls example_extern true st1
        [(false, OpOnGetPoll 5 (Some other_server_poll) (Some example_results))] = Done st2 ->
      @get_poll_force example_extern example_global st2 5 = Done (get_poll st2 5, st2).
Proof.
  destruct (@get_poll_force_remembers_miss example_extern example_global
              (initial_state ∅ (mkBinlog ∅ 1)) 5)
    as (st1 & Hrun & _ & _ & _ & Hagain & Hlater).
  - reflexivity.
  - reflexivity.
  - reflexivity.
  - exists st1. split; [exact Hrun|]. split; [apply Hagain|].
    intros st2 Hcalls. exact (Hlater example_global true _ st2 Hcalls).
Defined.

(** ** Closing, registering, rendering *)

Lemma close_poll_closes_witness :
  exists st2,
    @close_poll example_extern example_global registered_state 1 = Done closed_state /\
    @run_calls example_extern true closed_state closed_calls = Done st2 /\
    @close_poll example_extern example_global st2 1 = Done st2 /\
    set_poll_answer example_global st2 1 (10, 20) [0] (Callback 1)
    = Done (emit st2 [EvSetError (Callback 1) (mkStatus 400 "Can't answer closed poll")]).
Proof.
  destruct (@close_poll_closes example_extern example_global registered_state 1 example_poll)
    as (st' & Hrun & _ & _ & _ & _ & Hlater).
  - reflexivity.
  - reflexivity.
  - assert (st' = closed_state) as ->.
    { assert (Done st' = Done closed_state) as Heq
        by (rewrite <- Hrun; vm_compute; reflexivity).
      injection Heq as ->. reflexivity. }
    destruct (@run_calls example_extern true closed_state closed_calls) as [st2|failure]
      eqn:Hcalls; [|vm_compute in Hcalls; discriminate Hcalls].
    destruct (Hlater example_global true closed_calls st2) as [Hagain Hvote].
    + repeat constructor; simpl; try (intros []; fail).
      intros [_ Hflag]. discriminate Hflag.
    + exact Hcalls.
    + exists st2. split; [exact Hrun|]. split; [reflexivity|]. split; [exact Hagain|].
      apply Hvote. simpl. lia.
Defined.

Lemma register_poll_notifies_witness :
  exists st1 st2,
    register_poll registered_state 1 (30, 40) = Done st1 /\
    unregister_poll st1 1 (30, 40) = Done st2 /\
    trace (notify_on_poll_update st2 1)
    = trace registered_state ++ [EvUpdateMessageContent (10, 20)].
Proof.
  destruct (register_poll_notifies registered_state 1 (30, 40))
    as (st1 & st2 & Hregister & _ & Hunregister & _ & Htrace & _).
  - reflexivity.
  - exists st1, st2. split; [exact Hregister|]. split; [exact Hunregister|].
    rewrite Htrace. vm_compute. reflexivity.
Defined.

Lemma get_poll_object_shows_pending_witness :
  exists object,
    get_poll_object voted_state 1 = Done object /\
    api_is_chosen <$> api_options object = [false; true].
Proof.
  destruct (get_poll_object_shows_pending voted_state 1 voted_poll)
    as (object & Hrun & _ & _ & _ & Hshown).
  - reflexivity.
  - exists object. split; [exact Hrun|].
    change (pending_answers_ voted_state !! 1)
      with (Some (mkPending ["1"%string] [Callback 1] 1 0 (Some 7))) in Hshown.
    destruct Hshown as [Hoptions _]. rewrite Hoptions. vm_compute. reflexivity.
Defined.

(** ** The record reader *)

Lemma loop_consumes_records_witness :
  exists flow' payloads,
    loop partial_flow = Some flow' /\
    input_ partial_flow = concat (tls_record <$> payloads) ++ input_ flow' /\
    output_ flow' = output_ partial_flow ++ concat payloads.
Proof.
  destruct (loop_consumes_records partial_flow) as (flow' & payloads & Hrun & Hin & Hout & _).
  - repeat constructor; vm_compute; discriminate.
  - exists flow', payloads. split; [exact Hrun|]. split; [exact Hin|exact Hout].
Defined.

Lemma loop_unwraps_records_witness :
  loop (mkFlow (concat (tls_record <$> example_payloads)) [] 0 None)
  = Some (mkFlow [] ([] ++ concat example_payloads) 5 None).
Proof.
  apply (loop_unwraps_records example_payloads [] 0 None).
  repeat constructor; vm_compute; discriminate.
Defined.

Lemma loop_invalid_header_witness :
  loop (mkFlow (concat (tls_record <$> example_payloads) ++ [22; 3; 3; 0; 0]) [] 0 None)
  = Some (mkFlow [22; 3; 3; 0; 0] ([] ++ concat example_payloads) 0
                 (Some "Invalid bytes at the beginning of a packet (emulated tls)")).
Proof.
  apply (loop_invalid_header example_payloads [22; 3; 3; 0; 0] [] 0 None).
  - repeat constructor; vm_compute; discriminate.
  - simpl. lia.
  - discriminate.
Defined.

Lemma loop_length_too_big_witness :
  loop (mkFlow (concat (tls_record <$> example_payloads) ++ [23; 3; 3; 64; 1; 0]) [] 0 None)
  = Some (mkFlow [23; 3; 3; 64; 1; 0] ([] ++ concat example_payloads) 0
                 (Some "Packet lenght is too big (emulated tls)")).
Proof.
  apply (loop_length_too_big example_payloads 64 1 [0] [] 0 None).
  - repeat constructor; vm_compute; discriminate.
  - split; [vm_compute; discriminate|reflexivity].
  - split; [vm_compute; discriminate|reflexivity].
  - reflexivity.
Defined.

Lemma loop_incomplete_record_witness :
  loop (mkFlow (concat (tls_record <$> example_payloads) ++ take 6 (tls_record [9; 9; 9]))
               [] 0 None)
  = Some (mkFlow (take 6 (tls_record [9; 9; 9])) ([] ++ concat example_payloads) 8 None).
Proof.
  apply (loop_incomplete_record example_payloads [9; 9; 9] 6 [] 0 None).
  - repeat constructor; vm_compute; discriminate.
  - vm_compute. discriminate.
  - simpl. lia.
Defined.

Lemma loop_resumes_witness :
  flow_view <$> loop (mkFlow (input_ waiting_flow' ++ [9; 9]) (output_ waiting_flow')
                             (need_size_ waiting_flow') (close_status_ waiting_flow'))
  = flow_view <$> loop (mkFlow (input_ waiting_flow ++ [9; 9]) (output_ waiting_flow)
                               (need_size_ waiting_flow) (close_status_ waiting_flow)).
Proof.
  apply (loop_resumes waiting_flow waiting_flow' [9; 9]).
  vm_compute. reflexivity.
Defined.
